(** * pyftpserver: a shallow embedding of the FTP server and its providers

    The development follows the layout of the repository:

    - [Py]  : the fragments of the Python runtime the code relies on
              (exceptions, [str]/[bytes] conversions, [str.split],
              [str.replace], slicing);
    - [Reader], [Server] : [ftpserver.py] -- the line reader
              [read_till_crlf], the data-channel reader [read_n_till_close]
              and [command_loop];
    - [OS], [FileSystemProvider] : [providers/FileSystemProvider.py] over
              a model of the operating system's file API;
    - [DropboxProvider] : the listing code of [providers/DropboxProvider.py].

    Sockets are modelled by the bytes the peer sends before it closes its
    side; a [send] on a connection succeeds.  Python [while] loops whose
    termination depends on the environment are modelled with fuel. *)

From Stdlib Require Import ZArith NArith Ascii String Strings.Byte DecimalString Lia.
From stdpp Require Import base gmap strings list.

Open Scope Z_scope.
Open Scope nat_scope.

(* ===================================================================== *)
(** ** Python runtime fragments *)
(* ===================================================================== *)

Module Py.

(** Exceptions that the modelled code raises or lets through. *)
Inductive exn : Type :=
| Exception (msg : string)
| AssertionError (msg : string)
| TypeError
| ValueError
| UnicodeDecodeError
| UnicodeEncodeError
| OSError (msg : string)
| socket_timeout.

Inductive result (A : Type) : Type :=
| Ok (a : A)
| Raise (e : exn).
Global Arguments Ok {A} a.
Global Arguments Raise {A} e.

Definition is_ok {A} (r : result A) : bool :=
  match r with Ok _ => true | Raise _ => false end.

Definition bytes := list byte.

Definition CR : byte := x0d.
Definition LF : byte := x0a.

(** 7-bit test used by the ['ascii'] codec. *)
Definition byte_is_ascii (b : byte) : bool := (Byte.to_N b <? 128)%N.
Definition char_is_ascii (c : ascii) : bool := (N_of_ascii c <? 128)%N.

(** [str(b, 'ascii')] *)
Definition decode_ascii (b : bytes) : result string :=
  if forallb byte_is_ascii b then Ok (String.string_of_list_byte b)
  else Raise UnicodeDecodeError.

(** [bytes(s, 'ascii')] *)
Definition encode_ascii (s : string) : result bytes :=
  if forallb char_is_ascii (String.list_ascii_of_string s)
  then Ok (String.list_byte_of_string s)
  else Raise UnicodeEncodeError.

(** [str(n)] for an [int]. *)
Definition str_of_Z (z : Z) : string := NilZero.string_of_int (Z.to_int z).

(** [b[:-2]] *)
Definition slice_to_minus2 {A} (b : list A) : list A := firstn (length b - 2) b.

(** [s[n:]] *)
Fixpoint str_drop (n : nat) (s : string) : string :=
  match n, s with
  | O, _ => s
  | S _, EmptyString => EmptyString
  | S k, String _ t => str_drop k t
  end.

(** [c in s] for a one-character [c]. *)
Fixpoint str_contains_char (c : ascii) (s : string) : bool :=
  match s with
  | EmptyString => false
  | String a t => if Ascii.eqb a c then true else str_contains_char c t
  end.

(** [s.split(c, 1)]: the list has one element when [c] does not occur
    in [s], and two (the text before and after the first [c]) otherwise. *)
Fixpoint str_split1 (c : ascii) (s : string) : list string :=
  match s with
  | EmptyString => [EmptyString]
  | String a t =>
      if Ascii.eqb a c then [EmptyString; t]
      else match str_split1 c t with
           | x :: rest => String a x :: rest
           | [] => []
           end
  end.

(** [a, b = l] *)
Definition unpack2 (l : list string) : result (string * string) :=
  match l with
  | [a; b] => Ok (a, b)
  | _ => Raise ValueError
  end.

(** [s.startswith(p)] *)
Definition startswith (s p : string) : bool := String.prefix p s.

(** [s.replace(old, new)] for a non-empty [old]: occurrences are found
    left to right and do not overlap.  [skip] counts the characters of a
    matched occurrence that are still to be dropped. *)
Fixpoint replace_go (old new : string) (skip : nat) (s : string) : string :=
  match s with
  | EmptyString => EmptyString
  | String a t =>
      match skip with
      | S k => replace_go old new k t
      | O =>
          if String.prefix old s
          then new +:+ replace_go old new (String.length old - 1) t
          else String a (replace_go old new 0 t)
      end
  end.

Definition replace (s old new : string) : string := replace_go old new 0 s.

(** The text an f-string interpolates for a value that may be [None]. *)
Definition fmt_opt (a : option string) : string :=
  match a with Some s => s | None => "None" end.

(** The text of one backslash. *)
Definition backslash : string := String "092" EmptyString.

(** [sub in s] *)
Fixpoint str_contains (sub s : string) : bool :=
  String.prefix sub s
  || match s with
     | EmptyString => false
     | String _ t => str_contains sub t
     end.

(** The double-quote character. *)
Definition dquote : ascii := "034".

(** Truthiness of a [str]. *)
Definition str_truthy (s : string) : bool :=
  match s with EmptyString => false | _ => true end.

End Py.
Export Py.

(* ===================================================================== *)
(** ** ftpserver.py: reading from sockets *)
(* ===================================================================== *)

Module Reader.

Definition max_buf_len : nat := 1000.

Definition limit_error : exn := Exception "Data exceeded limit (1000)".
Definition termination_error : exn := Exception "Unexpected socket termination".

(** The [while True] loop of [read_till_crlf].  [client] holds the bytes
    the peer still sends before closing; [client.recv(1)] takes the first
    one, or returns [b''] when none is left.  The result is the buffer at
    the [break] (or the exception) together with the unread input. *)
Fixpoint read_loop (client : bytes) (buf : bytes) (is_prv_cr : bool)
  : result bytes * bytes :=
  match client with
  | [] =>
      if negb (length buf =? 0) then (Raise termination_error, [])
      else (Ok buf, [])
  | char :: client' =>
      if max_buf_len <? length buf then (Raise limit_error, client')
      else
        let buf := buf ++ [char] in
        if Byte.eqb char CR then read_loop client' buf true
        else if is_prv_cr && Byte.eqb char LF then (Ok buf, client')
        else read_loop client' buf false
  end.

(** [Server.read_till_crlf] *)
Definition read_till_crlf (client : bytes) : result string * bytes :=
  match read_loop client [] false with
  | (Ok buf, client') => (decode_ascii (slice_to_minus2 buf), client')
  | (Raise e, client') => (Raise e, client')
  end.

(** [client.recv(k)] on a data connection whose peer has already sent
    everything: up to [k] bytes of what is unread. *)
Fixpoint take_N (k : N) (s : bytes) : bytes :=
  match s with
  | [] => []
  | b :: t => if (k =? 0)%N then [] else b :: take_N (N.pred k) t
  end.

Fixpoint drop_N (k : N) (s : bytes) : bytes :=
  match s with
  | [] => []
  | b :: t => if (k =? 0)%N then s else drop_N (N.pred k) t
  end.

Definition recv (k : N) (client : bytes) : bytes * bytes :=
  (take_N k client, drop_N k client).

(** The loop of [read_n_till_close]; [None] when the fuel runs out. *)
Fixpoint read_n_loop (fuel : nat) (client : bytes) (n : N) (buf : bytes)
  : option (bytes * bytes) :=
  match fuel with
  | O => None
  | S fuel' =>
      let '(char, client') := recv (n - N.of_nat (length buf)) client in
      match char with
      | [] => Some (buf, client')
      | _ => read_n_loop fuel' client' n (buf ++ char)
      end
  end.

(** [Server.read_n_till_close]: every productive round consumes input,
    so [length client + 1] rounds are enough (lemma [read_n_loop_total]
    below); the default is never used. *)
Definition read_n_till_close (client : bytes) (n : N) : bytes * bytes :=
  default ([], client) (read_n_loop (S (length client)) client n []).

End Reader.
Export Reader.

(** Substring test for the line terminator, independent of the reader's
    [is_prv_cr] flag. *)
Fixpoint has_crlf (l : bytes) : bool :=
  match l with
  | a :: (b :: _) as t => (Byte.eqb a CR && Byte.eqb b LF) || has_crlf t
  | _ => false
  end.

Definition crlf : bytes := [CR; LF].

(* ===================================================================== *)
(** ** providers/ProviderBase.py *)
(* ===================================================================== *)

(** A chunk callable [get_file_chunk(n)], closing over a source of state
    [Src] that is threaded explicitly: it returns the chunk and the source's
    next state.  For the server the source is a connection and its state
    the unread input. *)
Definition chunk_fn (Src : Type) : Type := N -> Src -> bytes * Src.

Module Provider.

(** The abstract base class.  A provider of state [P] implements the ten
    methods; each returns the provider's new state and either a value or
    the exception it raised.  Path arguments are [None] when the command
    line had no argument.  [save_file] receives the chunk callable and the
    unread input of the connection it reads, and returns what it left. *)
Class ProviderBase (P : Type) : Type := {
  get_work_dir : P -> P * result string;
  change_work_dir : option string -> P -> P * result bool;
  listdir : P -> P * result string;
  get_size : option string -> P -> P * result (bool * string);
  get_file : option string -> P -> P * result bytes;
  save_file : option string -> chunk_fn bytes -> bytes -> P -> P * bytes * result unit;
  rename_file : option string -> option string -> P -> P * result unit;
  del_file : option string -> P -> P * result unit;
  mkdir : option string -> P -> P * result unit;
  rmdir : option string -> P -> P * result unit
}.

End Provider.
Abbreviation ProviderBase := Provider.ProviderBase.

(* ===================================================================== *)
(** ** ftpserver.py: the command loop *)
(* ===================================================================== *)

Module Server.
Import Provider.

Definition SERVER_NAME : string := "Eli's ftp server".

(** End of a reply line. *)
Definition crlf_str : string := String "013" (String "010" EmptyString).

(** A passive data connection: what the peer still sends, what the
    server has sent on it, and whether the server closed it. *)
Record data_socket : Type := {
  incoming : bytes;
  sent : bytes;
  closed : bool
}.

(** What the network does at one [PASV]: creating or binding the
    listener fails, or the listener gets address [(ip, port)] and
    [accept] either times out or returns a connection. *)
Inductive pasv_outcome : Type :=
| BindFails
| AcceptTimesOut (ip : string) (port : Z)
| Accepts (ip : string) (port : Z) (peer_data : bytes).

(** Provider methods, as invoked by the loop. *)
Inductive call : Type :=
| CallGetWorkDir
| CallChangeWorkDir (a : option string)
| CallListdir
| CallGetSize (a : option string)
| CallGetFile (a : option string)
| CallSaveFile (a : option string)
| CallRenameFile (from_name to_name : option string)
| CallDelFile (a : option string)
| CallMkdir (a : option string)
| CallRmdir (a : option string).

(** Observable steps of a session, oldest first in [log]. *)
Inductive event : Type :=
| EvReply (status : Z) (data : string)
| EvCall (c : call)
| EvAccept (h : nat)
| EvDataSend (h : nat) (d : bytes)
| EvDataClose (h : nat).

Definition is_reply (status : Z) (e : event) : bool :=
  match e with EvReply st _ => (st =? status)%Z | _ => false end.

Definition replies (l : list event) : list Z :=
  omap (fun e => match e with EvReply st _ => Some st | _ => None end) l.

Section WithProvider.
Context {P : Type} `{ProviderBase P}.

(** The variables of one [command_loop] activation.  [passive_client]
    refers to a connection of [sockets] by position. *)
Record session : Type := {
  client : bytes;
  client_closed : bool;
  provider : P;
  passive_client : option nat;
  sockets : list data_socket;
  network : list pasv_outcome;
  log : list event
}.

Definition set_client (c : bytes) (s : session) : session :=
  {| client := c; client_closed := client_closed s; provider := provider s;
     passive_client := passive_client s; sockets := sockets s;
     network := network s; log := log s |}.
Definition set_client_closed (b : bool) (s : session) : session :=
  {| client := client s; client_closed := b; provider := provider s;
     passive_client := passive_client s; sockets := sockets s;
     network := network s; log := log s |}.
Definition set_provider (p : P) (s : session) : session :=
  {| client := client s; client_closed := client_closed s; provider := p;
     passive_client := passive_client s; sockets := sockets s;
     network := network s; log := log s |}.
Definition set_passive_client (pc : option nat) (s : session) : session :=
  {| client := client s; client_closed := client_closed s; provider := provider s;
     passive_client := pc; sockets := sockets s;
     network := network s; log := log s |}.
Definition set_sockets (l : list data_socket) (s : session) : session :=
  {| client := client s; client_closed := client_closed s; provider := provider s;
     passive_client := passive_client s; sockets := l;
     network := network s; log := log s |}.
Definition set_network (n : list pasv_outcome) (s : session) : session :=
  {| client := client s; client_closed := client_closed s; provider := provider s;
     passive_client := passive_client s; sockets := sockets s;
     network := n; log := log s |}.
Definition emit (e : event) (s : session) : session :=
  {| client := client s; client_closed := client_closed s; provider := provider s;
     passive_client := passive_client s; sockets := sockets s;
     network := network s; log := log s ++ [e] |}.

(** Statements of the loop: state passing with exceptions. *)
Definition M (A : Type) : Type := session -> session * result A.

Definition ret {A} (a : A) : M A := fun s => (s, Ok a).
Definition raise {A} (e : exn) : M A := fun s => (s, Raise e).
Definition bind {A B} (m : M A) (k : A -> M B) : M B := fun s =>
  match m s with
  | (s', Ok a) => k a s'
  | (s', Raise e) => (s', Raise e)
  end.
Definition lift {A} (r : result A) : M A := fun s => (s, r).

Notation "x <- m ;; k" := (bind m (fun x => k))
  (at level 200, m at level 99, k at level 200, only parsing).
Notation "m ;;; k" := (bind m (fun _ => k))
  (at level 200, k at level 200, only parsing).

(** A provider method invoked on the session's provider. *)
Definition invoke {A} (c : call) (m : P -> P * result A) : M A := fun s =>
  let s := emit (EvCall c) s in
  let '(p, r) := m (provider s) in
  (set_provider p s, r).

(** [reply]: the line is encoded, then sent on the control connection. *)
Definition reply_line (status : Z) (data : string) : string :=
  str_of_Z status +:+ " " +:+ data +:+ crlf_str.

Definition reply (status : Z) (data : string) : M unit := fun s =>
  match encode_ascii (reply_line status data) with
  | Ok _ => (emit (EvReply status data) s, Ok tt)
  | Raise e => (s, Raise e)
  end.

(** Methods of the passive socket. *)
Definition sock_send (h : nat) (d : bytes) : M unit := fun s =>
  match sockets s !! h with
  | Some k =>
      if closed k then (s, Raise (OSError "Bad file descriptor"))
      else
        let k' := {| incoming := incoming k; sent := sent k ++ d; closed := false |} in
        (emit (EvDataSend h d) (set_sockets (<[h := k']> (sockets s)) s), Ok tt)
  | None => (s, Raise (OSError "Bad file descriptor"))
  end.

Definition sock_close (h : nat) : M unit := fun s =>
  match sockets s !! h with
  | Some k =>
      let k' := {| incoming := incoming k; sent := sent k; closed := true |} in
      (emit (EvDataClose h) (set_sockets (<[h := k']> (sockets s)) s), Ok tt)
  | None => (s, Ok tt)
  end.

(** [str or bytes] *)
Inductive payload : Type :=
| Text (t : string)
| Binary (b : bytes).

Definition passive_reply (before_reply : Z * string) (data : M payload)
    (after_reply : Z * string) : M unit := fun s =>
  match passive_client s with
  | None => reply 425 "Enter passive mode first" s
  | Some h =>
      (reply (fst before_reply) (snd before_reply) ;;;
       d <- data ;;
       d <- lift (match d with
                  | Binary b => Ok b
                  | Text t => encode_ascii t
                  end) ;;
       sock_send h d ;;;
       sock_close h ;;;
       (fun s => (set_passive_client None s, Ok tt)) ;;;
       reply (fst after_reply) (snd after_reply)) s
  end.

(** The provider's [save_file] run on connection [h] with the chunk
    callable [get_chunk]. *)
Definition invoke_save_file (file_name : option string) (get_chunk : chunk_fn bytes)
    (h : nat) : M unit := fun s =>
  match sockets s !! h with
  | Some k =>
      if closed k then (emit (EvCall (CallSaveFile file_name)) s,
                        Raise (OSError "Bad file descriptor"))
      else
        let s := emit (EvCall (CallSaveFile file_name)) s in
        let '(p, rest, r) := save_file file_name get_chunk (incoming k) (provider s) in
        let k' := {| incoming := rest; sent := sent k; closed := false |} in
        (set_provider p (set_sockets (<[h := k']> (sockets s)) s), r)
  | None => (emit (EvCall (CallSaveFile file_name)) s,
             Raise (OSError "Bad file descriptor"))
  end.

Definition passive_read (before_read : Z * string)
    (handle : chunk_fn bytes -> nat -> M unit) (after_read : Z * string) : M unit := fun s =>
  match passive_client s with
  | None => reply 425 "Enter passive mode first" s
  | Some h =>
      (reply (fst before_read) (snd before_read) ;;;
       (let get_chunk : chunk_fn bytes := fun n c => read_n_till_close c n in
        handle get_chunk h) ;;;
       sock_close h ;;;
       (fun s => (set_passive_client None s, Ok tt)) ;;;
       reply (fst after_read) (snd after_read)) s
  end.

(** [Server.read_till_crlf(client)] on the control connection. *)
Definition read_line : M string := fun s =>
  let '(r, rest) := read_till_crlf (client s) in
  (set_client rest s, r).

(** What the runtime does with the connection at position [h] when the
    last reference to its socket object goes away: it closes it. *)
Definition release (h : nat) (l : list data_socket) : list data_socket :=
  match l !! h with
  | Some k => <[h := {| incoming := incoming k; sent := sent k; closed := true |}]> l
  | None => l
  end.

(** The [PASV] branch.  When [network] says nothing more, the listener
    cannot be bound.  The name [passive_client] holds the only reference
    to the connection accepted before: binding it to the new connection
    releases the earlier one. *)
Definition enter_passive : M unit := fun s =>
  match network s with
  | [] | BindFails :: _ => (set_network (tail (network s)) s, Raise (OSError "bind"))
  | AcceptTimesOut ip port :: net =>
      let passive_server_ip := replace ip "." "," in
      let passive_server_port :=
        str_of_Z (Z.shiftr port 8) +:+ "," +:+ str_of_Z (Z.land port 255) in
      (reply 227 ("Entering passive mode (" +:+ passive_server_ip +:+ ","
                    +:+ passive_server_port +:+ ")") ;;;
       raise socket_timeout) (set_network net s)
  | Accepts ip port peer_data :: net =>
      let passive_server_ip := replace ip "." "," in
      let passive_server_port :=
        str_of_Z (Z.shiftr port 8) +:+ "," +:+ str_of_Z (Z.land port 255) in
      (reply 227 ("Entering passive mode (" +:+ passive_server_ip +:+ ","
                    +:+ passive_server_port +:+ ")") ;;;
       (fun s =>
          let h := length (sockets s) in
          let k := {| incoming := peer_data; sent := []; closed := false |} in
          let earlier := match passive_client s with
                         | Some old => release old (sockets s)
                         | None => sockets s
                         end in
          (emit (EvAccept h)
             (set_passive_client (Some h) (set_sockets (earlier ++ [k]) s)), Ok tt)))
        (set_network net s)
  end.

(** ['dir changed to ' + args] *)
Definition str_plus (a : string) (b : option string) : result string :=
  match b with
  | Some b => Ok (a +:+ b)
  | None => Raise TypeError
  end.

Definition quoted (args : option string) (rest : string) : string :=
  String dquote (fmt_opt args) +:+ String dquote rest.

(** The [if]/[elif] chain inside [try]. *)
Definition dispatch (cmd : string) (args : option string) : M unit :=
  if String.eqb cmd "CWD" then
    ok <- invoke (CallChangeWorkDir args) (change_work_dir args) ;;
    if ok : bool then
      msg <- lift (str_plus "dir changed to " args) ;;
      reply 250 msg
    else reply 550 "No such directory"
  else if String.eqb cmd "DELE" then
    invoke (CallDelFile args) (del_file args) ;;;
    reply 257 (quoted args " File deleted")
  else if String.eqb cmd "LIST" then
    passive_reply (150%Z, "Sending current directory listing")
      (t <- invoke CallListdir listdir ;; ret (Text t))
      (226%Z, "Sent directory listing")
  else if String.eqb cmd "MKD" || String.eqb cmd "XMKD" then
    invoke (CallMkdir args) (mkdir args) ;;;
    reply 257 (quoted args " Directory created")
  else if String.eqb cmd "NOOP" || String.eqb cmd "noop" then
    reply 200 "NOOP OK"
  else if String.eqb cmd "OPTS" || String.eqb cmd "opts" then
    reply 501 "opts-bad"
  else if String.eqb cmd "PASV" then
    enter_passive
  else if String.eqb cmd "PWD" || String.eqb cmd "XPWD" then
    wd <- invoke CallGetWorkDir get_work_dir ;;
    reply 257 (String dquote wd +:+ String dquote " Is the current dir")
  else if String.eqb cmd "QUIT" then
    reply 221 "OK Bye"
  else if String.eqb cmd "RMD" || String.eqb cmd "XRMD" then
    invoke (CallRmdir args) (rmdir args) ;;;
    reply 250 (quoted args " Directory removed")
  else if String.eqb cmd "RNFR" then
    let from_name := args in
    reply 350 "Ready to rename" ;;;
    line <- read_line ;;
    if negb (str_truthy line) || negb (startswith line "RNTO") then
      raise (Exception "Expecting RNTO command after RNFR")
    else
      ca <- lift (unpack2 (str_split1 " " line)) ;;
      let to_name := Some (snd ca) in
      invoke (CallRenameFile from_name to_name) (rename_file from_name to_name) ;;;
      reply 250 "Renamed file"
  else if String.eqb cmd "RETR" then
    sz <- invoke (CallGetSize args) (get_size args) ;;
    if negb (fst sz) then reply 550 "Not a file"
    else
      passive_reply (150%Z, "Sending binary file " +:+ fmt_opt args)
        (b <- invoke (CallGetFile args) (get_file args) ;; ret (Binary b))
        (226%Z, "File transfer complete")
  else if String.eqb cmd "SIZE" then
    sz <- invoke (CallGetSize args) (get_size args) ;;
    if fst sz then reply 213 (snd sz)
    else reply 550 "Could not get file size"
  else if String.eqb cmd "STOR" then
    let file_name := args in
    passive_read (150%Z, "OK, send data")
      (fun get_chunk h => invoke_save_file file_name get_chunk h)
      (226%Z, "File store complete")
  else if String.eqb cmd "SYST" then
    reply 213 "WIN32"
  else if String.eqb cmd "TYPE" then
    match args with
    | Some a =>
        if str_truthy a && (String.eqb a "I" || String.eqb a "A")
        then reply 200 "OK"
        else reply 501 "Unknown TYPE arg"
    | None => reply 501 "Unknown TYPE arg"
    end
  else if String.eqb cmd "USER" then
    reply 230 "Login successful"
  else
    reply 501 "Unknown cmd".

(** Splitting a line into [cmd] and [args]. *)
Definition parse (line : string) : result (string * option string) :=
  if str_contains_char " " line then
    match unpack2 (str_split1 " " line) with
    | Ok (cmd, args) => Ok (cmd, Some args)
    | Raise e => Raise e
    end
  else Ok (line, None).

(** How an activation of [command_loop] ends: it returns, or an
    exception leaves it. *)
Inductive ending : Type :=
| Returned
| Escaped (e : exn).

(** The statements after the loop; [line] is the last line read. *)
Definition clean_up (line : string) (s : session) : session :=
  let s := match passive_client s with
           | Some h => fst (sock_close h s)
           | None => s
           end in
  if str_truthy line then set_client_closed true s else s.

(** The [try] statement around the chain: any exception of the
    handler is answered with a 500 reply. *)
Definition try_dispatch (cmd : string) (args : option string) : M unit := fun s =>
  match dispatch cmd args s with
  | (s, Ok _) => (s, Ok tt)
  | (s, Raise _) => reply 500 "Error executing cmd" s
  end.

(** The [while True] loop; [None] when the fuel runs out. *)
Fixpoint loop (fuel : nat) (s : session) : option (session * ending) :=
  match fuel with
  | O => None
  | S fuel' =>
      match read_line s with
      | (s, Raise e) => Some (s, Escaped e)
      | (s, Ok line) =>
          if negb (str_truthy line) then Some (clean_up line s, Returned)
          else
            match parse line with
            | Raise e => Some (s, Escaped e)
            | Ok (cmd, args) =>
                match try_dispatch cmd args s with
                | (s, Ok _) => loop fuel' s
                | (s, Raise e) => Some (s, Escaped e)
                end
            end
      end
  end.

(** [Server.command_loop] *)
Definition command_loop (fuel : nat) (s : session) : option (session * ending) :=
  match reply 220 ("Hello, " +:+ SERVER_NAME) s with
  | (s, Ok _) => loop fuel s
  | (s, Raise e) => Some (s, Escaped e)
  end.

(** A fresh session: [client] is what the peer sends on the control
    connection, [net] what happens at each [PASV]. *)
Definition new_session (input : bytes) (p : P) (net : list pasv_outcome) : session :=
  {| client := input; client_closed := false; provider := p;
     passive_client := None; sockets := []; network := net; log := [] |}.

(** Fuel that is always enough for [input]. *)
Definition enough (input : bytes) : nat := S (length input).

(** Data connections that were accepted and not closed. *)
Definition open_channels (s : session) : nat :=
  length (filter (fun k => closed k = false) (sockets s)).

(** A computation [m] stays within a relation [R] on sessions. *)
Definition respects {A} (R : session -> session -> Prop) (m : M A) : Prop :=
  forall s, R s (fst (m s)).

(** The channel [h] has been closed and the session refers to none. *)
Definition channel_done (h : nat) (s : session) : Prop :=
  passive_client s = None
  /\ exists k, sockets s !! h = Some k /\ closed k = true.

(** The channel the session refers to, if any, is an open connection. *)
Definition channel_ok (s : session) : Prop :=
  match passive_client s with
  | Some h => exists k, sockets s !! h = Some k /\ closed k = false
  | None => True
  end.

(** Neither the data connections nor the reference to one have changed. *)
Definition same_channels (s s' : session) : Prop :=
  sockets s' = sockets s /\ passive_client s' = passive_client s.

(** Every data connection that is open is the one the session refers
    to. *)
Definition single_channel (s : session) : Prop :=
  forall h k, sockets s !! h = Some k -> closed k = false -> passive_client s = Some h.

(** The session refers to the same connection, and no connection has
    been opened. *)
Definition keeps (s s' : session) : Prop :=
  passive_client s' = passive_client s
  /\ forall h k', sockets s' !! h = Some k' -> closed k' = false ->
                  exists k, sockets s !! h = Some k /\ closed k = false.


(** The state after [get_size] was called. *)
Definition after_get_size (args : option string) (s : session) : session :=
  set_provider (fst (get_size args (provider s))) (emit (EvCall (CallGetSize args)) s).

End WithProvider.

Global Arguments session P : clear implicits.

End Server.

(** Sequencing of fallible computations. *)
Definition rbind {A B} (r : result A) (k : A -> result B) : result B :=
  match r with
  | Ok a => k a
  | Raise e => Raise e
  end.

Notation "x <~ m ;; k" := (rbind m (fun x => k))
  (at level 200, m at level 99, k at level 200, only parsing).

(* ===================================================================== *)
(** ** The [time] module *)
(* ===================================================================== *)

(** The functions of Python's [time] module that the providers call.
    They are library code and stay abstract; [st_mtime] and the clock are
    whole seconds. *)
Class TimeLib : Type := {
  struct_time : Type;
  gmtime : Z -> struct_time;
  tm_year : struct_time -> Z;
  strftime : string -> struct_time -> string;
  strptime : string -> string -> result struct_time
}.

(* ===================================================================== *)
(** ** The operating system's file API *)
(* ===================================================================== *)

(** A model of the calls [FileSystemProvider] makes into [os], [os.path]
    and the built-in [open].  The file tree is a finite map from the list
    of components of a path to the node found there; there are no links
    and no special files, and every place may be read and written. *)
Module OS.

Inductive node : Type :=
| File (content : bytes) (mtime : Z)
| Directory (size : Z) (mtime : Z).

Record stat_result : Type := { st_size : Z; st_mtime : Z }.

(** [dir_size] is the [st_size] a new directory gets on the platform,
    [cwd] the process's current directory, [clock] the current time. *)
Record t : Type := {
  files : gmap (list string) node;
  cwd : list string;
  clock : Z;
  dir_size : Z
}.

Definition set_files (m : gmap (list string) node) (os : t) : t :=
  {| files := m; cwd := cwd os; clock := clock os; dir_size := dir_size os |}.

Fixpoint split_on (c : ascii) (s : string) : list string :=
  match s with
  | EmptyString => [EmptyString]
  | String a t =>
      if Ascii.eqb a c then EmptyString :: split_on c t
      else match split_on c t with
           | x :: rest => String a x :: rest
           | [] => [String a EmptyString]
           end
  end.

Definition no_such_file : exn := OSError "No such file or directory".
Definition not_a_directory : exn := OSError "Not a directory".
Definition is_a_directory : exn := OSError "Is a directory".

(** One step of the resolution of a path: a component is looked up in
    [cur], which has to be a directory.  An empty component and [.] stay
    there, [..] goes to the parent (the root is its own parent), a name
    goes to the entry of that name, which need not exist. *)
Definition walk (os : t) (cur : list string) (comp : string) : result (list string) :=
  match files os !! cur with
  | Some (Directory _ _) =>
      if String.eqb comp EmptyString || String.eqb comp "." then Ok cur
      else if String.eqb comp ".." then Ok (removelast cur)
      else Ok (cur ++ [comp])
  | Some (File _ _) => Raise not_a_directory
  | None => Raise no_such_file
  end.

Fixpoint walk_all (os : t) (cur : list string) (comps : list string)
  : result (list string) :=
  match comps with
  | [] => Ok cur
  | c :: comps => cur <~ walk os cur c ;; walk_all os cur comps
  end.

(** The components without the empty ones that trailing slashes leave. *)
Fixpoint drop_trailing_empty (l : list string) : list string :=
  match l with
  | [] => []
  | c :: l =>
      match drop_trailing_empty l with
      | [] => if String.eqb c EmptyString then [] else [c]
      | l' => c :: l'
      end
  end.

Fixpoint ends_with_slash (path : string) : bool :=
  match path with
  | EmptyString => false
  | String a EmptyString => Ascii.eqb a "/"
  | String _ t => ends_with_slash t
  end.

(** The last component that is not empty, if any. *)
Definition final_component (path : string) : string :=
  default EmptyString (last (drop_trailing_empty (split_on "/" path))).

(** Path resolution as POSIX does it, on a tree without links: the
    place in the tree a path denotes, which exists or not.  Every
    component is looked up in an existing directory; a path that ends
    with a slash does not denote a file.  The empty path denotes
    nothing. *)
Definition resolve (os : t) (path : string) : result (list string) :=
  match path with
  | EmptyString => Raise no_such_file
  | String a _ =>
      key <~ walk_all os (if Ascii.eqb a "/" then [] else cwd os)
               (drop_trailing_empty (split_on "/" path)) ;;
      if ends_with_slash path then
        match files os !! key with
        | Some (File _ _) => Raise not_a_directory
        | _ => Ok key
        end
      else Ok key
  end.

(** The node a path denotes; the error when there is none. *)
Definition find (os : t) (path : string) : result node :=
  key <~ resolve os path ;;
  match files os !! key with
  | Some n => Ok n
  | None => Raise no_such_file
  end.

Definition node_at (os : t) (path : string) : option node :=
  match find os path with
  | Ok n => Some n
  | Raise _ => None
  end.

(** [os.path.isdir], [os.path.isfile] *)
Definition isdir (os : t) (path : string) : bool :=
  match node_at os path with Some (Directory _ _) => true | _ => false end.
Definition isfile (os : t) (path : string) : bool :=
  match node_at os path with Some (File _ _) => true | _ => false end.

(** [os.stat] *)
Definition stat (os : t) (path : string) : result stat_result :=
  match find os path with
  | Ok (File c m) => Ok {| st_size := Z.of_nat (length c); st_mtime := m |}
  | Ok (Directory sz m) => Ok {| st_size := sz; st_mtime := m |}
  | Raise e => Raise e
  end.

Definition child_of (dir key : list string) : option string :=
  match reverse key with
  | name :: parent => if decide (reverse parent = dir) then Some name else None
  | [] => None
  end.

(** [os.listdir] *)
Definition listdir (os : t) (path : string) : result (list string) :=
  match resolve os path with
  | Ok key =>
      match files os !! key with
      | Some (Directory _ _) =>
          Ok (omap (fun kv => child_of key (fst kv)) (map_to_list (files os)))
      | Some (File _ _) => Raise not_a_directory
      | None => Raise no_such_file
      end
  | Raise e => Raise e
  end.

Definition parent_is_dir (os : t) (key : list string) : bool :=
  match key with
  | [] => false
  | _ => match files os !! removelast key with
         | Some (Directory _ _) => true
         | _ => false
         end
  end.

(** [open(path, 'rb').read()] *)
Definition read_file (os : t) (path : string) : result bytes :=
  match find os path with
  | Ok (File c _) => Ok c
  | Ok (Directory _ _) => Raise is_a_directory
  | Raise e => Raise e
  end.

(** [open(path, 'wb')]: the file is created or truncated; the file
    object is represented by the components it was opened at.  A path
    that ends with a slash cannot be opened for writing. *)
Definition open_wb (os : t) (path : string) : result (list string * t) :=
  match resolve os path with
  | Ok key =>
      match files os !! key with
      | Some (Directory _ _) => Raise is_a_directory
      | _ =>
          if ends_with_slash path then Raise is_a_directory
          else if parent_is_dir os key
          then Ok (key, set_files (<[key := File [] (clock os)]> (files os)) os)
          else Raise no_such_file
      end
  | Raise e => Raise e
  end.

(** [f.write(data)] *)
Definition write (f : list string) (data : bytes) (os : t) : t :=
  match files os !! f with
  | Some (File c m) => set_files (<[f := File (c ++ data) (clock os)]> (files os)) os
  | _ => os
  end.

Definition has_children (os : t) (key : list string) : bool :=
  match omap (fun kv => child_of key (fst kv)) (map_to_list (files os)) with
  | [] => false
  | _ => true
  end.

(** [os.unlink] *)
Definition unlink (os : t) (path : string) : result t :=
  match resolve os path with
  | Ok key =>
      match files os !! key with
      | Some (File _ _) => Ok (set_files (delete key (files os)) os)
      | Some (Directory _ _) => Raise is_a_directory
      | None => Raise no_such_file
      end
  | Raise e => Raise e
  end.

(** [os.mkdir] *)
Definition mkdir (os : t) (path : string) : result t :=
  match resolve os path with
  | Ok key =>
      match files os !! key with
      | Some _ => Raise (OSError "File exists")
      | None =>
          if parent_is_dir os key
          then Ok (set_files (<[key := Directory (dir_size os) (clock os)]> (files os)) os)
          else Raise no_such_file
      end
  | Raise e => Raise e
  end.

(** [os.rmdir] *)
Definition rmdir (os : t) (path : string) : result t :=
  match resolve os path with
  | Ok key =>
      match files os !! key with
      | Some (Directory _ _) =>
          if String.eqb (final_component path) "." then Raise (OSError "Invalid argument")
          else if has_children os key then Raise (OSError "Directory not empty")
          else Ok (set_files (delete key (files os)) os)
      | Some (File _ _) => Raise not_a_directory
      | None => Raise no_such_file
      end
  | Raise e => Raise e
  end.

(** The key [k] moved along with a rename of [src] to [dst]. *)
Definition rekey (src dst k : list string) : list string :=
  if decide (take (length src) k = src) then dst ++ drop (length src) k else k.

(** [os.rename]: the node at the source, with everything below it,
    moves to the destination.  A file may replace a file and a directory
    an empty directory; a path whose last component is [.] or [..] is
    refused, and so is a destination below the source. *)
Definition rename (os : t) (from_path to_path : string) : result t :=
  src <~ resolve os from_path ;;
  dst <~ resolve os to_path ;;
  match files os !! src with
  | None => Raise no_such_file
  | Some n =>
      let dots p := String.eqb (final_component p) "."
                    || String.eqb (final_component p) ".." in
      if dots from_path || dots to_path then Raise (OSError "Device or resource busy")
      else if decide (src = dst) then Ok os
      else
        check <~ match n, files os !! dst with
                 | File _ _, Some (Directory _ _) => Raise is_a_directory
                 | File _ _, _ =>
                     if ends_with_slash to_path then Raise not_a_directory else Ok tt
                 | Directory _ _, Some (File _ _) => Raise not_a_directory
                 | Directory _ _, Some (Directory _ _) =>
                     if has_children os dst then Raise (OSError "Directory not empty")
                     else Ok tt
                 | Directory _ _, None => Ok tt
                 end ;;
        if negb (parent_is_dir os dst) then Raise no_such_file
        else if decide (take (length src) dst = src) then Raise (OSError "Invalid argument")
        else
          Ok (set_files
                (list_to_map
                   (map (fun kv => (rekey src dst (fst kv), snd kv))
                      (map_to_list (delete dst (files os)))))
                os)
  end.

(** There is a directory at [key]. *)
Definition dir_at (os : t) (key : list string) : bool :=
  match files os !! key with Some (Directory _ _) => true | _ => false end.

(** [o'] has the current directory and at least the directories of [o]. *)
Definition extends (o o' : t) : Prop :=
  cwd o' = cwd o /\ forall k, dir_at o k = true -> dir_at o' k = true.

(** The file at [key] holds [content]. *)
Definition holds (o : t) (key : list string) (content : bytes) : Prop :=
  exists m, files o !! key = Some (File content m).

End OS.

(* ===================================================================== *)
(** ** providers/FileSystemProvider.py *)
(* ===================================================================== *)

Module FileSystemProvider.

(** The object's two attributes, together with the file system the
    object acts on. *)
Record t : Type := {
  root_dir : string;
  working_dir : string;
  os : OS.t
}.

Definition set_working_dir (wd : string) (self : t) : t :=
  {| root_dir := root_dir self; working_dir := wd; os := os self |}.
Definition set_os (o : OS.t) (self : t) : t :=
  {| root_dir := root_dir self; working_dir := working_dir self; os := o |}.

(** [__init__] *)
Definition init (root : string) (o : OS.t) : result t :=
  let root := replace root backslash "/" in
  if negb (OS.isdir o root) then Raise (Exception ("Invalid root dir: " +:+ root))
  else Ok {| root_dir := root; working_dir := root; os := o |}.

(** [normalize_path]; [len(None)] is a [TypeError]. *)
Definition normalize_path (self : t) (path : option string) : result string :=
  match path with
  | None => Raise TypeError
  | Some EmptyString => Raise (AssertionError "Empty path")
  | Some (String a _ as path) =>
      let path := if negb (Ascii.eqb a "/")
                  then working_dir self +:+ "/" +:+ path
                  else path in
      Ok (replace (replace (root_dir self +:+ "/" +:+ path) "//" "/") "//" "/")
  end.

Definition get_work_dir (self : t) : t * result string :=
  (self, Ok (working_dir self)).

Definition change_work_dir (new_dir : option string) (self : t) : t * result bool :=
  match normalize_path self new_dir with
  | Raise e => (self, Raise e)
  | Ok new_dir =>
      if OS.isdir (os self) new_dir
      then (set_working_dir ("/" +:+ str_drop (String.length (root_dir self)) new_dir) self,
            Ok true)
      else (self, Ok false)
  end.

Section Listing.
Context `{TimeLib}.

(** One round of the [for] loop of [listdir]: the line for entry [f]. *)
Definition entry_line (self : t) (current_year : Z) (f : string) : result string :=
  f_path <~ normalize_path self (Some f) ;;
  f_stat <~ OS.stat (os self) f_path ;;
  let f_gmtime := gmtime (OS.st_mtime f_stat) in
  let time_str :=
    if (tm_year f_gmtime =? current_year)%Z
    then strftime "%b %e %H:%M" f_gmtime
    else strftime "%b %e %Y" f_gmtime in
  if OS.isdir (os self) f_path
  then Ok ("drwxr-xr-x 2 0 0 " +:+ str_of_Z (OS.st_size f_stat) +:+ " " +:+ time_str
             +:+ " " +:+ f +:+ Server.crlf_str)
  else Ok ("-rw-r--r-- 1 0 0 " +:+ str_of_Z (OS.st_size f_stat) +:+ " " +:+ time_str
             +:+ " " +:+ f +:+ Server.crlf_str).

Fixpoint listdir_loop (self : t) (current_year : Z) (file_list : list string)
    (ret : string) : result string :=
  match file_list with
  | [] => Ok ret
  | f :: file_list =>
      f_str <~ entry_line self current_year f ;;
      listdir_loop self current_year file_list (ret +:+ f_str)
  end.

Definition listdir (self : t) : t * result string :=
  (self,
   d <~ normalize_path self (Some (working_dir self)) ;;
   file_list <~ OS.listdir (os self) d ;;
   let current_year := tm_year (gmtime (OS.clock (os self))) in
   listdir_loop self current_year file_list EmptyString).

End Listing.

Definition get_size (f : option string) (self : t) : t * result (bool * string) :=
  (self,
   f <~ normalize_path self f ;;
   if OS.isfile (os self) f
   then st <~ OS.stat (os self) f ;; Ok (true, str_of_Z (OS.st_size st))
   else Ok (false, EmptyString)).

Definition get_file (f : option string) (self : t) : t * result bytes :=
  (self, f <~ normalize_path self f ;; OS.read_file (os self) f).

Definition chunk_size : N := 1024 * 1024 * 50.

(** The [while data] loop of [save_file]; [None] when the fuel runs out. *)
Fixpoint save_loop {Src} (fuel : nat) (get_file_chunk : chunk_fn Src) (conn : Src)
    (f : list string) (i : nat) (o : OS.t) : option (OS.t * Src) :=
  match fuel with
  | O => None
  | S fuel' =>
      let '(data, conn) := get_file_chunk chunk_size conn in
      match data with
      | [] => Some (o, conn)
      | _ => save_loop fuel' get_file_chunk conn f (S i) (OS.write f data o)
      end
  end.

Definition save_file_fuel {Src} (fuel : nat) (f : option string)
    (get_file_chunk : chunk_fn Src) (conn : Src) (self : t)
  : option (t * Src * result unit) :=
  match normalize_path self f with
  | Raise e => Some (self, conn, Raise e)
  | Ok f =>
      match OS.open_wb (os self) f with
      | Raise e => Some (self, conn, Raise e)
      | Ok (f, o) =>
          match save_loop fuel get_file_chunk conn f 0 o with
          | Some (o, conn) => Some (set_os o self, conn, Ok tt)
          | None => None
          end
      end
  end.

(** [save_file] as the server calls it: the chunk callable reads a
    connection, every non-empty chunk consumes input, and
    [length conn + 1] rounds are enough (lemma [save_file_socket_total]);
    the default is never used. *)
Definition save_file (f : option string) (get_file_chunk : chunk_fn bytes)
    (conn : bytes) (self : t) : t * bytes * result unit :=
  default (self, conn, Raise (Exception "save_file"))
    (save_file_fuel (S (length conn)) f get_file_chunk conn self).

Definition rename_file (from_name to_name : option string) (self : t) : t * result unit :=
  match (a <~ normalize_path self from_name ;;
         b <~ normalize_path self to_name ;;
         OS.rename (os self) a b) with
  | Ok o => (set_os o self, Ok tt)
  | Raise e => (self, Raise e)
  end.

Definition del_file (f : option string) (self : t) : t * result unit :=
  match (f <~ normalize_path self f ;; OS.unlink (os self) f) with
  | Ok o => (set_os o self, Ok tt)
  | Raise e => (self, Raise e)
  end.

Definition mkdir (f : option string) (self : t) : t * result unit :=
  match (f <~ normalize_path self f ;; OS.mkdir (os self) f) with
  | Ok o => (set_os o self, Ok tt)
  | Raise e => (self, Raise e)
  end.

Definition rmdir (f : option string) (self : t) : t * result unit :=
  match (f <~ normalize_path self f ;; OS.rmdir (os self) f) with
  | Ok o => (set_os o self, Ok tt)
  | Raise e => (self, Raise e)
  end.

#[global] Instance provider `{TimeLib} : ProviderBase t := {|
  Provider.get_work_dir := get_work_dir;
  Provider.change_work_dir := change_work_dir;
  Provider.listdir := listdir;
  Provider.get_size := get_size;
  Provider.get_file := get_file;
  Provider.save_file := save_file;
  Provider.rename_file := rename_file;
  Provider.del_file := del_file;
  Provider.mkdir := mkdir;
  Provider.rmdir := rmdir
|}.

(** The two attributes of the object are the same in both states. *)
Definition same_dirs (a b : t) : Prop :=
  root_dir a = root_dir b /\ working_dir a = working_dir b.

(** The working directory starts with a slash. *)
Definition rooted (self : t) : Prop :=
  exists rel, working_dir self = "/" +:+ rel.

End FileSystemProvider.

(* ===================================================================== *)
(** ** providers/DropboxProvider.py: listing *)
(* ===================================================================== *)

Module DropboxProvider.

(** One element of [data['entries']], as decoded from the JSON body.
    Folder entries carry no [client_modified] and no [size]. *)
Record entry : Type := {
  tag : string;
  name : string;
  client_modified : option string;
  size : option Z
}.

Record list_folder_result : Type := {
  has_more : bool;
  entries : list entry
}.

Definition key_error (k : string) : exn := Exception ("KeyError: " +:+ k).

(** [f[k]] *)
Definition item {A} (k : string) (v : option A) : result A :=
  match v with
  | Some a => Ok a
  | None => Raise (key_error k)
  end.

Section Listing.
Context `{TimeLib}.

(** [make_api_request('files/list_folder', {'path': path}, 'POST')]:
    the status code and the decoded body of the response. *)
Variable list_folder : string -> Z * list_folder_result.

(** The current time, for [time.gmtime()]. *)
Variable now : Z.

Definition entry_line (current_year : Z) (f : entry) : result string :=
  tf <~ (if String.eqb (tag f) "folder"
         then Ok (gmtime 0, 0%Z)
         else
           cm <~ item "client_modified" (client_modified f) ;;
           f_gmtime <~ strptime cm "%Y-%m-%dT%H:%M:%SZ" ;;
           f_size <~ item "size" (size f) ;;
           Ok (f_gmtime, f_size)) ;;
  let f_gmtime := fst tf in
  let f_size := snd tf in
  let time_str :=
    if (tm_year f_gmtime =? current_year)%Z
    then strftime "%b %e %H:%M" f_gmtime
    else strftime "%b %e %Y" f_gmtime in
  if String.eqb (tag f) "folder"
  then Ok ("drwxr-xr-x 2 0 0 " +:+ str_of_Z f_size +:+ " " +:+ time_str
             +:+ " " +:+ name f +:+ Server.crlf_str)
  else Ok ("-rw-r--r-- 1 0 0 " +:+ str_of_Z f_size +:+ " " +:+ time_str
             +:+ " " +:+ name f +:+ Server.crlf_str).

Fixpoint listdir_loop (current_year : Z) (l : list entry) (ret : string)
  : result string :=
  match l with
  | [] => Ok ret
  | f :: l =>
      f_str <~ entry_line current_year f ;;
      listdir_loop current_year l (ret +:+ f_str)
  end.

Definition listdir (working_dir : string) : result string :=
  let '(code, data) :=
    list_folder (if String.eqb working_dir "/" then EmptyString else working_dir) in
  if negb (code =? 200)%Z then Raise (Exception "listdir error")
  else
    let current_year := tm_year (gmtime now) in
    listdir_loop current_year (entries data) EmptyString.

End Listing.

End DropboxProvider.

(* ===================================================================== *)
(** ** The format the specification gives for a listing line *)
(* ===================================================================== *)

(** One [ls -l]-style line: permission string, link count, uid 0, gid 0,
    size, time, name, CRLF. *)
Definition ls_line (is_dir : bool) (size : Z) (time_str name : string) : string :=
  (if is_dir then "drwxr-xr-x 2" else "-rw-r--r-- 1") +:+ " 0 0 " +:+ str_of_Z size
    +:+ " " +:+ time_str +:+ " " +:+ name +:+ Server.crlf_str.

(** What a listing line is built from. *)
Record listed : Type := {
  l_is_dir : bool;
  l_size : Z;
  l_time : string;
  l_name : string
}.

Definition listing_of (l : list listed) : string :=
  fold_right (fun e acc => ls_line (l_is_dir e) (l_size e) (l_time e) (l_name e) +:+ acc)
    EmptyString l.

Section ListedEntries.
Context `{TimeLib}.

(** The time column, as both providers print it. *)
Definition time_column (current_year : Z) (t : struct_time) : string :=
  if (tm_year t =? current_year)%Z
  then strftime "%b %e %H:%M" t
  else strftime "%b %e %Y" t.

(** What [FileSystemProvider.listdir] prints for the entry [e]: the name
    resolves to a path that [os.stat] knows, the kind is what
    [os.path.isdir] says and the size is [st_size], for directories too. *)
Definition fs_entry (self : FileSystemProvider.t) (e : listed) : Prop :=
  exists p st,
    FileSystemProvider.normalize_path self (Some (l_name e)) = Ok p
    /\ OS.stat (FileSystemProvider.os self) p = Ok st
    /\ l_is_dir e = OS.isdir (FileSystemProvider.os self) p
    /\ l_size e = OS.st_size st
    /\ l_time e
       = time_column (tm_year (gmtime (OS.clock (FileSystemProvider.os self))))
           (gmtime (OS.st_mtime st)).

(** What [DropboxProvider.listdir] prints for the entry [f]: folders are
    directories of size 0, anything else is a file of the size given. *)
Definition dropbox_entry (current_year : Z) (f : DropboxProvider.entry) (e : listed) : Prop :=
  l_name e = DropboxProvider.name f
  /\ l_is_dir e = String.eqb (DropboxProvider.tag f) "folder"
  /\ (l_is_dir e = true -> l_size e = 0%Z /\ l_time e = time_column current_year (gmtime 0))
  /\ (l_is_dir e = false -> DropboxProvider.size f = Some (l_size e)).

End ListedEntries.

(* ===================================================================== *)
(** ** Concrete environments used by the examples *)
(* ===================================================================== *)

Module Examples.

(** A stand-in for the [time] module: a broken-down time is the number
    of seconds, the year is counted in years of 365 days, and
    [strftime] prints the format followed by the seconds. *)
#[global] Instance toy_time : TimeLib := {|
  struct_time := Z;
  gmtime := fun t => t;
  tm_year := fun t => (1970 + t / 31536000)%Z;
  strftime := fun fmt t => fmt +:+ "@" +:+ str_of_Z t;
  strptime := fun s fmt => Ok 0%Z
|}.

(** A small tree: the root, [/srv], [/srv/pub] (a directory of
    [st_size] 4096) and the file [/srv/a.txt]. *)
Definition disk : OS.t :=
  {| OS.files :=
       <[ ["srv"; "a.txt"] := OS.File (String.list_byte_of_string "hello") 100%Z ]>
       (<[ ["srv"; "pub"] := OS.Directory 4096 200%Z ]>
       (<[ ["srv"] := OS.Directory 4096 50%Z ]>
       (<[ [] := OS.Directory 4096 0%Z ]> ∅)));
     OS.cwd := [];
     OS.clock := 1000%Z;
     OS.dir_size := 4096%Z |}.

(** The provider object [FileSystemProvider('/srv')] on [disk]. *)
Definition srv : FileSystemProvider.t :=
  {| FileSystemProvider.root_dir := "/srv";
     FileSystemProvider.working_dir := "/srv";
     FileSystemProvider.os := disk |}.

(** The same object after a successful [CWD /]. *)
Definition srv_at_root : FileSystemProvider.t :=
  fst (FileSystemProvider.change_work_dir (Some "/") srv).

(** A chunk callable that hands out prepared chunks one by one, and
    empty chunks once they are used up. *)
Definition next_chunk : chunk_fn (list bytes) := fun _ pending =>
  match pending with
  | [] => ([], [])
  | c :: pending => (c, pending)
  end.

(** Command lines as the client sends them. *)
Definition line (s : string) : bytes := String.list_byte_of_string s ++ crlf.

Fixpoint lines (l : list string) : bytes :=
  match l with
  | [] => []
  | s :: l => line s ++ lines l
  end.

End Examples.

(* ===================================================================== *)
(** ** Verbs *)
(* ===================================================================== *)

(** The verbs the [if]/[elif] chain of [command_loop] compares [cmd]
    with, in the order of the chain. *)
Definition recognized_verbs : list string :=
  ["CWD"; "DELE"; "LIST"; "MKD"; "XMKD"; "NOOP"; "noop"; "OPTS"; "opts"; "PASV";
   "PWD"; "XPWD"; "QUIT"; "RMD"; "XRMD"; "RNFR"; "RETR"; "SIZE"; "STOR"; "SYST";
   "TYPE"; "USER"].

(** The verbs of the dispatch table of the specification. *)
Definition dispatch_table_verbs : list string :=
  ["CWD"; "DELE"; "LIST"; "MKD"; "XMKD"; "NOOP"; "OPTS"; "PASV"; "PWD"; "XPWD";
   "QUIT"; "RMD"; "XRMD"; "RNFR"; "RETR"; "SIZE"; "STOR"; "SYST"; "TYPE"; "USER"].

Definition is_verb (table : list string) (cmd : string) : bool :=
  existsb (String.eqb cmd) table.

(* ===================================================================== *)
(** ** Sequences of method calls on a provider object *)
(* ===================================================================== *)

Module Calls.
Import Server.

Section WithTime.
Context `{TimeLib}.

(** The object after one method call; [conn] is the unread input of
    the connection a [save_file] reads its chunks from. *)
Definition perform (c : call) (conn : bytes) (self : FileSystemProvider.t)
  : FileSystemProvider.t :=
  match c with
  | CallGetWorkDir => fst (FileSystemProvider.get_work_dir self)
  | CallChangeWorkDir a => fst (FileSystemProvider.change_work_dir a self)
  | CallListdir => fst (FileSystemProvider.listdir self)
  | CallGetSize a => fst (FileSystemProvider.get_size a self)
  | CallGetFile a => fst (FileSystemProvider.get_file a self)
  | CallSaveFile a =>
      fst (fst (FileSystemProvider.save_file a
                  (fun n c => read_n_till_close c n) conn self))
  | CallRenameFile a b => fst (FileSystemProvider.rename_file a b self)
  | CallDelFile a => fst (FileSystemProvider.del_file a self)
  | CallMkdir a => fst (FileSystemProvider.mkdir a self)
  | CallRmdir a => fst (FileSystemProvider.rmdir a self)
  end.

(** The call is a [change_work_dir] that returns [True]. *)
Definition cwd_succeeds (c : call) (self : FileSystemProvider.t) : bool :=
  match c with
  | CallChangeWorkDir a =>
      match snd (FileSystemProvider.change_work_dir a self) with
      | Ok true => true
      | _ => false
      end
  | _ => false
  end.

Fixpoint perform_all (l : list (call * bytes)) (self : FileSystemProvider.t)
  : FileSystemProvider.t :=
  match l with
  | [] => self
  | (c, conn) :: l => perform_all l (perform c conn self)
  end.



End WithTime.
End Calls.


(* ===================================================================== *)
(** ** ftpserver.py: a data connection whose bytes arrive in segments *)
(* ===================================================================== *)

Module Segments.

(** [client.recv(k)] when the peer's bytes arrive in segments: a call
    returns bytes of the segment at the front only, at most [k] of them.
    Segments are non-empty; when none is left the peer has closed and the
    call returns [b'']. *)
Definition recv (k : N) (segs : list bytes) : bytes * list bytes :=
  match segs with
  | [] => ([], [])
  | seg :: rest =>
      match drop_N k seg with
      | [] => (take_N k seg, rest)
      | unread => (take_N k seg, unread :: rest)
      end
  end.

(** The loop of [Server.read_n_till_close] over such a connection;
    [None] when the fuel runs out. *)
Fixpoint read_n_loop (fuel : nat) (client : list bytes) (n : N) (buf : bytes)
  : option (bytes * list bytes) :=
  match fuel with
  | O => None
  | S fuel' =>
      let '(char, client') := recv (n - N.of_nat (length buf)) client in
      match char with
      | [] => Some (buf, client')
      | _ => read_n_loop fuel' client' n (buf ++ char)
      end
  end.

Definition read_n_till_close (fuel : nat) (client : list bytes) (n : N)
  : option (bytes * list bytes) :=
  read_n_loop fuel client n [].

End Segments.

(** Some reply is among the events. *)
Definition has_reply (evs : list Server.event) : bool :=
  existsb (fun e => match e with Server.EvReply _ _ => true | _ => false end) evs.

(* ===================================================================== *)
(** ** ftpserver.py: the command line *)
(* ===================================================================== *)

(** [parse_args].  A [str] is a sequence of characters below U+0100. *)
Module Args.

(** The two classes a [-provider=] argument can choose. *)
Inductive provider_class : Type :=
| FileSystemProviderClass
| DropboxProviderClass.

(** The three local variables of [parse_args]. *)
Record state : Type := {
  bind_addr : string * Z;
  provider : option provider_class;
  provider_args : option string
}.

Definition initial : state :=
  {| bind_addr := ("0.0.0.0", 8080%Z); provider := None; provider_args := None |}.

(** The characters below U+0100 for which [str.isnumeric] holds: the
    digits, the superscripts one, two and three, and the three vulgar
    fractions. *)
Definition is_decimal_char (c : ascii) : bool :=
  ((48 <=? N_of_ascii c) && (N_of_ascii c <=? 57))%N.

Definition is_numeric_char (c : ascii) : bool :=
  is_decimal_char c
  || existsb (N.eqb (N_of_ascii c)) [178; 179; 185; 188; 189; 190]%N.

(** [s.isnumeric()] *)
Definition isnumeric (s : string) : bool :=
  str_truthy s && forallb is_numeric_char (String.list_ascii_of_string s).

Fixpoint int_go (acc : Z) (s : string) : result Z :=
  match s with
  | EmptyString => Ok acc
  | String c t =>
      if is_decimal_char c
      then int_go (10 * acc + Z.of_N (N_of_ascii c - 48)) t
      else Raise ValueError
  end.

(** [int(s)] for a non-empty [s] of numeric characters: the decimal
    value, or a [ValueError] when a character is not a decimal digit. *)
Definition int (s : string) : result Z :=
  match s with
  | EmptyString => Raise ValueError
  | _ => int_go 0 s
  end.

(** [arg.split('=', 1)[1]] *)
Definition after_equals (arg : string) : result string :=
  match str_split1 "=" arg with
  | [_; v] => Ok v
  | _ => Raise (Exception "IndexError: list index out of range")
  end.

Definition quote (s : string) : string := "'" +:+ s +:+ "'".

(** The body of the [for] loop. *)
Definition parse_arg (st : state) (arg : string) : result state :=
  if startswith arg "-address=" then
    addr <~ after_equals arg ;;
    if negb (str_contains_char ":" addr)
    then Raise (Exception ("Invalid address " +:+ quote addr))
    else
      ip_port <~ unpack2 (str_split1 ":" addr) ;;
      let ip := fst ip_port in
      let port := snd ip_port in
      ok <~ (if isnumeric port
             then n <~ int port ;; Ok ((0 <=? n)%Z && (n <? 2 ^ 16 - 1)%Z)
             else Ok false) ;;
      if negb ok then Raise (Exception ("Invalid port " +:+ quote port))
      else
        port <~ int port ;;
        Ok {| bind_addr := (ip, port); provider := provider st;
              provider_args := provider_args st |}
  else if startswith arg "-provider=" then
    provider_str <~ after_equals arg ;;
    if String.eqb provider_str "fs" then
      Ok {| bind_addr := bind_addr st; provider := Some FileSystemProviderClass;
            provider_args := provider_args st |}
    else if String.eqb provider_str "dropbox" then
      Ok {| bind_addr := bind_addr st; provider := Some DropboxProviderClass;
            provider_args := provider_args st |}
    else Raise (Exception ("Invalid provider " +:+ quote provider_str))
  else if startswith arg "-args=" then
    v <~ after_equals arg ;;
    Ok {| bind_addr := bind_addr st; provider := provider st; provider_args := Some v |}
  else Raise (Exception ("Unknown/invalid arg " +:+ quote arg)).

Fixpoint parse_loop (st : state) (args : list string) : result state :=
  match args with
  | [] => Ok st
  | arg :: args => st <~ parse_arg st arg ;; parse_loop st args
  end.

(** [parse_args]: the address, and the class and the argument the
    returned factory will construct the provider from. *)
Definition parse_args (args : list string)
  : result ((string * Z) * provider_class * string) :=
  if length args =? 0 then Raise (Exception "No args")
  else
    st <~ parse_loop initial args ;;
    match provider st with
    | None => Raise (Exception "Missing provider")
    | Some cls =>
        match provider_args st with
        | None | Some EmptyString => Raise (Exception "Missing provider args")
        | Some a => Ok (bind_addr st, cls, a)
        end
    end.

End Args.

(* ===================================================================== *)
(** ** providers/DropboxProvider.py: paths and the working directory *)
(* ===================================================================== *)

Module Dropbox.

(** The attribute of the object that its methods read and write; the
    token and the opener only go into the HTTP requests. *)
Record t : Type := { working_dir : string }.

(** [DropboxProvider('token')] *)
Definition init : t := {| working_dir := "/" |}.

(** [s.rstrip(c)] for a one-character [c]. *)
Fixpoint rstrip (c : ascii) (s : string) : string :=
  match s with
  | EmptyString => EmptyString
  | String a t =>
      match rstrip c t with
      | EmptyString => if Ascii.eqb a c then EmptyString else String a EmptyString
      | t' => String a t'
      end
  end.

(** [normalize_path] *)
Definition normalize_path (self : t) (path : option string) : result string :=
  match path with
  | None => Raise TypeError
  | Some EmptyString => Raise (AssertionError "Empty path")
  | Some (String a _ as path) =>
      let path := if negb (Ascii.eqb a "/")
                  then working_dir self +:+ "/" +:+ path
                  else path in
      let ret := replace path "//" "/" in
      Ok (if String.eqb ret "/" then ret else rstrip "/" ret)
  end.

(** [make_api_request('files/get_metadata', {'path': p}, 'POST')] as the
    service answers at the time of the call: the status code, and what
    [json.loads(data)['.tag']] gives for the body (an exception when the
    body is no JSON object or has no such key). *)
Definition metadata_api : Type := string -> Z * result string.

Definition change_work_dir (api : metadata_api) (new_dir : option string) (self : t)
  : t * result bool :=
  match normalize_path self new_dir with
  | Raise e => (self, Raise e)
  | Ok new_dir =>
      if String.eqb new_dir "/" then (self, Ok true)
      else
        let '(code, tag) := api new_dir in
        if negb (code =? 200)%Z then (self, Ok false)
        else
          match tag with
          | Raise e => (self, Raise e)
          | Ok tag =>
              if String.eqb tag "folder"
              then ({| working_dir := new_dir |}, Ok true)
              else (self, Ok false)
          end
  end.

(** A sequence of [change_work_dir] calls, each with the argument and
    with the answers the service gives at that time. *)
Fixpoint change_all (l : list (metadata_api * option string)) (self : t) : t :=
  match l with
  | [] => self
  | (api, a) :: l => change_all l (fst (change_work_dir api a self))
  end.

(** Requests of an upload session. *)
Inductive request : Type :=
| UploadStart
| UploadAppend (session_id : string) (offset : Z) (data : bytes)
| UploadFinish (session_id : string) (offset : Z) (path : string).

(** [make_content_request] for the three upload calls: the status code
    and, for a start, what [json.loads(data)['session_id']] gives for the
    body.  The answer may depend on the requests made before. *)
Definition content_api : Type := list request -> request -> Z * result string.

Definition upload_chunk_size : N := 1024 * 1024 * 10.

(** The [while f_bytes] loop of [save_file]: the result is the final
    [f_len] or the exception, the source's state and the requests made;
    [None] when the fuel runs out.  The messages of the exceptions are
    given without the status code and the body the source appends. *)
Fixpoint upload_loop {Src} (api : content_api) (fuel : nat)
    (get_file_chunk : chunk_fn Src) (conn : Src) (session_id : string)
    (i : Z) (f_len : Z) (sent : list request)
  : option (result Z * Src * list request) :=
  match fuel with
  | O => None
  | S fuel' =>
      let '(f_bytes, conn) := get_file_chunk upload_chunk_size conn in
      let f_len := (f_len + Z.of_nat (length f_bytes))%Z in
      match f_bytes with
      | [] => Some (Ok f_len, conn, sent)
      | _ =>
          let req := UploadAppend session_id (i * Z.of_N upload_chunk_size) f_bytes in
          if negb (fst (api sent req) =? 200)%Z
          then Some (Raise (Exception "save_file append error"), conn, sent ++ [req])
          else upload_loop api fuel' get_file_chunk conn session_id (i + 1) f_len
                 (sent ++ [req])
      end
  end.

(** [save_file]: the exception, if any, the source's state and the
    requests made, in order. *)
Definition save_file {Src} (api : content_api) (fuel : nat) (f : option string)
    (get_file_chunk : chunk_fn Src) (conn : Src) (self : t)
  : option (result unit * Src * list request) :=
  match normalize_path self f with
  | Raise e => Some (Raise e, conn, [])
  | Ok f =>
      let '(code, session_id) := api [] UploadStart in
      if negb (code =? 200)%Z
      then Some (Raise (Exception "save_file start error"), conn, [UploadStart])
      else
        match session_id with
        | Raise e => Some (Raise e, conn, [UploadStart])
        | Ok session_id =>
            match upload_loop api fuel get_file_chunk conn session_id 0 0 [UploadStart] with
            | None => None
            | Some (Raise e, conn, sent) => Some (Raise e, conn, sent)
            | Some (Ok f_len, conn, sent) =>
                let req := UploadFinish session_id f_len f in
                if negb (fst (api sent req) =? 200)%Z
                then Some (Raise (Exception "save_file finish error"), conn,
                           sent ++ [req])
                else Some (Ok tt, conn, sent ++ [req])
            end
        end
  end.

(** The bytes of the [append] requests, in order. *)
Fixpoint uploaded (l : list request) : bytes :=
  match l with
  | [] => []
  | UploadAppend _ _ d :: l => d ++ uploaded l
  | _ :: l => uploaded l
  end.

(** Every [append] and [finish] request carries as offset the number of
    bytes appended before it. *)
Fixpoint offsets_agree (before : Z) (l : list request) : Prop :=
  match l with
  | [] => True
  | UploadStart :: l => offsets_agree before l
  | UploadAppend _ off d :: l =>
      off = before /\ offsets_agree (before + Z.of_nat (length d)) l
  | UploadFinish _ off _ :: l => off = before /\ offsets_agree before l
  end.

End Dropbox.

(** A command line as the protocol writes it: the verb, and after one
    space the argument when there is one. *)
Definition command_line (cmd : string) (args : option string) : string :=
  match args with
  | Some a => cmd +:+ " " +:+ a
  | None => cmd
  end.

(** The log of [s'] is the log of [s] with events added at its end. *)
Definition log_extends {P : Type} (s s' : Server.session P) : Prop :=
  exists evs, Server.log s' = Server.log s ++ evs.

(** Whenever [m] completes without an exception it has sent a reply. *)
Definition answers {P : Type} {A : Type} (m : @Server.M P A) : Prop :=
  forall s, exists evs,
    Server.log (fst (m s)) = Server.log s ++ evs
    /\ (is_ok (snd (m s)) = true -> has_reply evs = true).


(* ===================================================================== *)
(** * Properties *)
(* ===================================================================== *)

(** ** The line reader *)

Section ReaderFacts.

Lemma has_crlf_cons_false a l :
  has_crlf (a :: l) = false ->
  has_crlf l = false /\ (a = CR -> hd_error l <> Some LF).
Proof.
  destruct l as [|b l]; cbn [has_crlf].
  - intros _. split; [reflexivity | intros _; discriminate].
  - intros Hf. apply orb_false_iff in Hf as [Hab Hl]. split; [exact Hl|].
    intros -> Hb. cbn in Hb. injection Hb as ->. discriminate Hab.
Qed.

Lemma byte_eqb_eq a b : Byte.eqb a b = true <-> a = b.
Proof. split; [apply Byte.byte_dec_bl | apply Byte.byte_dec_lb]. Qed.

Lemma below_limit (buf : bytes) n :
  length buf + n + 1 <= max_buf_len -> (max_buf_len <? length buf) = false.
Proof. intros. apply Nat.ltb_ge. lia. Qed.

(** A complete line that fits is returned whole, terminator included. *)
Lemma read_loop_line content : forall buf prv rest,
  has_crlf content = false ->
  (prv = true -> hd_error content <> Some LF) ->
  length buf + length content + 1 <= max_buf_len ->
  read_loop (content ++ CR :: LF :: rest) buf prv
  = (Ok (buf ++ content ++ [CR; LF]), rest).
Proof.
  induction content as [|c t IH]; intros buf prv rest Hfree Hprv Hlen.
  - cbn [app read_loop]. rewrite (below_limit buf 0) by (cbn in Hlen; lia).
    change (Byte.eqb CR CR) with true. cbn [read_loop].
    assert ((max_buf_len <? length (buf ++ [CR])) = false) as ->.
    { apply Nat.ltb_ge. rewrite length_app. cbn in *. lia. }
    change (Byte.eqb LF CR) with false.
    change (Byte.eqb LF LF) with true.
    cbn [andb]. now rewrite <- app_assoc.
  - apply has_crlf_cons_false in Hfree as [Hfree Hnext].
    change ((c :: t) ++ CR :: LF :: rest) with (c :: (t ++ CR :: LF :: rest)).
    cbn [read_loop]. rewrite (below_limit buf (length t)) by (cbn in Hlen; lia).
    destruct (Byte.eqb c CR) eqn:Hc.
    + apply byte_eqb_eq in Hc. rewrite IH.
      * f_equal. now rewrite <- app_assoc.
      * exact Hfree.
      * intros _. now apply Hnext.
      * rewrite length_app. cbn in *. lia.
    + assert (prv && Byte.eqb c LF = false) as ->.
      { destruct prv; [|reflexivity]. cbn. destruct (Byte.eqb c LF) eqn:Hl; [|reflexivity].
        apply byte_eqb_eq in Hl. subst c. exfalso. now apply Hprv. }
      rewrite IH.
      * f_equal. now rewrite <- app_assoc.
      * exact Hfree.
      * intros [=].
      * rewrite length_app. cbn in *. lia.
Qed.

(** With 1001 bytes buffered and no line completed, one more byte raises
    the length-ceiling error. *)
Lemma read_loop_overflow pre : forall buf prv b rest,
  has_crlf pre = false ->
  (prv = true -> hd_error pre <> Some LF) ->
  length buf + length pre = S max_buf_len ->
  read_loop (pre ++ b :: rest) buf prv = (Raise limit_error, rest).
Proof.
  induction pre as [|c t IH]; intros buf prv b rest Hfree Hprv Hlen.
  - cbn [app read_loop].
    assert ((max_buf_len <? length buf) = true) as ->; [|reflexivity].
    apply Nat.ltb_lt. cbn in Hlen. lia.
  - apply has_crlf_cons_false in Hfree as [Hfree Hnext].
    change ((c :: t) ++ b :: rest) with (c :: (t ++ b :: rest)).
    cbn [read_loop].
    assert ((max_buf_len <? length buf) = false) as ->.
    { apply Nat.ltb_ge. cbn in Hlen. lia. }
    destruct (Byte.eqb c CR) eqn:Hc.
    + apply byte_eqb_eq in Hc. apply IH; [exact Hfree|intros _; now apply Hnext|].
      rewrite length_app. cbn in *. lia.
    + assert (prv && Byte.eqb c LF = false) as ->.
      { destruct prv; [|reflexivity]. cbn. destruct (Byte.eqb c LF) eqn:Hl; [|reflexivity].
        apply byte_eqb_eq in Hl. subst c. exfalso. now apply Hprv. }
      apply IH; [exact Hfree|intros [=]|]. rewrite length_app. cbn in *. lia.
Qed.

(** The length-ceiling error is raised only with more than
    [max_buf_len] bytes in the buffer. *)
Lemma read_loop_limit client : forall buf prv rest,
  read_loop client buf prv = (Raise limit_error, rest) ->
  exists pre b, client = pre ++ b :: rest /\ max_buf_len < length buf + length pre.
Proof.
  induction client as [|c t IH]; intros buf prv rest.
  - cbn [read_loop]. destruct (negb (length buf =? 0)); intros [=].
  - cbn [read_loop]. destruct (max_buf_len <? length buf) eqn:Hlim.
    + intros [= <-]. exists [], c. split; [reflexivity|].
      apply Nat.ltb_lt in Hlim. cbn. lia.
    + assert (forall p, read_loop t (buf ++ [c]) p = (Raise limit_error, rest) ->
                exists pre b, c :: t = pre ++ b :: rest
                              /\ max_buf_len < length buf + length pre) as Hrec.
      { intros p Hp. apply IH in Hp as (pre & b & -> & Hl).
        exists (c :: pre), b. split; [reflexivity|].
        rewrite length_app in Hl. cbn in *. lia. }
      destruct (Byte.eqb c CR); [apply Hrec|].
      destruct (prv && Byte.eqb c LF); [intros [=]|apply Hrec].
Qed.

(** Reading never yields more unread input than there was, and consumes
    at least one byte when there is any. *)
Lemma read_loop_consumes client : forall buf prv r rest,
  read_loop client buf prv = (r, rest) ->
  length rest <= length client /\ (client <> [] -> length rest < length client).
Proof.
  induction client as [|c t IH]; intros buf prv r rest.
  - cbn [read_loop]. destruct (negb (length buf =? 0)); intros [= <- <-]; split; done.
  - cbn [read_loop].
    assert (forall p, read_loop t (buf ++ [c]) p = (r, rest) ->
              length rest <= length (c :: t)
              /\ (c :: t <> [] -> length rest < length (c :: t))) as Hrec.
    { intros p Hp. apply IH in Hp as [Hle _]. cbn. split; [lia | intros _; lia]. }
    destruct (max_buf_len <? length buf).
    { intros [= <- <-]. cbn. split; [lia | intros _; lia]. }
    destruct (Byte.eqb c CR); [apply Hrec|].
    destruct (prv && Byte.eqb c LF); [|apply Hrec].
    intros [= <- <-]. cbn. split; [lia | intros _; lia].
Qed.

Lemma read_till_crlf_consumes client r rest :
  read_till_crlf client = (r, rest) ->
  length rest <= length client /\ (client <> [] -> length rest < length client).
Proof.
  unfold read_till_crlf. destruct (read_loop client [] false) as [res rest'] eqn:Hl.
  apply read_loop_consumes in Hl.
  destruct res; intros [= <- <-]; exact Hl.
Qed.

(** At end of input the reader gives the empty line. *)
Lemma read_till_crlf_eof : read_till_crlf [] = (Ok EmptyString, []).
Proof. reflexivity. Qed.

Lemma slice_to_minus2_line (content : bytes) :
  slice_to_minus2 (content ++ [CR; LF]) = content.
Proof.
  unfold slice_to_minus2. rewrite length_app. cbn [length].
  replace (length content + 2 - 2) with (length content) by lia.
  rewrite firstn_app, Nat.sub_diag, firstn_all. cbn. apply app_nil_r.
Qed.

(** [read_till_crlf] on a line that fits. *)
Lemma read_till_crlf_fits content rest :
  has_crlf content = false ->
  length content < max_buf_len ->
  read_till_crlf (content ++ crlf ++ rest) = (decode_ascii content, rest).
Proof.
  intros Hfree Hlen. unfold read_till_crlf, crlf.
  change (content ++ [CR; LF] ++ rest) with (content ++ CR :: LF :: rest).
  rewrite read_loop_line; [|exact Hfree|intros [=]|cbn; lia].
  cbn [app]. now rewrite slice_to_minus2_line.
Qed.

(** [read_till_crlf] on a line that is too long. *)
Lemma read_till_crlf_too_long pre b rest :
  has_crlf pre = false ->
  length pre = S max_buf_len ->
  read_till_crlf (pre ++ b :: rest) = (Raise limit_error, rest).
Proof.
  intros Hfree Hlen. unfold read_till_crlf.
  rewrite read_loop_overflow; [reflexivity|exact Hfree|intros [=]|cbn; lia].
Qed.

End ReaderFacts.

(** ** The command loop *)

Section LoopFacts.
Import Provider Server.
Context {P : Type} `{ProviderBase P}.

#[local] Abbreviation session := (Server.session P).
#[local] Abbreviation M := (@Server.M P).

Section Frame.
Variable R : session -> session -> Prop.
Hypothesis R_refl : forall s, R s s.
Hypothesis R_trans : forall s1 s2 s3, R s1 s2 -> R s2 s3 -> R s1 s3.
Hypothesis R_emit : forall e s, is_reply 500 e = false -> R s (emit e s).
Hypothesis R_provider : forall p s, R s (set_provider p s).
Hypothesis R_sockets : forall l s, R s (set_sockets l s).
Hypothesis R_network : forall n s, R s (set_network n s).
Hypothesis R_client : forall c s,
  length c <= length (client s) -> R s (set_client c s).
Hypothesis R_clear : forall s, R s (set_passive_client None s).

Lemma respects_ret {A} (a : A) : respects R (ret a).
Proof. intros s. apply R_refl. Qed.

Lemma respects_raise {A} e : respects R (@raise P A e).
Proof. intros s. apply R_refl. Qed.

Lemma respects_lift {A} (r : result A) : respects R (lift r).
Proof. intros s. apply R_refl. Qed.

Lemma respects_bind {A B} (m : M A) (k : A -> M B) :
  respects R m -> (forall a, respects R (k a)) -> respects R (bind m k).
Proof.
  intros Hm Hk s. unfold bind. specialize (Hm s).
  destruct (m s) as [s' [a|e]]; cbn in *; [|exact Hm].
  eapply R_trans; [exact Hm | apply Hk].
Qed.

Lemma respects_reply st data :
  (st =? 500)%Z = false -> respects R (reply st data).
Proof.
  intros Hst s. unfold reply. destruct (encode_ascii _); cbn; [|apply R_refl].
  apply R_emit. exact Hst.
Qed.

Lemma respects_invoke {A} c (m : P -> P * result A) : respects R (invoke c m).
Proof.
  intros s. unfold invoke. cbn [provider emit].
  destruct (m (provider s)) as [p r]. cbn [fst].
  eapply R_trans; [apply (R_emit (EvCall c)); reflexivity | apply R_provider].
Qed.

Lemma respects_sock_send h d : respects R (sock_send h d).
Proof.
  intros s. unfold sock_send. destruct (sockets s !! h) as [k|]; [|apply R_refl].
  destruct (closed k); cbn [fst]; [apply R_refl|].
  eapply R_trans; [apply R_sockets | apply R_emit; reflexivity].
Qed.

Lemma respects_sock_close h : respects R (sock_close h).
Proof.
  intros s. unfold sock_close. destruct (sockets s !! h) as [k|]; [|apply R_refl].
  cbn [fst]. eapply R_trans; [apply R_sockets | apply R_emit; reflexivity].
Qed.

Lemma respects_clear : respects R (fun s => (set_passive_client None s, Ok tt)).
Proof. intros s. apply R_clear. Qed.

Lemma respects_invoke_save_file f g h : respects R (invoke_save_file f g h).
Proof.
  intros s. unfold invoke_save_file.
  destruct (sockets s !! h) as [k|]; [|apply R_emit; reflexivity].
  destruct (closed k); cbn [fst]; [apply R_emit; reflexivity|].
  cbn [provider emit].
  destruct (save_file f g (incoming k) (provider s)) as [[p rest] r]. cbn [fst].
  eapply R_trans; [apply (R_emit (EvCall (CallSaveFile f))); reflexivity|].
  eapply R_trans; [apply R_sockets | apply R_provider].
Qed.

Lemma respects_read_line : respects R read_line.
Proof.
  intros s. unfold read_line.
  destruct (read_till_crlf (client s)) as [r rest] eqn:Hr. cbn [fst].
  apply R_client. now apply read_till_crlf_consumes in Hr as [? _].
Qed.

Lemma respects_passive_reply b (data : M payload) a :
  (fst b =? 500)%Z = false -> (fst a =? 500)%Z = false ->
  respects R data -> respects R (passive_reply b data a).
Proof.
  intros Hb Ha Hd s. unfold passive_reply.
  destruct (passive_client s) as [h|]; [|now apply respects_reply].
  revert s.
  repeat first
    [ apply respects_bind; [|intros ?]
    | apply respects_reply; assumption
    | apply respects_lift | apply respects_sock_send | apply respects_sock_close
    | apply respects_clear | exact Hd ].
Qed.

Lemma respects_passive_read b (handle : chunk_fn bytes -> nat -> M unit) a :
  (fst b =? 500)%Z = false -> (fst a =? 500)%Z = false ->
  (forall g h, respects R (handle g h)) -> respects R (passive_read b handle a).
Proof.
  intros Hb Ha Hd s. unfold passive_read.
  destruct (passive_client s) as [h|]; [|now apply respects_reply].
  revert s. cbn zeta.
  repeat first
    [ apply respects_bind; [|intros ?]
    | apply respects_reply; assumption
    | apply respects_sock_close | apply respects_clear | apply Hd ].
Qed.

Ltac respects_step :=
  first
    [ apply respects_bind; [|intros ?]
    | apply respects_reply; reflexivity
    | apply respects_invoke | apply respects_lift | apply respects_ret
    | apply respects_raise | apply respects_read_line
    | apply respects_invoke_save_file
    | apply respects_passive_reply; [reflexivity|reflexivity|]
    | apply respects_passive_read; [reflexivity|reflexivity|intros ? ?]
    | match goal with
      | |- respects _ (if ?b then _ else _) => destruct b
      | |- respects _ (match ?x with _ => _ end) => destruct x
      end ].

(** Every handler but [PASV] stays within [R]. *)
Lemma respects_dispatch_but_pasv cmd args :
  String.eqb cmd "PASV" = false -> respects R (dispatch cmd args).
Proof.
  intros Hpasv. unfold dispatch. rewrite Hpasv. cbn zeta.
  repeat respects_step.
Qed.

(** The handlers that use no data channel need less of [R]. *)
Lemma respects_dispatch_plain cmd args :
  String.eqb cmd "PASV" = false -> String.eqb cmd "LIST" = false ->
  String.eqb cmd "RETR" = false -> String.eqb cmd "STOR" = false ->
  respects R (dispatch cmd args).
Proof.
  intros Hpasv Hlist Hretr Hstor. unfold dispatch.
  rewrite Hpasv, Hlist, Hretr, Hstor. cbv beta iota zeta.
  repeat respects_step.
Qed.

Hypothesis R_assign : forall h s, R s (set_passive_client (Some h) s).

Lemma respects_enter_passive : respects R enter_passive.
Proof.
  intros s. unfold enter_passive.
  destruct (network s) as [|[|ip port|ip port d] net]; cbn [fst tail];
    try apply R_network.
  - eapply R_trans; [apply (R_network net)|].
    refine (respects_bind _ _ _ _ _);
      [apply respects_reply; reflexivity | intros _; apply respects_raise].
  - eapply R_trans; [apply (R_network net)|].
    refine (respects_bind _ _ _ _ _); [apply respects_reply; reflexivity|].
    intros _ s'. cbn [fst].
    eapply R_trans; [apply R_sockets|].
    eapply R_trans; [apply R_assign|].
    apply R_emit. reflexivity.
Qed.

Lemma respects_dispatch cmd args : respects R (dispatch cmd args).
Proof.
  destruct (String.eqb cmd "PASV") eqn:Hpasv.
  - apply String.eqb_eq in Hpasv as ->. apply respects_enter_passive.
  - now apply respects_dispatch_but_pasv.
Qed.

End Frame.

End LoopFacts.

Section LoopSteps.
Import Provider Server.
Context {P : Type} `{ProviderBase P}.

#[local] Abbreviation session := (Server.session P).

Lemma reply_500 (s : session) :
  reply 500 "Error executing cmd" s
  = (emit (EvReply 500 "Error executing cmd") s, Ok tt).
Proof. reflexivity. Qed.

Lemma reply_425 (s : session) :
  reply 425 "Enter passive mode first" s
  = (emit (EvReply 425 "Enter passive mode first") s, Ok tt).
Proof. reflexivity. Qed.

Lemma reply_501 (s : session) :
  reply 501 "Unknown cmd" s = (emit (EvReply 501 "Unknown cmd") s, Ok tt).
Proof. reflexivity. Qed.

(** The [try] statement never lets an exception of the handler out. *)
Lemma try_dispatch_eq cmd args (s : session) :
  try_dispatch cmd args s
  = match dispatch cmd args s with
    | (s', Ok _) => (s', Ok tt)
    | (s', Raise _) => (emit (EvReply 500 "Error executing cmd") s', Ok tt)
    end.
Proof. unfold try_dispatch. destruct (dispatch cmd args s) as [s' [[]|e]]; reflexivity. Qed.

(** No handler puts input back on the control connection. *)
Lemma dispatch_client_le cmd args (s : session) :
  length (client (fst (dispatch cmd args s))) <= length (client s).
Proof.
  apply (respects_dispatch (fun s s' => length (client s') <= length (client s)));
    cbn; intros; lia.
Qed.

(** What a handler adds to the log contains no 500 reply. *)
Lemma dispatch_log cmd args (s : session) :
  exists evs, log (fst (dispatch cmd args s)) = log s ++ evs
              /\ Forall (fun ev => is_reply 500 ev = false) evs.
Proof.
  apply (respects_dispatch
           (fun s s' => exists evs, log s' = log s ++ evs
                                    /\ Forall (fun ev => is_reply 500 ev = false) evs)).
  - intros s0. exists []. split; [now rewrite app_nil_r | constructor].
  - intros s1 s2 s3 (e1 & -> & F1) (e2 & -> & F2). exists (e1 ++ e2).
    split; [now rewrite app_assoc | now apply Forall_app].
  - intros e s0 He. exists [e]. split; [reflexivity | now constructor].
  - intros p s0. exists []. split; [cbn; now rewrite app_nil_r | constructor].
  - intros l s0. exists []. split; [cbn; now rewrite app_nil_r | constructor].
  - intros n s0. exists []. split; [cbn; now rewrite app_nil_r | constructor].
  - intros c s0 _. exists []. split; [cbn; now rewrite app_nil_r | constructor].
  - intros s0. exists []. split; [cbn; now rewrite app_nil_r | constructor].
  - intros h s0. exists []. split; [cbn; now rewrite app_nil_r | constructor].
Qed.

(** Only [PASV] makes the session refer to a data channel. *)
Lemma dispatch_keeps_none cmd args (s : session) :
  String.eqb cmd "PASV" = false ->
  passive_client s = None ->
  passive_client (fst (dispatch cmd args s)) = None.
Proof.
  intros Hcmd.
  apply (respects_dispatch_but_pasv
           (fun s s' => passive_client s = None -> passive_client s' = None));
    cbn; auto.
Qed.

(** One round of the loop on a non-empty line. *)
Lemma loop_step fuel (s : session) line rest cmd args :
  read_till_crlf (client s) = (Ok line, rest) ->
  str_truthy line = true ->
  parse line = Ok (cmd, args) ->
  loop (S fuel) s = loop fuel (fst (try_dispatch cmd args (set_client rest s))).
Proof.
  intros Hread Hline Hparse. cbn [loop]. unfold read_line. rewrite Hread, Hline.
  cbn [negb]. rewrite Hparse, try_dispatch_eq.
  destruct (dispatch cmd args (set_client rest s)) as [s' [[]|e]]; reflexivity.
Qed.

Lemma parse_total line : exists cmd args, parse line = Ok (cmd, args).
Proof.
  unfold parse. destruct (str_contains_char " " line) eqn:Hc; [|eauto].
  assert (exists a b, str_split1 " " line = [a; b]) as (a & b & ->); [|cbn; eauto].
  induction line as [|c t IH]; [discriminate|].
  cbn in Hc |- *. destruct (Ascii.eqb c " "); [eauto|].
  destruct (IH Hc) as (a & b & ->). eauto.
Qed.

Lemma read_truthy_nonempty client line rest :
  read_till_crlf client = (Ok line, rest) -> str_truthy line = true -> client <> [].
Proof. intros Hread Hline ->. rewrite read_till_crlf_eof in Hread. now injection Hread as <- _. Qed.

(** The loop ends whenever the fuel exceeds the unread input. *)
Lemma loop_total fuel : forall s : session,
  length (client s) < fuel -> exists r, loop fuel s = Some r.
Proof.
  induction fuel as [|fuel IH]; intros s Hlen; [lia|].
  destruct (read_till_crlf (client s)) as [[line|e] rest] eqn:Hread.
  - destruct (str_truthy line) eqn:Hline.
    + destruct (parse_total line) as (cmd & args & Hparse).
      rewrite (loop_step _ _ _ _ _ _ Hread Hline Hparse). apply IH.
      rewrite try_dispatch_eq.
      pose proof (dispatch_client_le cmd args (set_client rest s)) as Hle.
      pose proof (read_truthy_nonempty _ _ _ Hread Hline) as Hne.
      apply read_till_crlf_consumes in Hread as [_ Hlt]. specialize (Hlt Hne).
      destruct (dispatch cmd args (set_client rest s)) as [s' [[]|e]];
        cbn in Hle |- *; lia.
    + cbn [loop]. unfold read_line. rewrite Hread, Hline. cbn. eauto.
  - cbn [loop]. unfold read_line. rewrite Hread. eauto.
Qed.


(** The [RNFR] handler. *)
(** The log only grows. *)
Lemma try_dispatch_log cmd args (s : session) :
  exists evs, log (fst (try_dispatch cmd args s)) = log s ++ evs.
Proof.
  rewrite try_dispatch_eq. destruct (dispatch_log cmd args s) as (evs & Hlog & _).
  destruct (dispatch cmd args s) as [s1 [[]|e]]; cbn [fst] in *; [eauto|].
  exists (evs ++ [EvReply 500 "Error executing cmd"]). cbn. now rewrite Hlog, app_assoc.
Qed.

Lemma clean_up_log line (s : session) :
  exists evs, log (clean_up line s) = log s ++ evs.
Proof.
  unfold clean_up.
  assert (exists evs,
             log (match passive_client s with
                  | Some h => fst (sock_close h s)
                  | None => s
                  end) = log s ++ evs) as [evs Hlog].
  { destruct (passive_client s) as [h|]; [|exists []; now rewrite app_nil_r].
    unfold sock_close. destruct (sockets s !! h); cbn; [eauto|].
    exists []. now rewrite app_nil_r. }
  exists evs. now destruct (str_truthy line).
Qed.

Lemma loop_log fuel : forall (s s' : session) e,
  loop fuel s = Some (s', e) -> exists evs, log s' = log s ++ evs.
Proof.
  induction fuel as [|fuel IH]; intros s s' e; [discriminate|].
  cbn [loop]. unfold read_line.
  destruct (read_till_crlf (client s)) as [[line|x] rest].
  - destruct (str_truthy line); cbn [negb].
    + destruct (parse line) as [[cmd args]|x];
        [|intros [= <- <-]; exists []; cbn; now rewrite app_nil_r].
      destruct (try_dispatch_log cmd args (set_client rest s)) as [e1 H1].
      destruct (try_dispatch cmd args (set_client rest s)) as [s1 [[]|x]]; cbn [fst] in H1.
      * intros Hl. destruct (IH _ _ _ Hl) as [e2 H2]. exists (e1 ++ e2).
        rewrite H2, H1. cbn. now rewrite app_assoc.
      * intros [= <- <-]. exists e1. exact H1.
    + intros [= <- <-]. apply (clean_up_log line (set_client rest s)).
  - intros [= <- <-]. exists []. cbn. now rewrite app_nil_r.
Qed.

(** With fuel for the unread input, a command line is run and the loop
    goes on to its end from the state the command leaves. *)
Lemma loop_runs_command fuel (s : session) line rest cmd args :
  read_till_crlf (client s) = (Ok line, rest) ->
  str_truthy line = true ->
  parse line = Ok (cmd, args) ->
  length (client s) <= fuel ->
  exists s' ending later,
    loop (S fuel) s = Some (s', ending)
    /\ loop fuel (fst (try_dispatch cmd args (set_client rest s))) = Some (s', ending)
    /\ log s' = log (fst (try_dispatch cmd args (set_client rest s))) ++ later.
Proof.
  intros Hread Hline Hparse Hfuel.
  rewrite (loop_step _ _ _ _ _ _ Hread Hline Hparse).
  destruct (loop_total fuel (fst (try_dispatch cmd args (set_client rest s))))
    as [[s' ending] Hrun].
  { rewrite try_dispatch_eq.
    pose proof (dispatch_client_le cmd args (set_client rest s)) as Hle.
    pose proof (read_truthy_nonempty _ _ _ Hread Hline) as Hne.
    apply read_till_crlf_consumes in Hread as [_ Hlt]. specialize (Hlt Hne).
    destruct (dispatch cmd args (set_client rest s)) as [s1 [[]|e]];
      cbn in Hle |- *; lia. }
  destruct (loop_log _ _ _ _ Hrun) as [later Hlater].
  exists s', ending, later. auto.
Qed.

Lemma dispatch_RNFR from_name :
  dispatch (P := P) "RNFR" from_name
  = bind (reply 350 "Ready to rename") (fun _ =>
      bind read_line (fun line =>
        if negb (str_truthy line) || negb (startswith line "RNTO")
        then raise (Exception "Expecting RNTO command after RNFR")
        else bind (lift (unpack2 (str_split1 " " line))) (fun ca =>
               bind (invoke (CallRenameFile from_name (Some (snd ca)))
                       (rename_file from_name (Some (snd ca))))
                 (fun _ => reply 250 "Renamed file")))).
Proof. reflexivity. Qed.

Lemma rnfr_reads_next_line from_name (s : session) r rest :
  read_till_crlf (client s) = (r, rest) ->
  dispatch "RNFR" from_name s
  = match r with
    | Ok line =>
        (if negb (str_truthy line) || negb (startswith line "RNTO")
         then raise (Exception "Expecting RNTO command after RNFR")
         else bind (lift (unpack2 (str_split1 " " line))) (fun ca =>
                bind (invoke (CallRenameFile from_name (Some (snd ca)))
                        (rename_file from_name (Some (snd ca))))
                  (fun _ => reply 250 "Renamed file")))
          (set_client rest (emit (EvReply 350 "Ready to rename") s))
    | Raise e => (set_client rest (emit (EvReply 350 "Ready to rename") s), Raise e)
    end.
Proof.
  intros Hread. rewrite dispatch_RNFR. unfold bind at 1.
  change (reply 350 "Ready to rename" s)
    with (emit (EvReply 350 "Ready to rename") s, @Ok unit tt).
  unfold bind at 1. unfold read_line. cbn [client emit]. rewrite Hread.
  destruct r; reflexivity.
Qed.

(** After [RNFR], a line is taken for [RNTO] as soon as it starts with
    these four characters and holds a space: the word before the space
    is not looked at. *)
Lemma rnfr_checks_prefix_only from_name (s : session) line rest word to_name :
  read_till_crlf (client s) = (Ok line, rest) ->
  startswith line "RNTO" = true ->
  str_split1 " " line = [word; to_name] ->
  dispatch "RNFR" from_name s
  = bind (invoke (CallRenameFile from_name (Some to_name))
            (rename_file from_name (Some to_name)))
      (fun _ => reply 250 "Renamed file")
      (set_client rest (emit (EvReply 350 "Ready to rename") s)).
Proof.
  intros Hread Hpre Hsplit. rewrite (rnfr_reads_next_line _ _ _ _ Hread).
  assert (str_truthy line = true) as ->.
  { destruct line; [discriminate Hpre | reflexivity]. }
  rewrite Hpre. cbn [negb orb]. unfold bind at 1, lift. rewrite Hsplit.
  reflexivity.
Qed.

(** After [RNFR], a line that does not start with [RNTO] raises before
    any provider method is called. *)
Lemma rnfr_rejects_other_lines from_name (s : session) line rest :
  read_till_crlf (client s) = (Ok line, rest) ->
  startswith line "RNTO" = false ->
  dispatch "RNFR" from_name s
  = (set_client rest (emit (EvReply 350 "Ready to rename") s),
     Raise (Exception "Expecting RNTO command after RNFR")).
Proof.
  intros Hread Hpre. rewrite (rnfr_reads_next_line _ _ _ _ Hread), Hpre.
  now rewrite orb_true_r.
Qed.

End LoopSteps.

(** ** Claims about the command loop *)

Section LoopClaims.
Import Provider Server.
Context {P : Type} `{ProviderBase P}.

(** The [QUIT] handler replies and the loop goes on with the next line. *)
Lemma quit_step fuel (s : Server.session P) rest :
  read_till_crlf (client s) = (Ok "QUIT", rest) ->
  loop (S fuel) s = loop fuel (emit (EvReply 221 "OK Bye") (set_client rest s)).
Proof.
  intros Hread. now rewrite (loop_step _ _ _ _ "QUIT" None Hread).
Qed.

Lemma dispatch_keeps_client_open cmd args (s : Server.session P) :
  client_closed (fst (dispatch cmd args s)) = client_closed s.
Proof.
  apply (respects_dispatch (fun s s' => client_closed s' = client_closed s));
    cbn; intros; congruence.
Qed.

(** The statement [client.close()] after the loop is never reached: the
    loop is only left by [break] on an empty line, or by an exception. *)
Lemma loop_never_closes_client fuel : forall (s s' : Server.session P),
  loop fuel s = Some (s', Returned) -> client_closed s' = client_closed s.
Proof.
  induction fuel as [|fuel IH]; intros s s'; [intros [=]|].
  destruct (read_till_crlf (client s)) as [[line|e] rest] eqn:Hread.
  - destruct (str_truthy line) eqn:Hline.
    + destruct (parse_total line) as (cmd & args & Hparse).
      rewrite (loop_step _ _ _ _ _ _ Hread Hline Hparse). intros Hl.
      apply IH in Hl. rewrite Hl, try_dispatch_eq.
      pose proof (dispatch_keeps_client_open cmd args (set_client rest s)) as Hk.
      destruct (dispatch cmd args (set_client rest s)) as [s1 [[]|e]]; exact Hk.
    + cbn [loop]. unfold read_line. rewrite Hread, Hline. cbn [negb].
      intros [= <-]. unfold clean_up. rewrite Hline.
      destruct (passive_client (set_client rest s)) as [h|]; [|reflexivity].
      unfold sock_close. cbn [sockets set_client].
      destruct (sockets s !! h); reflexivity.
  - cbn [loop]. unfold read_line. rewrite Hread. intros [=].
Qed.

(** C1 (evaluation at the failing input): a client sends [QUIT] and then
    [NOOP].  The server answers 221 to [QUIT] and then reads and
    dispatches [NOOP], answering 200: the loop does not end at [QUIT]. *)
Theorem C1_quit_then_noop_is_dispatched (p : P) (net : list pasv_outcome) :
  exists s,
    command_loop (enough (Examples.lines ["QUIT"; "NOOP"]))
      (new_session (Examples.lines ["QUIT"; "NOOP"]) p net) = Some (s, Returned)
    /\ log s = [EvReply 220 "Hello, Eli's ftp server"; EvReply 221 "OK Bye";
                EvReply 200 "NOOP OK"]
    /\ client_closed s = false.
Proof. eexists. split; [vm_compute; reflexivity | split; reflexivity]. Qed.

(** C2 (amended): when the line read at the top of the loop exceeds the
    length ceiling -- 1001 bytes are buffered without a complete line and
    a further byte arrives -- the error leaves [command_loop]: no reply is
    sent, nothing else of the session changes, and no further line is
    read.  Only the line that the [RNFR] handler reads, inside the [try]
    statement, is answered 500 when it is too long. *)
Theorem C2_over_long_line_ends_loop fuel (s : Server.session P) pre b rest from_name :
  client s = pre ++ b :: rest ->
  has_crlf pre = false ->
  length pre = S max_buf_len ->
  loop (S fuel) s = Some (set_client rest s, Escaped limit_error)
  /\ try_dispatch "RNFR" from_name s
     = (emit (EvReply 500 "Error executing cmd")
          (set_client rest (emit (EvReply 350 "Ready to rename") s)), Ok tt).
Proof.
  intros Hc Hfree Hlen.
  assert (read_till_crlf (client s) = (Raise limit_error, rest)) as Hread
    by now rewrite Hc, read_till_crlf_too_long.
  split.
  - cbn [loop]. unfold read_line. now rewrite Hread.
  - now rewrite try_dispatch_eq, (rnfr_reads_next_line _ _ _ _ Hread).
Qed.

(** C6: when the handler of a dispatched command raises, whatever the
    exception, the [try] statement answers with the reply
    [500 Error executing cmd]; the handler itself has sent no 500 reply,
    so the command is answered with exactly one.  The loop then goes on:
    given fuel for the unread input it runs to its end from the state
    after that reply, the log of the whole run holds the 500 reply right
    after what the handler logged, and a command line that follows is
    read and dispatched in its turn.  (Sending a reply is taken to
    succeed.) *)
Theorem C6_handler_exception_is_answered_500 fuel (s : Server.session P)
    line rest cmd args s1 e :
  read_till_crlf (client s) = (Ok line, rest) ->
  str_truthy line = true ->
  parse line = Ok (cmd, args) ->
  dispatch cmd args (set_client rest s) = (s1, Raise e) ->
  length (client s) <= fuel ->
  try_dispatch cmd args (set_client rest s)
  = (emit (EvReply 500 "Error executing cmd") s1, Ok tt)
  /\ (exists evs, log s1 = log s ++ evs
                  /\ Forall (fun ev => is_reply 500 ev = false) evs)
  /\ exists s' ending later,
       loop (S fuel) s = Some (s', ending)
       /\ loop fuel (emit (EvReply 500 "Error executing cmd") s1) = Some (s', ending)
       /\ log s' = log s1 ++ [EvReply 500 "Error executing cmd"] ++ later
       /\ forall line2 rest2 cmd2 args2,
            read_till_crlf (client s1) = (Ok line2, rest2) ->
            str_truthy line2 = true ->
            parse line2 = Ok (cmd2, args2) ->
            exists later2,
              log s'
              = log (fst (try_dispatch cmd2 args2
                            (set_client rest2
                               (emit (EvReply 500 "Error executing cmd") s1))))
                  ++ later2.
Proof.
  intros Hread Hline Hparse Hd Hfuel.
  assert (try_dispatch cmd args (set_client rest s)
          = (emit (EvReply 500 "Error executing cmd") s1, Ok tt)) as Htry
    by now rewrite try_dispatch_eq, Hd.
  split; [exact Htry|]. split.
  { pose proof (dispatch_log cmd args (set_client rest s)) as Hlog.
    now rewrite Hd in Hlog. }
  destruct (loop_runs_command fuel s line rest cmd args Hread Hline Hparse Hfuel)
    as (s' & ending & later & Hrun & Hnext & Hlog).
  rewrite Htry in Hnext, Hlog. cbn [fst] in Hnext, Hlog.
  exists s', ending, later. split; [exact Hrun|]. split; [exact Hnext|].
  split; [cbn [log emit] in Hlog; now rewrite Hlog, <- app_assoc|].
  intros line2 rest2 cmd2 args2 Hread2 Hline2 Hparse2.
  destruct fuel as [|fuel']; [discriminate Hnext|].
  rewrite (loop_step fuel' (emit (EvReply 500 "Error executing cmd") s1)
             line2 rest2 cmd2 args2 Hread2 Hline2 Hparse2) in Hnext.
  apply loop_log in Hnext as [later2 Hlater2]. exists later2. exact Hlater2.
Qed.

Lemma dispatch_unrecognized cmd args :
  is_verb recognized_verbs cmd = false ->
  dispatch (P := P) cmd args = reply 501 "Unknown cmd".
Proof.
  unfold is_verb, recognized_verbs. cbn [existsb]. intros Hv.
  repeat (apply orb_false_iff in Hv as [?H Hv]).
  unfold dispatch.
  repeat match goal with
         | Heq : String.eqb cmd _ = false |- _ => rewrite Heq; clear Heq
         end.
  reflexivity.
Qed.

(** C8 (amended): the verb is compared exactly, character by character,
    with the verbs of the chain -- which has [noop] and [opts] beside
    [NOOP] and [OPTS].  A line whose verb is none of them is answered
    [501 Unknown cmd]; nothing but this reply happens: no provider method
    is called and the provider, the passive channel and the data
    connections are as before. *)
Theorem C8_unrecognized_verb_501 fuel (s : Server.session P) line rest cmd args :
  read_till_crlf (client s) = (Ok line, rest) ->
  str_truthy line = true ->
  parse line = Ok (cmd, args) ->
  is_verb recognized_verbs cmd = false ->
  loop (S fuel) s
  = loop fuel (emit (EvReply 501 "Unknown cmd") (set_client rest s)).
Proof.
  intros Hread Hline Hparse Hv.
  rewrite (loop_step _ _ _ _ _ _ Hread Hline Hparse), try_dispatch_eq.
  now rewrite dispatch_unrecognized.
Qed.

End LoopClaims.

(** C4 (amended): a CRLF-terminated line whose content is 7-bit, holds no
    CRLF pair and is shorter than 1000 bytes is returned with the
    terminator stripped, and what follows it stays unread; the
    length-ceiling error is raised only when a byte arrives with more than
    1000 bytes already in the buffer. *)
Theorem C4_read_till_crlf_line_and_ceiling :
  (forall content rest,
      has_crlf content = false ->
      forallb byte_is_ascii content = true ->
      length content < max_buf_len ->
      read_till_crlf (content ++ crlf ++ rest)
      = (Ok (String.string_of_list_byte content), rest))
  /\ (forall client rest,
         read_till_crlf client = (Raise limit_error, rest) ->
         exists buf b, client = buf ++ b :: rest /\ max_buf_len < length buf).
Proof.
  split.
  - intros content rest Hfree Hascii Hlen.
    rewrite read_till_crlf_fits by assumption.
    unfold decode_ascii. now rewrite Hascii.
  - intros client rest. unfold read_till_crlf.
    destruct (read_loop client [] false) as [[buf|e] rest'] eqn:Hl.
    + unfold decode_ascii. destruct (forallb _ _); intros [=].
    + intros [= -> ->]. apply read_loop_limit in Hl as (pre & b & -> & Hlen).
      exists pre, b. split; [reflexivity | exact Hlen].
Qed.

Lemma C4_witness :
  read_till_crlf (Examples.line "NOOP" ++ Examples.line "QUIT")
  = (Ok "NOOP", Examples.line "QUIT").
Proof.
  apply (proj1 C4_read_till_crlf_line_and_ceiling
           (String.list_byte_of_string "NOOP") (Examples.line "QUIT"));
    [reflexivity | reflexivity | vm_compute; lia].
Defined.

(** C4 (counterexample): a line whose content is exactly 1000 bytes -- at
    most 1000 -- is not returned: reading its LF raises the length-ceiling
    error. *)
Lemma C4_counterexample :
  length (repeat "A"%byte 1000) = 1000
  /\ read_till_crlf (repeat "A"%byte 1000 ++ crlf) = (Raise limit_error, []).
Proof. split; vm_compute; reflexivity. Qed.

(** C2 (counterexample): a line of 1002 bytes followed by [NOOP].  The
    only reply is the greeting: no 500 reply is sent, the exception leaves
    the loop, and [NOOP] is never read. *)
Lemma C2_counterexample :
  exists s,
    Server.command_loop
      (Server.enough (repeat "A"%byte 1002 ++ crlf ++ Examples.line "NOOP"))
      (Server.new_session (repeat "A"%byte 1002 ++ crlf ++ Examples.line "NOOP")
         Examples.srv [])
    = Some (s, Server.Escaped limit_error)
    /\ Server.log s = [Server.EvReply 220 "Hello, Eli's ftp server"]
    /\ Server.client s = crlf ++ Examples.line "NOOP".
Proof. eexists. split; [vm_compute; reflexivity | split; reflexivity]. Qed.

Lemma C2_witness :
  Server.loop 1
    (Server.new_session (repeat "A"%byte 1002 ++ crlf) Examples.srv [])
  = Some (Server.set_client crlf
            (Server.new_session (repeat "A"%byte 1002 ++ crlf) Examples.srv []),
          Server.Escaped limit_error)
  /\ Server.try_dispatch "RNFR" (Some "a.txt")
       (Server.new_session (repeat "A"%byte 1002 ++ crlf) Examples.srv [])
     = (Server.emit (Server.EvReply 500 "Error executing cmd")
          (Server.set_client crlf
             (Server.emit (Server.EvReply 350 "Ready to rename")
                (Server.new_session (repeat "A"%byte 1002 ++ crlf) Examples.srv []))),
        Ok tt).
Proof.
  apply (C2_over_long_line_ends_loop 0
           (Server.new_session (repeat "A"%byte 1002 ++ crlf) Examples.srv [])
           (repeat "A"%byte 1001) "A"%byte crlf (Some "a.txt"));
    vm_compute; reflexivity.
Defined.

Lemma C6_witness :
  Server.try_dispatch "DELE" None
    (Server.set_client (Examples.line "NOOP")
             (Server.new_session (Examples.lines ["DELE"; "NOOP"]) Examples.srv []))
  = ((Server.emit (Server.EvReply 500 "Error executing cmd")
       (fst (Server.dispatch "DELE" None
          (Server.set_client (Examples.line "NOOP")
             (Server.new_session (Examples.lines ["DELE"; "NOOP"]) Examples.srv []))))), Ok tt)
  /\ (exists evs,
        Server.log (fst (Server.dispatch "DELE" None
          (Server.set_client (Examples.line "NOOP")
             (Server.new_session (Examples.lines ["DELE"; "NOOP"]) Examples.srv []))))
        = Server.log (Server.new_session (Examples.lines ["DELE"; "NOOP"]) Examples.srv []) ++ evs
        /\ Forall (fun ev => Server.is_reply 500 ev = false) evs)
  /\ exists s' ending later,
       Server.loop 13 (Server.new_session (Examples.lines ["DELE"; "NOOP"]) Examples.srv []) = Some (s', ending)
       /\ Server.loop 12 (Server.emit (Server.EvReply 500 "Error executing cmd")
       (fst (Server.dispatch "DELE" None
          (Server.set_client (Examples.line "NOOP")
             (Server.new_session (Examples.lines ["DELE"; "NOOP"]) Examples.srv []))))) = Some (s', ending)
       /\ Server.log s'
          = Server.log (fst (Server.dispatch "DELE" None
          (Server.set_client (Examples.line "NOOP")
             (Server.new_session (Examples.lines ["DELE"; "NOOP"]) Examples.srv []))))
              ++ [Server.EvReply 500 "Error executing cmd"] ++ later
       /\ forall line2 rest2 cmd2 args2,
            read_till_crlf (Server.client (fst (Server.dispatch "DELE" None
          (Server.set_client (Examples.line "NOOP")
             (Server.new_session (Examples.lines ["DELE"; "NOOP"]) Examples.srv []))))) = (Ok line2, rest2) ->
            str_truthy line2 = true ->
            Server.parse line2 = Ok (cmd2, args2) ->
            exists later2,
              Server.log s'
              = Server.log
                  (fst (Server.try_dispatch cmd2 args2
                          (Server.set_client rest2
                             (Server.emit (Server.EvReply 500 "Error executing cmd")
       (fst (Server.dispatch "DELE" None
          (Server.set_client (Examples.line "NOOP")
             (Server.new_session (Examples.lines ["DELE"; "NOOP"]) Examples.srv []))))))))
                  ++ later2.
Proof.
  apply (C6_handler_exception_is_answered_500 12
           (Server.new_session (Examples.lines ["DELE"; "NOOP"]) Examples.srv [])
           "DELE" (Examples.line "NOOP") "DELE" None
           (fst (Server.dispatch "DELE" None
          (Server.set_client (Examples.line "NOOP")
             (Server.new_session (Examples.lines ["DELE"; "NOOP"]) Examples.srv []))))
           TypeError);
    [reflexivity | reflexivity | reflexivity | reflexivity | vm_compute; lia].
Defined.

(** C8 (counterexample): [noop] is not a verb of the dispatch table, yet
    the line is answered [200 NOOP OK] and not 501. *)
Lemma C8_counterexample :
  is_verb dispatch_table_verbs "noop" = false
  /\ exists s,
       Server.command_loop (Server.enough (Examples.line "noop"))
         (Server.new_session (Examples.line "noop") Examples.srv [])
       = Some (s, Server.Returned)
       /\ Server.log s = [Server.EvReply 220 "Hello, Eli's ftp server";
                          Server.EvReply 200 "NOOP OK"].
Proof. split; [reflexivity|]. eexists. split; [vm_compute; reflexivity | reflexivity]. Qed.

Lemma C8_witness :
  Server.loop 2 (Server.new_session (Examples.line "Noop x") Examples.srv [])
  = Server.loop 1
      (Server.emit (Server.EvReply 501 "Unknown cmd")
         (Server.new_session [] Examples.srv [])).
Proof.
  apply (C8_unrecognized_verb_501 1
           (Server.new_session (Examples.line "Noop x") Examples.srv [])
           "Noop x" [] "Noop" (Some "x")); reflexivity.
Defined.

(** ** The passive data channel *)

Section PassiveChannel.
Import Provider Server.
Context {P : Type} `{ProviderBase P}.

#[local] Abbreviation session := (Server.session P).

(** The handlers of the three data-bearing commands. *)
Lemma dispatch_LIST args :
  dispatch (P := P) "LIST" args
  = passive_reply (150%Z, "Sending current directory listing")
      (bind (invoke CallListdir listdir) (fun t => ret (Text t)))
      (226%Z, "Sent directory listing").
Proof. reflexivity. Qed.

Lemma dispatch_RETR args :
  dispatch (P := P) "RETR" args
  = bind (invoke (CallGetSize args) (get_size args)) (fun sz =>
      if negb (fst sz) then reply 550 "Not a file"
      else passive_reply (150%Z, "Sending binary file " +:+ fmt_opt args)
             (bind (invoke (CallGetFile args) (get_file args))
                (fun b => ret (Binary b)))
             (226%Z, "File transfer complete")).
Proof. reflexivity. Qed.

Lemma dispatch_STOR args :
  dispatch (P := P) "STOR" args
  = passive_read (150%Z, "OK, send data")
      (fun get_chunk h => invoke_save_file args get_chunk h)
      (226%Z, "File store complete").
Proof. reflexivity. Qed.

Lemma dispatch_PASV args : dispatch (P := P) "PASV" args = enter_passive.
Proof. reflexivity. Qed.

Lemma reply_keeps st data (s s' : session) r :
  reply st data s = (s', r) ->
  passive_client s' = passive_client s /\ sockets s' = sockets s
  /\ provider s' = provider s.
Proof.
  unfold reply. destruct (encode_ascii _); intros [= <- <-]; cbn; auto.
Qed.

Lemma close_then_clear h (s s' : session) after :
  h < length (sockets s) ->
  bind (sock_close h) (fun _ =>
    bind (fun s => (set_passive_client None s, Ok tt)) (fun _ =>
      reply (fst after) (snd after))) s = (s', Ok tt) ->
  channel_done h s'.
Proof.
  intros Hh. unfold bind, sock_close.
  destruct (lookup_lt_is_Some_2 (sockets s) h Hh) as [k Hk]. rewrite Hk.
  destruct (reply _ _ _) as [s1 r] eqn:Hr. apply reply_keeps in Hr as (Hpc & Hso & _).
  destruct r; intros [= <-]. cbn in Hpc, Hso. split; [exact Hpc|].
  rewrite Hso. eexists. split; [apply list_lookup_insert_eq; exact Hh | reflexivity].
Qed.

Lemma sock_send_ok h d (s s' : session) :
  sock_send h d s = (s', Ok tt) -> h < length (sockets s').
Proof.
  unfold sock_send. destruct (sockets s !! h) as [k|] eqn:Hk; [|intros [=]].
  destruct (closed k); intros [= <-]. cbn. rewrite length_insert.
  now apply lookup_lt_Some in Hk.
Qed.

(** A reply over the passive channel that runs to its end leaves the
    channel closed and cleared. *)
Lemma passive_reply_completed b data a h (s s' : session) :
  passive_client s = Some h ->
  passive_reply b data a s = (s', Ok tt) ->
  channel_done h s'.
Proof.
  intros Hpc. unfold passive_reply. rewrite Hpc. unfold bind at 1.
  destruct (reply (fst b) (snd b) s) as [s1 [[]|]]; [|intros [=]].
  unfold bind at 1. destruct (data s1) as [s2 [d|]]; [|intros [=]].
  unfold bind at 1, lift.
  destruct (match d with Binary b0 => Ok b0 | Text t => encode_ascii t end);
    [|intros [=]].
  unfold bind at 1. destruct (sock_send h a0 s2) as [s3 [[]|]] eqn:Hsend; [|intros [=]].
  apply close_then_clear. now apply sock_send_ok in Hsend.
Qed.

Lemma invoke_save_file_ok f g h (s s' : session) :
  invoke_save_file f g h s = (s', Ok tt) -> h < length (sockets s').
Proof.
  unfold invoke_save_file. destruct (sockets s !! h) as [k|] eqn:Hk; [|intros [=]].
  destruct (closed k); [intros [=]|]. cbn [provider emit].
  destruct (save_file f g (incoming k) (provider s)) as [[p rest] r].
  intros [= <- ->]. cbn. rewrite length_insert. now apply lookup_lt_Some in Hk.
Qed.

Lemma passive_read_completed b f a h (s s' : session) :
  passive_client s = Some h ->
  passive_read b (fun get_chunk h => invoke_save_file f get_chunk h) a s = (s', Ok tt) ->
  channel_done h s'.
Proof.
  intros Hpc. unfold passive_read. rewrite Hpc. unfold bind at 1.
  destruct (reply (fst b) (snd b) s) as [s1 [[]|]]; [|intros [=]].
  cbn zeta. unfold bind at 1.
  destruct (invoke_save_file f _ h s1) as [s2 [[]|]] eqn:Hsave; [|intros [=]].
  apply close_then_clear. now apply invoke_save_file_ok in Hsave.
Qed.

Lemma invoke_get_size args (s : session) :
  invoke (CallGetSize args) (get_size args) s
  = (after_get_size args s, snd (get_size args (provider s))).
Proof.
  unfold invoke, after_get_size. cbn [provider emit].
  now destruct (get_size args (provider s)).
Qed.

Lemma same_channels_refl (s : session) : same_channels s s.
Proof. split; reflexivity. Qed.

Lemma channel_ok_same (s s' : session) :
  same_channels s s' -> channel_ok s -> channel_ok s'.
Proof. intros [Hso Hpc]. unfold channel_ok. now rewrite Hso, Hpc. Qed.

Lemma reply_same_channels st data (s : session) :
  same_channels s (fst (reply st data s)).
Proof.
  destruct (reply st data s) as [s' r] eqn:Hr.
  apply reply_keeps in Hr as (Hpc & Hso & _). now split.
Qed.

Lemma invoke_same_channels {A} c (m : P -> P * result A) :
  respects same_channels (invoke c m).
Proof.
  intros s. unfold invoke. cbn [provider emit].
  destruct (m (provider s)). split; reflexivity.
Qed.

(** Handlers that use no data channel leave the channels alone. *)
Lemma dispatch_plain_same_channels cmd args (s : session) :
  String.eqb cmd "PASV" = false -> String.eqb cmd "LIST" = false ->
  String.eqb cmd "RETR" = false -> String.eqb cmd "STOR" = false ->
  same_channels s (fst (dispatch cmd args s)).
Proof.
  intros Hpasv Hlist Hretr Hstor.
  apply (respects_dispatch_plain same_channels); auto.
  - apply same_channels_refl.
  - intros s1 s2 s3 [Ha1 Ha2] [Hb1 Hb2]. split; congruence.
  - intros e s0 _. split; reflexivity.
  - intros p s0. split; reflexivity.
  - intros c s0 _. split; reflexivity.
Qed.

(** Closing and clearing leaves the session without a channel. *)
Lemma close_then_clear_none h after (s : session) :
  passive_client
    (fst (bind (sock_close h) (fun _ =>
            bind (fun s => (set_passive_client None s, Ok tt)) (fun _ =>
              reply (fst after) (snd after))) s)) = None.
Proof.
  unfold bind, sock_close.
  destruct (sockets s !! h) as [k|];
    (destruct (reply _ _ _) as [s1 r] eqn:Hr; apply reply_keeps in Hr as (Hpc & _);
     destruct r; exact Hpc).
Qed.

Lemma channel_ok_none (s : session) : passive_client s = None -> channel_ok s.
Proof. unfold channel_ok. now intros ->. Qed.

Lemma passive_reply_channel_ok b (data : M payload) a (s : session) :
  respects same_channels data ->
  channel_ok s -> channel_ok (fst (passive_reply b data a s)).
Proof.
  intros Hdata Hok. unfold passive_reply.
  destruct (passive_client s) as [h|] eqn:Hpc.
  - unfold bind at 1. pose proof (reply_same_channels (fst b) (snd b) s) as Hk1.
    destruct (reply (fst b) (snd b) s) as [s1 [[]|]]; cbn [fst] in Hk1;
      [|now apply (channel_ok_same s)].
    pose proof (channel_ok_same _ _ Hk1 Hok) as Hok1.
    unfold bind at 1. pose proof (Hdata s1) as Hk2.
    destruct (data s1) as [s2 [d|]]; cbn [fst] in Hk2; [|now apply (channel_ok_same s1)].
    pose proof (channel_ok_same _ _ Hk2 Hok1) as Hok2.
    unfold bind at 1, lift.
    destruct (match d with Binary b0 => Ok b0 | Text t => encode_ascii t end);
      [|exact Hok2].
    unfold bind at 1.
    destruct (sock_send h a0 s2) as [s3 [[]|]] eqn:Hsend.
    + apply channel_ok_none, close_then_clear_none.
    + cbn [fst]. unfold sock_send in Hsend.
      destruct (sockets s2 !! h) as [k|]; [|now injection Hsend as <-].
      destruct (closed k); [now injection Hsend as <-|discriminate Hsend].
  - apply (channel_ok_same s); [apply reply_same_channels | exact Hok].
Qed.

Lemma passive_read_channel_ok b f a (s : session) :
  channel_ok s ->
  channel_ok
    (fst (passive_read b (fun get_chunk h => invoke_save_file f get_chunk h) a s)).
Proof.
  intros Hok. unfold passive_read.
  destruct (passive_client s) as [h|] eqn:Hpc.
  - unfold bind at 1. pose proof (reply_same_channels (fst b) (snd b) s) as Hk1.
    destruct (reply (fst b) (snd b) s) as [s1 [[]|]]; cbn [fst] in Hk1;
      [|now apply (channel_ok_same s)].
    pose proof (channel_ok_same _ _ Hk1 Hok) as Hok1.
    cbn zeta. unfold bind at 1.
    destruct (invoke_save_file f (fun n c => read_n_till_close c n) h s1)
      as [s2 [[]|]] eqn:Hsave.
    + apply channel_ok_none, close_then_clear_none.
    + cbn [fst]. destruct Hk1 as [Hso1 Hpc1]. rewrite Hpc in Hpc1.
      unfold invoke_save_file in Hsave.
      destruct (sockets s1 !! h) as [k|] eqn:Hk;
        [|injection Hsave as <-; unfold channel_ok in *; cbn; exact Hok1].
      destruct (closed k); [injection Hsave as <-; unfold channel_ok in *; cbn; exact Hok1|].
      cbn [provider emit] in Hsave.
      destruct (save_file f _ (incoming k) (provider s1)) as [[p rest] r].
      injection Hsave as <- _. unfold channel_ok. cbn. rewrite Hpc1.
      eexists. split; [apply list_lookup_insert_eq; now apply lookup_lt_Some in Hk|].
      reflexivity.
  - apply (channel_ok_same s); [apply reply_same_channels | exact Hok].
Qed.

Lemma release_length h (l : list data_socket) : length (release h l) = length l.
Proof. unfold release. destruct (l !! h); [apply length_insert | reflexivity]. Qed.

Lemma release_lookup h (l : list data_socket) j k :
  release h l !! j = Some k ->
  (j = h /\ closed k = true) \/ (j <> h /\ l !! j = Some k).
Proof.
  unfold release. destruct (l !! h) as [k0|] eqn:Hh.
  - destruct (decide (j = h)) as [->|Hne].
    + rewrite list_lookup_insert_eq by now apply lookup_lt_Some in Hh.
      intros [= <-]. now left.
    + rewrite list_lookup_insert_ne by auto. now right.
  - intros Hj. right. split; [|exact Hj]. intros ->. now rewrite Hh in Hj.
Qed.

(** The connections a [PASV] keeps, the one referred to being released. *)
Lemma earlier_length (s : session) :
  length (match passive_client s with
          | Some old => release old (sockets s)
          | None => sockets s
          end) = length (sockets s).
Proof. destruct (passive_client s); [apply release_length | reflexivity]. Qed.

(** [PASV] either fails and leaves the channels alone, or appends the
    accepted connection, refers to it, and releases the one referred to
    before. *)
Lemma enter_passive_cases (s : session) :
  (is_ok (snd (enter_passive s)) = false /\ same_channels s (fst (enter_passive s)))
  \/ (exists ip port d net,
        network s = Accepts ip port d :: net
        /\ snd (enter_passive s) = Ok tt
        /\ passive_client (fst (enter_passive s)) = Some (length (sockets s))
        /\ sockets (fst (enter_passive s))
           = match passive_client s with
             | Some old => release old (sockets s)
             | None => sockets s
             end ++ [{| incoming := d; sent := []; closed := false |}]).
Proof.
  unfold enter_passive.
  destruct (network s) as [|[|ip port|ip port d] net] eqn:Hnet; cbn [fst snd tail];
    try (left; split; [reflexivity | split; reflexivity]).
  - left. unfold bind. pose proof (reply_same_channels 227
        ("Entering passive mode (" +:+ replace ip "." "," +:+ ","
           +:+ (str_of_Z (Z.shiftr port 8) +:+ "," +:+ str_of_Z (Z.land port 255))
           +:+ ")") (set_network net s)) as Hk.
    destruct (reply _ _ _) as [s1 [[]|]]; cbn [fst snd] in Hk |- *;
      (split; [reflexivity | exact Hk]).
  - unfold bind. pose proof (reply_same_channels 227
        ("Entering passive mode (" +:+ replace ip "." "," +:+ ","
           +:+ (str_of_Z (Z.shiftr port 8) +:+ "," +:+ str_of_Z (Z.land port 255))
           +:+ ")") (set_network net s)) as Hk.
    destruct (reply _ _ _) as [s1 [[]|]]; cbn [fst snd] in Hk |- *;
      [|left; split; [reflexivity | exact Hk]].
    right. destruct Hk as [Hso Hpc]. cbn in Hso, Hpc. exists ip, port, d, net.
    cbn. rewrite Hso, Hpc. repeat split.
Qed.

Lemma enter_passive_channel_ok (s : session) :
  channel_ok s -> channel_ok (fst (enter_passive s)).
Proof.
  intros Hok.
  destruct (enter_passive_cases s) as [[_ Hsame]|(ip & port & d & net & _ & _ & Hpc & Hso)].
  - now apply (channel_ok_same s).
  - unfold channel_ok. rewrite Hpc, Hso.
    exists {| incoming := d; sent := []; closed := false |}. split; [|reflexivity].
    rewrite lookup_app_r by (rewrite earlier_length; lia).
    now rewrite earlier_length, Nat.sub_diag.
Qed.

(** Whatever the command, the session goes on referring to an open
    connection or to none. *)
Lemma dispatch_channel_ok cmd args (s : session) :
  channel_ok s -> channel_ok (fst (dispatch cmd args s)).
Proof.
  intros Hok.
  destruct (String.eqb cmd "PASV") eqn:Hpasv.
  { apply String.eqb_eq in Hpasv as ->. rewrite dispatch_PASV.
    now apply enter_passive_channel_ok. }
  destruct (String.eqb cmd "LIST") eqn:Hlist.
  { apply String.eqb_eq in Hlist as ->. rewrite dispatch_LIST.
    apply passive_reply_channel_ok; [|exact Hok].
    intros s0. unfold bind. pose proof (invoke_same_channels CallListdir listdir s0) as Hk.
    destruct (invoke CallListdir listdir s0) as [s1 [t|]]; exact Hk. }
  destruct (String.eqb cmd "RETR") eqn:Hretr.
  { apply String.eqb_eq in Hretr as ->. rewrite dispatch_RETR. unfold bind at 1.
    pose proof (invoke_same_channels (CallGetSize args) (get_size args) s) as Hk.
    destruct (invoke (CallGetSize args) (get_size args) s) as [s1 [sz|]];
      cbn [fst] in Hk; [|now apply (channel_ok_same s)].
    pose proof (channel_ok_same _ _ Hk Hok) as Hok1.
    destruct (negb (fst sz)).
    - apply (channel_ok_same s1); [apply reply_same_channels | exact Hok1].
    - apply passive_reply_channel_ok; [|exact Hok1].
      intros s0. unfold bind.
      pose proof (invoke_same_channels (CallGetFile args) (get_file args) s0) as Hk0.
      destruct (invoke (CallGetFile args) (get_file args) s0) as [s2 [t|]]; exact Hk0. }
  destruct (String.eqb cmd "STOR") eqn:Hstor.
  { apply String.eqb_eq in Hstor as ->. rewrite dispatch_STOR.
    now apply passive_read_channel_ok. }
  apply (channel_ok_same s); [|exact Hok].
  now apply dispatch_plain_same_channels.
Qed.

(** *** At most one open data connection *)

Lemma keeps_refl (s : session) : keeps s s.
Proof. split; [reflexivity|]. eauto. Qed.

Lemma keeps_trans (s1 s2 s3 : session) : keeps s1 s2 -> keeps s2 s3 -> keeps s1 s3.
Proof.
  intros [P1 N1] [P2 N2]. split; [congruence|].
  intros h k3 Hk Ho. destruct (N2 h k3 Hk Ho) as (k2 & Hk2 & Ho2). eauto.
Qed.

Lemma same_channels_keeps (s s' : session) : same_channels s s' -> keeps s s'.
Proof. intros [Hso Hpc]. split; [exact Hpc|]. intros h k Hk Ho. rewrite Hso in Hk. eauto. Qed.

Lemma keeps_single (s s' : session) :
  keeps s s' -> single_channel s -> single_channel s'.
Proof.
  intros [Hpc Hno] Hs h k' Hk Ho. destruct (Hno h k' Hk Ho) as (k & Hk0 & Ho0).
  rewrite Hpc. exact (Hs h k Hk0 Ho0).
Qed.

Lemma keeps_reply st data : respects (P := P) keeps (reply st data).
Proof. intros s. apply same_channels_keeps, reply_same_channels. Qed.

Lemma keeps_invoke {A} c (m : P -> P * result A) : respects keeps (invoke c m).
Proof. intros s. apply same_channels_keeps, invoke_same_channels. Qed.

Lemma keeps_update h k k' (s s' : session) :
  sockets s !! h = Some k -> closed k = false ->
  passive_client s' = passive_client s ->
  sockets s' = <[h := k']> (sockets s) ->
  keeps s s'.
Proof.
  intros Hk Ho Hpc Hso. split; [exact Hpc|]. intros j kj Hj Hoj. rewrite Hso in Hj.
  destruct (decide (j = h)) as [->|Hne]; [eauto|].
  rewrite list_lookup_insert_ne in Hj by auto. eauto.
Qed.

Lemma keeps_sock_send h d : respects (P := P) keeps (sock_send h d).
Proof.
  intros s. unfold sock_send. destruct (sockets s !! h) as [k|] eqn:Hk; [|apply keeps_refl].
  destruct (closed k) eqn:Ho; [apply keeps_refl|]. cbn [fst].
  eapply (keeps_update h k); [exact Hk | exact Ho | reflexivity | reflexivity].
Qed.

Lemma keeps_invoke_save_file f g h : respects keeps (invoke_save_file f g h).
Proof.
  intros s. unfold invoke_save_file.
  destruct (sockets s !! h) as [k|] eqn:Hk; [|apply same_channels_keeps; now split].
  destruct (closed k) eqn:Ho; [apply same_channels_keeps; now split|].
  cbn [provider emit]. destruct (save_file f g (incoming k) (provider s)) as [[p rest] r].
  cbn [fst]. eapply (keeps_update h k); [exact Hk | exact Ho | reflexivity | reflexivity].
Qed.

(** One more statement before the connection [h] is closed. *)
Lemma single_bind {A B} h (m : Server.M A) (k : A -> Server.M B) (s : session) :
  respects keeps m ->
  (forall a s1, single_channel s1 -> passive_client s1 = Some h ->
                single_channel (fst (k a s1))) ->
  single_channel s -> passive_client s = Some h ->
  single_channel (fst (bind m k s)).
Proof.
  intros Hm Hk Hs Hpc. unfold bind. pose proof (Hm s) as Hkeep.
  destruct (m s) as [s1 [a|e]]; cbn [fst] in Hkeep |- *.
  - apply Hk; [now apply (keeps_single s) | destruct Hkeep as [-> _]; exact Hpc].
  - now apply (keeps_single s).
Qed.

(** Closing the connection referred to and forgetting it leaves no
    connection open. *)
Lemma close_clear_single h st data (s : session) :
  single_channel s -> passive_client s = Some h ->
  single_channel
    (fst (bind (sock_close h) (fun _ =>
            bind (fun s => (set_passive_client None s, Ok tt)) (fun _ =>
              reply st data)) s)).
Proof.
  intros Hs Hpc. unfold bind, sock_close.
  destruct (sockets s !! h) as [k|] eqn:Hk;
    (destruct (reply _ _ _) as [s1 r] eqn:Hr; apply reply_keeps in Hr as (_ & Hso & _);
     cbn in Hso; assert (sockets (fst (let (s', r0) := (s1, r) in
                                       match r0 with
                                       | Ok a => (s', Ok a)
                                       | Raise e => (s', Raise e)
                                       end)) = sockets s1) as Hfin by (now destruct r);
     intros j kj Hj Hoj; exfalso; destruct r; cbn [fst] in Hj; rewrite Hso in Hj).
  all: try (destruct (decide (j = h)) as [->|Hne];
            [rewrite list_lookup_insert_eq in Hj by (now apply lookup_lt_Some in Hk);
             injection Hj as <-; discriminate Hoj
            |rewrite list_lookup_insert_ne in Hj by auto;
             pose proof (Hs j kj Hj Hoj) as Hj'; congruence]).
  all: pose proof (Hs j kj Hj Hoj) as Hj'; rewrite Hpc in Hj'; injection Hj' as <-;
    congruence.
Qed.

Lemma passive_reply_single b (data : Server.M payload) a (s : session) :
  respects keeps data ->
  single_channel s -> single_channel (fst (passive_reply b data a s)).
Proof.
  intros Hdata Hs. unfold passive_reply.
  destruct (passive_client s) as [h|] eqn:Hpc;
    [|apply (keeps_single s); [apply keeps_reply | exact Hs]].
  apply (single_bind h); [apply keeps_reply| |exact Hs|exact Hpc].
  intros _ s1 Hs1 Hpc1. apply (single_bind h); [exact Hdata| |exact Hs1|exact Hpc1].
  intros d s2 Hs2 Hpc2.
  apply (single_bind h); [intros s0; apply keeps_refl| |exact Hs2|exact Hpc2].
  intros d' s3 Hs3 Hpc3. apply (single_bind h); [apply keeps_sock_send| |exact Hs3|exact Hpc3].
  intros _ s4 Hs4 Hpc4. now apply close_clear_single.
Qed.

Lemma passive_read_single b f a (s : session) :
  single_channel s ->
  single_channel
    (fst (passive_read b (fun get_chunk h => invoke_save_file f get_chunk h) a s)).
Proof.
  intros Hs. unfold passive_read.
  destruct (passive_client s) as [h|] eqn:Hpc;
    [|apply (keeps_single s); [apply keeps_reply | exact Hs]].
  apply (single_bind h); [apply keeps_reply| |exact Hs|exact Hpc].
  intros _ s1 Hs1 Hpc1. cbn zeta.
  apply (single_bind h); [apply keeps_invoke_save_file| |exact Hs1|exact Hpc1].
  intros _ s2 Hs2 Hpc2. now apply close_clear_single.
Qed.

Lemma enter_passive_single (s : session) :
  single_channel s -> single_channel (fst (enter_passive s)).
Proof.
  intros Hs.
  destruct (enter_passive_cases s) as [[_ Hsame]|(ip & port & d & net & _ & _ & Hpc & Hso)].
  - apply (keeps_single s); [now apply same_channels_keeps | exact Hs].
  - intros j kj Hj Hoj. rewrite Hpc. rewrite Hso in Hj.
    apply lookup_app_Some in Hj as [Hj|[Hlen Hj]].
    + exfalso. destruct (passive_client s) as [old|] eqn:Hold.
      * apply release_lookup in Hj as [[_ Hc]|[Hne Hj]]; [congruence|].
        pose proof (Hs j kj Hj Hoj) as Hj'. congruence.
      * pose proof (Hs j kj Hj Hoj) as Hj'. congruence.
    + rewrite earlier_length in Hlen, Hj.
      destruct (j - length (sockets s)) as [|n] eqn:Hn; [|destruct n; discriminate Hj].
      f_equal. lia.
Qed.

Lemma dispatch_single cmd args (s : session) :
  single_channel s -> single_channel (fst (dispatch cmd args s)).
Proof.
  intros Hs.
  destruct (String.eqb cmd "PASV") eqn:Hpasv.
  { apply String.eqb_eq in Hpasv as ->. rewrite dispatch_PASV.
    now apply enter_passive_single. }
  destruct (String.eqb cmd "LIST") eqn:Hlist.
  { apply String.eqb_eq in Hlist as ->. rewrite dispatch_LIST.
    apply passive_reply_single; [|exact Hs].
    intros s0. unfold bind. pose proof (keeps_invoke CallListdir listdir s0) as Hk.
    destruct (invoke CallListdir listdir s0) as [s1 [t|]]; exact Hk. }
  destruct (String.eqb cmd "RETR") eqn:Hretr.
  { apply String.eqb_eq in Hretr as ->. rewrite dispatch_RETR. unfold bind at 1.
    pose proof (keeps_invoke (CallGetSize args) (get_size args) s) as Hk.
    destruct (invoke (CallGetSize args) (get_size args) s) as [s1 [sz|]];
      cbn [fst] in Hk; [|now apply (keeps_single s)].
    pose proof (keeps_single _ _ Hk Hs) as Hs1.
    destruct (negb (fst sz)).
    - apply (keeps_single s1); [apply keeps_reply | exact Hs1].
    - apply passive_reply_single; [|exact Hs1].
      intros s0. unfold bind.
      pose proof (keeps_invoke (CallGetFile args) (get_file args) s0) as Hk0.
      destruct (invoke (CallGetFile args) (get_file args) s0) as [s2 [t|]]; exact Hk0. }
  destruct (String.eqb cmd "STOR") eqn:Hstor.
  { apply String.eqb_eq in Hstor as ->. rewrite dispatch_STOR.
    now apply passive_read_single. }
  apply (keeps_single s); [|exact Hs].
  now apply same_channels_keeps, dispatch_plain_same_channels.
Qed.

Lemma try_dispatch_single cmd args (s : session) :
  single_channel s -> single_channel (fst (try_dispatch cmd args s)).
Proof.
  intros Hs. rewrite try_dispatch_eq. pose proof (dispatch_single cmd args s Hs) as Hd.
  destruct (dispatch cmd args s) as [s1 [[]|e]]; exact Hd.
Qed.

Lemma clean_up_single line (s : session) :
  single_channel s -> single_channel (clean_up line s).
Proof.
  intros Hs. unfold clean_up.
  assert (single_channel (match passive_client s with
                          | Some h => fst (sock_close h s)
                          | None => s
                          end)) as Hs'.
  { destruct (passive_client s) as [h|] eqn:Hpc; [|exact Hs].
    unfold sock_close. destruct (sockets s !! h) as [k|] eqn:Hk; [|exact Hs].
    intros j kj Hj Hoj. cbn in Hj |- *. rewrite Hpc.
    destruct (decide (j = h)) as [->|Hne]; [reflexivity|].
    rewrite list_lookup_insert_ne in Hj by auto.
    rewrite <- Hpc. exact (Hs j kj Hj Hoj). }
  destruct (str_truthy line); exact Hs'.
Qed.

Lemma loop_single fuel : forall (s s' : session) e,
  single_channel s -> loop fuel s = Some (s', e) -> single_channel s'.
Proof.
  induction fuel as [|fuel IH]; intros s s' e Hs; [discriminate|].
  cbn [loop]. unfold read_line.
  destruct (read_till_crlf (client s)) as [[line|x] rest].
  - destruct (str_truthy line) eqn:Hline; cbn [negb].
    + destruct (parse line) as [[cmd args]|x]; [|intros [= <- <-]; exact Hs].
      pose proof (try_dispatch_single cmd args (set_client rest s) Hs) as Hs'.
      destruct (try_dispatch cmd args (set_client rest s)) as [s1 [[]|x]]; cbn [fst] in Hs'.
      * apply IH. exact Hs'.
      * intros [= <- <-]. exact Hs'.
    + intros [= <- <-]. now apply clean_up_single.
  - intros [= <- <-]. exact Hs.
Qed.

Lemma command_loop_single fuel input (p : P) net (s' : session) e :
  command_loop fuel (new_session input p net) = Some (s', e) -> single_channel s'.
Proof.
  unfold command_loop.
  change (reply 220 ("Hello, " +:+ SERVER_NAME) (new_session input p net))
    with (emit (EvReply 220 ("Hello, " +:+ SERVER_NAME)) (new_session input p net), Ok tt).
  cbv beta iota. apply loop_single. intros h k Hk. discriminate Hk.
Qed.

Lemma all_closed_filter (l : list data_socket) :
  (forall j y, l !! j = Some y -> closed y = true) ->
  filter (fun k => closed k = false) l = [].
Proof.
  induction l as [|x l IH]; intros Hall; [reflexivity|].
  rewrite filter_cons_False by (rewrite (Hall 0 x eq_refl); discriminate).
  apply IH. intros j y Hj. exact (Hall (S j) y Hj).
Qed.

Lemma one_open_filter (l : list data_socket) :
  (forall i j x y, l !! i = Some x -> l !! j = Some y ->
                   closed x = false -> closed y = false -> i = j) ->
  length (filter (fun k => closed k = false) l) <= 1.
Proof.
  induction l as [|x l IH]; intros Hone; [cbn; lia|].
  destruct (closed x) eqn:Hx.
  - rewrite filter_cons_False by (rewrite Hx; discriminate).
    apply IH. intros i j a b Hi Hj Ha Hb.
    pose proof (Hone (S i) (S j) a b Hi Hj Ha Hb). lia.
  - rewrite filter_cons_True by exact Hx.
    rewrite all_closed_filter; [cbn; lia|].
    intros j y Hj. destruct (closed y) eqn:Hy; [reflexivity|].
    pose proof (Hone 0 (S j) x y eq_refl Hj Hx Hy). lia.
Qed.

Lemma single_open_channels (s : session) : single_channel s -> open_channels s <= 1.
Proof.
  intros Hs. apply one_open_filter. intros i j x y Hi Hj Hx Hy.
  pose proof (Hs i x Hi Hx). pose proof (Hs j y Hj Hy). congruence.
Qed.


(** C5 (amended): at most one data connection of a session is open at
    any time, the one the session refers to: this holds when the session
    begins, every command keeps it, and so it holds when [command_loop]
    ends; a [PASV] that is accepted refers to the new connection and
    releases the one referred to before.  A [LIST], [RETR] or [STOR]
    that completes its transfer leaves the channel closed and cleared.
    While the session refers to no channel, [LIST] and [STOR] do nothing
    but reply 425; [RETR] calls [get_size] and nothing else of the
    provider, and replies 425 when the name is a file, 550 when it is
    not; and every command but [PASV] leaves the session without a
    channel. *)
Theorem C5_passive_channel_single_use (s : session) (args : option string) :
  (single_channel s ->
   forall cmd a, single_channel (fst (try_dispatch cmd a s))
                 /\ open_channels (fst (try_dispatch cmd a s)) <= 1)
  /\ (forall s', dispatch "PASV" args s = (s', Ok tt) ->
        exists k, passive_client s' = Some (length (sockets s))
                  /\ sockets s'
                     = match passive_client s with
                       | Some old => release old (sockets s)
                       | None => sockets s
                       end ++ [k]
                  /\ closed k = false)
  /\ (forall h s', passive_client s = Some h ->
        dispatch "LIST" args s = (s', Ok tt)
        \/ dispatch "STOR" args s = (s', Ok tt)
        \/ (dispatch "RETR" args s = (s', Ok tt)
            /\ exists sz, snd (get_size args (provider s)) = Ok (true, sz)) ->
        channel_done h s')
  /\ (passive_client s = None ->
        dispatch "LIST" args s = (emit (EvReply 425 "Enter passive mode first") s, Ok tt)
        /\ dispatch "STOR" args s
           = (emit (EvReply 425 "Enter passive mode first") s, Ok tt)
        /\ dispatch "RETR" args s
           = match snd (get_size args (provider s)) with
             | Ok (true, _) =>
                 (emit (EvReply 425 "Enter passive mode first") (after_get_size args s),
                  Ok tt)
             | Ok (false, _) =>
                 (emit (EvReply 550 "Not a file") (after_get_size args s), Ok tt)
             | Raise e => (after_get_size args s, Raise e)
             end
        /\ forall cmd a, String.eqb cmd "PASV" = false ->
             passive_client (fst (try_dispatch cmd a s)) = None)
  /\ (channel_ok s -> forall cmd a, channel_ok (fst (try_dispatch cmd a s)))
  /\ (forall fuel input (p : P) net s' e,
        command_loop fuel (new_session input p net) = Some (s', e) ->
        single_channel s' /\ open_channels s' <= 1).
Proof.
  split; [|split; [|split; [|split; [|split]]]]; cycle 4.
  { intros Hok cmd a. rewrite try_dispatch_eq.
    pose proof (dispatch_channel_ok cmd a s Hok) as Hd.
    destruct (dispatch cmd a s) as [s1 [[]|e]]; exact Hd. }
  { intros fuel input p net s' e Hrun.
    pose proof (command_loop_single fuel input p net s' e Hrun) as Hs.
    split; [exact Hs | now apply single_open_channels]. }
  - intros Hs cmd a. pose proof (try_dispatch_single cmd a s Hs) as Hs'.
    split; [exact Hs' | now apply single_open_channels].
  - intros s' Hd. rewrite dispatch_PASV in Hd.
    destruct (enter_passive_cases s) as [[Hfail _]|(ip & port & d & net & _ & _ & Hpc & Hso)].
    + rewrite Hd in Hfail. discriminate Hfail.
    + rewrite Hd in Hpc, Hso. cbn [fst] in Hpc, Hso. eexists. split; [exact Hpc|].
      split; [exact Hso | reflexivity].
  - intros h s' Hpc [Hd|[Hd|[Hd (sz & Hsz)]]].
    + rewrite dispatch_LIST in Hd. eapply passive_reply_completed; eauto.
    + rewrite dispatch_STOR in Hd. eapply passive_read_completed; eauto.
    + rewrite dispatch_RETR in Hd. unfold bind at 1 in Hd.
      rewrite invoke_get_size, Hsz in Hd. cbn [fst negb] in Hd.
      eapply passive_reply_completed; [|exact Hd]. exact Hpc.
  - intros Hpc. repeat split.
    + rewrite dispatch_LIST. unfold passive_reply. now rewrite Hpc.
    + rewrite dispatch_STOR. unfold passive_read. now rewrite Hpc.
    + rewrite dispatch_RETR. unfold bind at 1. rewrite invoke_get_size.
      destruct (snd (get_size args (provider s))) as [[[] sz]|e]; cbn [fst negb];
        [|reflexivity|reflexivity].
      unfold passive_reply.
      assert (passive_client (after_get_size args s) = None) as -> by exact Hpc.
      reflexivity.
    + intros cmd a Hcmd. rewrite try_dispatch_eq.
      pose proof (dispatch_keeps_none cmd a s Hcmd Hpc) as Hk.
      destruct (dispatch cmd a s) as [s1 [[]|e]]; exact Hk.
Qed.

End PassiveChannel.

Lemma C5_witness :
  (forall cmd a,
      Server.single_channel
        (fst (Server.try_dispatch cmd a
                (fst (Server.dispatch "PASV" None
                        (Server.new_session [] Examples.srv_at_root
                           [Server.Accepts "127.0.0.1" 8080 []])))))
      /\ Server.open_channels
           (fst (Server.try_dispatch cmd a
                   (fst (Server.dispatch "PASV" None
                           (Server.new_session [] Examples.srv_at_root
                              [Server.Accepts "127.0.0.1" 8080 []]))))) <= 1)
  /\ Server.channel_done 0
       (fst (Server.dispatch "LIST" None
               (fst (Server.dispatch "PASV" None
                       (Server.new_session [] Examples.srv_at_root
                          [Server.Accepts "127.0.0.1" 8080 []]))))).
Proof.
  split.
  - apply (proj1 (C5_passive_channel_single_use
                    (fst (Server.dispatch "PASV" None
                            (Server.new_session [] Examples.srv_at_root
                               [Server.Accepts "127.0.0.1" 8080 []])))
                    None)).
    intros h k Hk Hopen. destruct h as [|h]; [reflexivity|].
    destruct h; discriminate Hk.
  - apply (proj1 (proj2 (proj2 (C5_passive_channel_single_use
                                  (fst (Server.dispatch "PASV" None
                                          (Server.new_session [] Examples.srv_at_root
                                             [Server.Accepts "127.0.0.1" 8080 []])))
                                  None))) 0 _ eq_refl).
    left. vm_compute. reflexivity.
Defined.

(** C5 (counterexample): after [PASV] and a completed [LIST], [RETR pub]
    for the directory [pub] is answered 550 and not 425, and [RETR a.txt]
    for a file is answered 425 only after [get_size] was called on the
    provider. *)
Lemma C5_counterexample :
  (exists s,
      Server.command_loop
        (Server.enough (Examples.lines ["PASV"; "LIST"; "RETR pub"]))
        (Server.new_session (Examples.lines ["PASV"; "LIST"; "RETR pub"])
           Examples.srv_at_root [Server.Accepts "127.0.0.1" 8080 []])
      = Some (s, Server.Returned)
      /\ Server.replies (Server.log s) = [220; 227; 150; 226; 550]%Z)
  /\ (exists s,
        Server.command_loop (Server.enough (Examples.lines ["RETR a.txt"]))
          (Server.new_session (Examples.lines ["RETR a.txt"]) Examples.srv_at_root [])
        = Some (s, Server.Returned)
        /\ Server.log s
           = [Server.EvReply 220 "Hello, Eli's ftp server";
              Server.EvCall (Server.CallGetSize (Some "a.txt"));
              Server.EvReply 425 "Enter passive mode first"]).
Proof.
  split; eexists; (split; [vm_compute; reflexivity | reflexivity]).
Qed.

(** C3 (evaluation at the failing input): after [RNFR a.txt] the client
    sends [RNTOX b.txt], which is not an [RNTO] command.  The server calls
    [rename_file] nevertheless, replies 250, and the file has moved. *)
Theorem C3_rnto_prefix_is_accepted :
  exists s,
    Server.command_loop (Server.enough (Examples.lines ["RNFR a.txt"; "RNTOX b.txt"]))
      (Server.new_session (Examples.lines ["RNFR a.txt"; "RNTOX b.txt"])
         Examples.srv_at_root [])
    = Some (s, Server.Returned)
    /\ Server.log s
       = [Server.EvReply 220 "Hello, Eli's ftp server";
          Server.EvReply 350 "Ready to rename";
          Server.EvCall (Server.CallRenameFile (Some "a.txt") (Some "b.txt"));
          Server.EvReply 250 "Renamed file"]
    /\ OS.isfile (FileSystemProvider.os (Server.provider s)) "/srv/b.txt" = true
    /\ OS.isfile (FileSystemProvider.os (Server.provider s)) "/srv/a.txt" = false.
Proof.
  eexists. split; [vm_compute; reflexivity|].
  split; [reflexivity|]. split; vm_compute; reflexivity.
Qed.

(** ** Listings *)

Lemma str_app_cons x (a b : string) : String x a +:+ b = String x (a +:+ b).
Proof. reflexivity. Qed.

Lemma str_app_assoc (a b c : string) : (a +:+ b) +:+ c = a +:+ (b +:+ c).
Proof.
  induction a as [|x a IH]; [reflexivity|]. now rewrite !str_app_cons, IH.
Qed.

Lemma str_app_nil_r (a : string) : a +:+ EmptyString = a.
Proof. induction a as [|x a IH]; [reflexivity|]. now rewrite str_app_cons, IH. Qed.

Lemma listing_of_app l1 l2 : listing_of (l1 ++ l2) = listing_of l1 +:+ listing_of l2.
Proof.
  induction l1 as [|e l1 IH]; [reflexivity|].
  cbn [app listing_of fold_right]. fold (listing_of (l1 ++ l2)). fold (listing_of l1).
  now rewrite IH, str_app_assoc.
Qed.

Section ListingFacts.
Context `{TimeLib}.

Lemma fs_entry_line self f line :
  FileSystemProvider.entry_line self
    (tm_year (gmtime (OS.clock (FileSystemProvider.os self)))) f = Ok line ->
  exists e, l_name e = f /\ fs_entry self e
            /\ line = ls_line (l_is_dir e) (l_size e) (l_time e) (l_name e).
Proof.
  unfold FileSystemProvider.entry_line, rbind.
  destruct (FileSystemProvider.normalize_path self (Some f)) as [p|] eqn:Hp; [|intros [=]].
  destruct (OS.stat (FileSystemProvider.os self) p) as [st|] eqn:Hst; [|intros [=]].
  intros Hline.
  exists {| l_is_dir := OS.isdir (FileSystemProvider.os self) p;
            l_size := OS.st_size st;
            l_time := time_column (tm_year (gmtime (OS.clock (FileSystemProvider.os self))))
                        (gmtime (OS.st_mtime st));
            l_name := f |}.
  split; [reflexivity|]. split.
  - exists p, st. cbn. auto.
  - cbn [l_is_dir l_size l_time l_name]. unfold ls_line, time_column.
    destruct (OS.isdir (FileSystemProvider.os self) p); injection Hline as <-; reflexivity.
Qed.

Lemma fs_listdir_loop self : forall file_list ret out,
  FileSystemProvider.listdir_loop self
    (tm_year (gmtime (OS.clock (FileSystemProvider.os self)))) file_list ret = Ok out ->
  exists l, out = ret +:+ listing_of l /\ map l_name l = file_list
            /\ Forall (fs_entry self) l.
Proof.
  induction file_list as [|f fl IH]; intros ret out.
  - intros [= <-]. exists []. cbn. now rewrite str_app_nil_r.
  - cbn [FileSystemProvider.listdir_loop]. unfold rbind at 1.
    destruct (FileSystemProvider.entry_line self _ f) as [line|] eqn:Hl; [|intros [=]].
    intros Hrest. apply IH in Hrest as (l & -> & Hnames & Hall).
    apply fs_entry_line in Hl as (e & He & Hent & ->).
    exists (e :: l). split; [|split].
    + rewrite str_app_assoc. reflexivity.
    + cbn. now rewrite He, Hnames.
    + now constructor.
Qed.

Lemma dropbox_entry_line year f line :
  DropboxProvider.entry_line year f = Ok line ->
  exists e, dropbox_entry year f e
            /\ line = ls_line (l_is_dir e) (l_size e) (l_time e) (l_name e).
Proof.
  unfold DropboxProvider.entry_line.
  destruct (String.eqb (DropboxProvider.tag f) "folder") eqn:Htag.
  - cbn [rbind fst snd]. intros [= <-].
    exists {| l_is_dir := true; l_size := 0; l_time := time_column year (gmtime 0);
              l_name := DropboxProvider.name f |}.
    split; [|reflexivity]. unfold dropbox_entry.
    cbn [l_is_dir l_size l_time l_name]. rewrite Htag.
    split; [reflexivity|]. split; [reflexivity|].
    split; [intros _; split; reflexivity | intros [=]].
  - unfold rbind at 1. unfold rbind at 1, DropboxProvider.item.
    destruct (DropboxProvider.client_modified f) as [cm|]; [|intros [=]].
    unfold rbind at 1. destruct (strptime cm _) as [t|]; [|intros [=]].
    unfold rbind at 1. destruct (DropboxProvider.size f) as [sz|] eqn:Hsz; [|intros [=]].
    cbn [fst snd]. intros [= <-].
    exists {| l_is_dir := false; l_size := sz; l_time := time_column year t;
              l_name := DropboxProvider.name f |}.
    split; [|reflexivity]. unfold dropbox_entry.
    cbn [l_is_dir l_size l_time l_name]. rewrite Htag.
    split; [reflexivity|]. split; [reflexivity|].
    split; [intros [=] | intros _; exact Hsz].
Qed.

Lemma dropbox_listdir_loop year : forall entries ret out,
  DropboxProvider.listdir_loop year entries ret = Ok out ->
  exists l, out = ret +:+ listing_of l /\ Forall2 (dropbox_entry year) entries l.
Proof.
  induction entries as [|f fl IH]; intros ret out.
  - intros [= <-]. exists []. cbn. rewrite str_app_nil_r. split; [reflexivity|constructor].
  - cbn [DropboxProvider.listdir_loop]. unfold rbind at 1.
    destruct (DropboxProvider.entry_line year f) as [line|] eqn:Hl; [|intros [=]].
    intros Hrest. apply IH in Hrest as (l & -> & Hall).
    apply dropbox_entry_line in Hl as (e & Hent & ->).
    exists (e :: l). split; [|now constructor].
    rewrite str_app_assoc. reflexivity.
Qed.

(** C7 (amended): whenever a provider's [listdir] returns, its text is one
    line per entry, each [ls -l]-style with uid and gid 0, the permission
    string [drwxr-xr-x] for directories and [-rw-r--r--] for files, and
    ended by CRLF.  The Dropbox provider reports size 0 for every folder;
    the file-system provider reports for every entry, directories
    included, the [st_size] that [os.stat] gives. *)
Theorem C7_listing_lines :
  (forall self out,
      snd (FileSystemProvider.listdir self) = Ok out ->
      exists d l,
        FileSystemProvider.normalize_path self
          (Some (FileSystemProvider.working_dir self)) = Ok d
        /\ OS.listdir (FileSystemProvider.os self) d = Ok (map l_name l)
        /\ out = listing_of l
        /\ Forall (fs_entry self) l)
  /\ (forall list_folder now working_dir out,
         DropboxProvider.listdir list_folder now working_dir = Ok out ->
         exists l,
           out = listing_of l
           /\ Forall2 (dropbox_entry (tm_year (gmtime now)))
                (DropboxProvider.entries
                   (snd (list_folder (if String.eqb working_dir "/"
                                      then EmptyString else working_dir)))) l
           /\ Forall (fun e => l_is_dir e = true -> l_size e = 0%Z) l).
Proof.
  split.
  - intros self out. unfold FileSystemProvider.listdir. cbn [snd]. unfold rbind at 1.
    destruct (FileSystemProvider.normalize_path self _) as [d|] eqn:Hd; [|intros [=]].
    unfold rbind at 1.
    destruct (OS.listdir (FileSystemProvider.os self) d) as [fl|] eqn:Hfl; [|intros [=]].
    intros Hloop. apply fs_listdir_loop in Hloop as (l & -> & Hnames & Hall).
    exists d, l. rewrite Hnames. repeat split; auto.
  - intros list_folder now wd out. unfold DropboxProvider.listdir.
    destruct (list_folder _) as [code data]. cbn [snd].
    destruct (negb (code =? 200)%Z); [intros [=]|].
    intros Hloop. apply dropbox_listdir_loop in Hloop as (l & -> & Hall).
    exists l. repeat split; auto.
    clear -Hall. induction Hall as [|f e fl l He _ IH]; constructor; [|exact IH].
    intros Hdir. now apply He.
Qed.

End ListingFacts.

Lemma C7_witness :
  exists d l,
    FileSystemProvider.normalize_path Examples.srv_at_root
      (Some (FileSystemProvider.working_dir Examples.srv_at_root)) = Ok d
    /\ OS.listdir (FileSystemProvider.os Examples.srv_at_root) d = Ok (map l_name l)
    /\ "-rw-r--r-- 1 0 0 5 %b %e %H:%M@100 a.txt" +:+ Server.crlf_str
       +:+ "drwxr-xr-x 2 0 0 4096 %b %e %H:%M@200 pub" +:+ Server.crlf_str
       = listing_of l
    /\ Forall (fs_entry Examples.srv_at_root) l.
Proof.
  apply (proj1 C7_listing_lines Examples.srv_at_root). vm_compute. reflexivity.
Defined.

(** C7 (counterexample): the listing of a directory that holds the file
    [a.txt] and the directory [pub], whose [st_size] is 4096: the line of
    the directory reports 4096, not 0. *)
Lemma C7_counterexample :
  OS.isdir (FileSystemProvider.os Examples.srv_at_root) "/srv/pub" = true
  /\ snd (FileSystemProvider.listdir Examples.srv_at_root)
     = Ok (listing_of
             [ {| l_is_dir := false; l_size := 5;
                  l_time := "%b %e %H:%M@100"; l_name := "a.txt" |};
               {| l_is_dir := true; l_size := 4096;
                  l_time := "%b %e %H:%M@200"; l_name := "pub" |} ]).
Proof. split; vm_compute; reflexivity. Qed.

(** ** Storing and fetching a file *)

Section StoreFetch.
Import FileSystemProvider.

Lemma extends_refl o : OS.extends o o.
Proof. split; auto. Qed.

Lemma extends_trans o1 o2 o3 :
  OS.extends o1 o2 -> OS.extends o2 o3 -> OS.extends o1 o3.
Proof. intros [C1 D1] [C2 D2]. split; [now rewrite C2 | auto]. Qed.

Lemma dir_at_true o k :
  OS.dir_at o k = true -> exists sz m, OS.files o !! k = Some (OS.Directory sz m).
Proof.
  unfold OS.dir_at. destruct (OS.files o !! k) as [[c m|sz m]|]; [discriminate| |discriminate].
  eauto.
Qed.

Lemma walk_stable o o' cur c k :
  (forall k, OS.dir_at o k = true -> OS.dir_at o' k = true) ->
  OS.walk o cur c = Ok k -> OS.walk o' cur c = Ok k.
Proof.
  intros Hd. unfold OS.walk.
  destruct (OS.files o !! cur) as [[? ?|sz m]|] eqn:Hcur; [discriminate| |discriminate].
  destruct (dir_at_true o' cur) as (sz' & m' & ->); [|auto].
  apply Hd. unfold OS.dir_at. now rewrite Hcur.
Qed.

Lemma walk_all_stable o o' comps : forall cur k,
  (forall k, OS.dir_at o k = true -> OS.dir_at o' k = true) ->
  OS.walk_all o cur comps = Ok k -> OS.walk_all o' cur comps = Ok k.
Proof.
  induction comps as [|c comps IH]; intros cur k Hd; [auto|].
  cbn [OS.walk_all]. destruct (OS.walk o cur c) as [k1|] eqn:Hw; [|discriminate].
  rewrite (walk_stable o o' cur c k1 Hd Hw). cbn [rbind]. now apply IH.
Qed.

(** A path goes on denoting the same place when directories are only
    added, unless it ends with a slash and a file has appeared there. *)
Lemma resolve_stable o o' path key :
  OS.extends o o' ->
  (OS.ends_with_slash path = true ->
   forall c m, OS.files o' !! key <> Some (OS.File c m)) ->
  OS.resolve o path = Ok key -> OS.resolve o' path = Ok key.
Proof.
  intros [Hcwd Hd] Hfile. unfold OS.resolve. destruct path as [|a t]; [auto|].
  rewrite Hcwd.
  destruct (OS.walk_all o _ _) as [k|] eqn:Hw; [|discriminate].
  rewrite (walk_all_stable o o' _ _ _ Hd Hw). cbn [rbind].
  destruct (OS.ends_with_slash (String a t)).
  - destruct (OS.files o !! k) as [[? ?|? ?]|]; [discriminate| |]; intros [= <-];
      (destruct (OS.files o' !! k) as [[c m|? ?]|] eqn:Hk;
       [now contradiction (Hfile eq_refl c m) | reflexivity | reflexivity]).
  - auto.
Qed.

Lemma resolve_no_slash o o' path key :
  OS.extends o o' -> OS.ends_with_slash path = false ->
  OS.resolve o path = Ok key -> OS.resolve o' path = Ok key.
Proof.
  intros He Hs. apply resolve_stable; [exact He|]. rewrite Hs. discriminate.
Qed.

Lemma extends_put_file o key c m :
  OS.dir_at o key = false ->
  OS.extends o (OS.set_files (<[key := OS.File c m]> (OS.files o)) o).
Proof.
  intros Hk. split; [reflexivity|]. intros k Hdir. unfold OS.dir_at in *. cbn.
  destruct (decide (key = k)) as [<-|Hne]; [now rewrite Hdir in Hk|].
  now rewrite lookup_insert_ne.
Qed.

Lemma write_holds o key content data :
  OS.holds o key content ->
  OS.holds (OS.write key data o) key (content ++ data)
  /\ OS.extends o (OS.write key data o).
Proof.
  intros [m Hm]. unfold OS.write. rewrite Hm. split.
  - exists (OS.clock o). cbn. apply lookup_insert_eq.
  - apply extends_put_file. unfold OS.dir_at. now rewrite Hm.
Qed.

Lemma open_wb_holds o path key o' :
  OS.open_wb o path = Ok (key, o') ->
  OS.resolve o path = Ok key /\ OS.ends_with_slash path = false
  /\ OS.holds o' key [] /\ OS.extends o o'.
Proof.
  unfold OS.open_wb. destruct (OS.resolve o path) as [k|]; [|intros [=]].
  assert (OS.dir_at o k = false ->
          (if OS.ends_with_slash path then Raise OS.is_a_directory
           else if OS.parent_is_dir o k
                then Ok (k, OS.set_files (<[k := OS.File [] (OS.clock o)]> (OS.files o)) o)
                else Raise OS.no_such_file) = Ok (key, o') ->
          Ok k = Ok key /\ OS.ends_with_slash path = false
          /\ OS.holds o' key [] /\ OS.extends o o') as Hgo.
  { intros Hk. destruct (OS.ends_with_slash path); [intros [=]|].
    destruct (OS.parent_is_dir o k); intros [= <- <-].
    split; [reflexivity|]. split; [reflexivity|]. split.
    - exists (OS.clock o). cbn. apply lookup_insert_eq.
    - now apply extends_put_file. }
  unfold OS.dir_at in Hgo.
  destruct (OS.files o !! k) as [[c m|sz m]|]; [|intros [=]|]; now apply Hgo.
Qed.

Lemma read_file_holds o path key content :
  OS.resolve o path = Ok key -> OS.holds o key content ->
  OS.read_file o path = Ok content.
Proof.
  intros Hr [m Hm]. unfold OS.read_file, OS.find. rewrite Hr. cbn [rbind]. now rewrite Hm.
Qed.

(** The loop of [save_file] fed with prepared chunks: the non-empty
    chunks up to the first empty one are written in order. *)
Lemma save_loop_chunks chunks : forall fuel rest key i o content,
  Forall (fun c => c <> []) chunks ->
  length chunks < fuel ->
  OS.holds o key content ->
  exists o',
    save_loop fuel Examples.next_chunk (chunks ++ [] :: rest) key i o = Some (o', rest)
    /\ OS.holds o' key (content ++ concat chunks)
    /\ OS.extends o o'.
Proof.
  induction chunks as [|c chunks IH]; intros fuel rest key i o content Hne Hfuel Hh.
  - destruct fuel as [|fuel]; [cbn in Hfuel; lia|]. exists o. cbn.
    rewrite app_nil_r. split; [reflexivity|]. split; [exact Hh | apply extends_refl].
  - destruct fuel as [|fuel]; [cbn in Hfuel; lia|].
    apply Forall_cons in Hne as [Hc Hne].
    destruct (write_holds o key content c Hh) as [Hh' Hcwd].
    destruct (IH fuel rest key (S i) (OS.write key c o) (content ++ c) Hne
                ltac:(cbn in Hfuel; lia) Hh') as (o' & Hloop & Hfin & Hcwd').
    exists o'. split; [|split].
    + cbn [app save_loop Examples.next_chunk].
      destruct c as [|b c]; [now contradiction Hc|]. exact Hloop.
    + cbn [concat]. now rewrite app_assoc.
    + now apply (extends_trans _ _ _ Hcwd).
Qed.

Lemma normalize_path_set_os o self path :
  normalize_path (set_os o self) path = normalize_path self path.
Proof. reflexivity. Qed.

(** C9: a payload handed to [save_file] as successive non-empty chunks
    followed by an empty chunk -- no chunk at all for the empty payload --
    is written to the file, provided the file can be opened for writing;
    [get_file] on the same name then returns exactly the concatenation of
    the chunks. *)
Theorem C9_save_then_get_roundtrip (self : t) (f : string) (chunks : list bytes)
    (path : string) (fuel : nat) :
  Forall (fun c => c <> []) chunks ->
  normalize_path self (Some f) = Ok path ->
  is_ok (OS.open_wb (os self) path) = true ->
  length chunks < fuel ->
  exists self',
    save_file_fuel fuel (Some f) Examples.next_chunk (chunks ++ [[]]) self
    = Some (self', [], Ok tt)
    /\ snd (get_file (Some f) self') = Ok (concat chunks).
Proof.
  intros Hne Hpath Hopen Hfuel. unfold save_file_fuel. rewrite Hpath.
  destruct (OS.open_wb (os self) path) as [[key o]|] eqn:Ho; [|discriminate Hopen].
  apply open_wb_holds in Ho as (Hres & Hslash & Hh & Hcwd).
  destruct (save_loop_chunks chunks fuel [] key 0 o [] Hne Hfuel Hh)
    as (o' & Hloop & Hfin & Hcwd').
  cbv beta iota. exists (set_os o' self).
  match goal with
  | |- context [match ?x with Some _ => _ | None => _ end] =>
      replace x with (Some (o', @nil bytes)) by (symmetry; exact Hloop)
  end.
  split; [reflexivity|].
  unfold get_file. cbn [snd]. rewrite normalize_path_set_os, Hpath. cbn [rbind os set_os].
  apply (read_file_holds o' path key); [|exact Hfin].
  apply (resolve_no_slash (os self)); [|exact Hslash|exact Hres].
  now apply (extends_trans _ _ _ Hcwd).
Qed.

End StoreFetch.

Lemma C9_witness :
  exists self',
    FileSystemProvider.save_file_fuel 3 (Some "new.bin") Examples.next_chunk
      ([["a"%byte; "b"%byte]; ["c"%byte]] ++ [[]]) Examples.srv_at_root
    = Some (self', [], Ok tt)
    /\ snd (FileSystemProvider.get_file (Some "new.bin") self')
       = Ok (concat [["a"%byte; "b"%byte]; ["c"%byte]]).
Proof.
  apply (C9_save_then_get_roundtrip Examples.srv_at_root "new.bin"
           [["a"%byte; "b"%byte]; ["c"%byte]] "/srv/new.bin" 3).
  - repeat constructor; discriminate.
  - vm_compute. reflexivity.
  - vm_compute. reflexivity.
  - cbn. lia.
Defined.

(** ** Chunks read from a data connection *)

Section SocketChunks.
Import FileSystemProvider.

Lemma take_drop_N s : forall k, take_N k s ++ drop_N k s = s.
Proof.
  induction s as [|b s IH]; intros k; [reflexivity|].
  cbn [take_N drop_N]. destruct (k =? 0)%N; [reflexivity|].
  cbn [app]. now rewrite IH.
Qed.

Lemma drop_N_length s : forall k, length (drop_N k s) <= length s.
Proof.
  induction s as [|b s IH]; intros k; [reflexivity|].
  cbn [drop_N]. destruct (k =? 0)%N; [reflexivity|].
  specialize (IH (N.pred k)). cbn. lia.
Qed.

(** Once [recv] has given what it could of [k] bytes, asking for the
    remainder gives nothing more. *)
Lemma take_N_remainder s : forall k,
  take_N (k - N.of_nat (length (take_N k s))) (drop_N k s) = []
  /\ drop_N (k - N.of_nat (length (take_N k s))) (drop_N k s) = drop_N k s.
Proof.
  induction s as [|b s IH]; intros k; [split; reflexivity|].
  cbn [take_N drop_N]. destruct (k =? 0)%N eqn:Hk.
  - apply N.eqb_eq in Hk as ->. cbn [length take_N drop_N N.of_nat N.sub N.eqb].
    split; reflexivity.
  - apply N.eqb_neq in Hk. cbn [length].
    replace (k - N.of_nat (S (length (take_N (N.pred k) s))))%N
      with (N.pred k - N.of_nat (length (take_N (N.pred k) s)))%N by lia.
    apply IH.
Qed.

(** [read_n_loop_total]: the loop of [read_n_till_close] ends within
    [length client + 1] rounds, and the function returns the first [n]
    unread bytes, or all of them when there are fewer. *)
Lemma read_n_loop_total client n :
  read_n_loop (S (length client)) client n [] = Some (take_N n client, drop_N n client).
Proof.
  cbn [read_n_loop recv length N.of_nat]. rewrite N.sub_0_r.
  destruct (take_N n client) as [|b t] eqn:Ht.
  - reflexivity.
  - destruct client as [|c client]; [discriminate Ht|].
    change (length (c :: client)) with (S (length client)).
    change ([] ++ b :: t) with (b :: t). rewrite <- Ht.
    cbn [read_n_loop]. unfold recv.
    destruct (take_N_remainder (c :: client) n) as [-> ->]. reflexivity.
Qed.

Lemma read_n_till_close_spec client n :
  read_n_till_close client n = (take_N n client, drop_N n client).
Proof. unfold read_n_till_close. now rewrite read_n_loop_total. Qed.

Lemma chunk_size_pos : (chunk_size =? 0)%N = false.
Proof. reflexivity. Qed.

(** The loop of [save_file] fed from a connection writes everything the
    peer sends before closing. *)
Lemma save_loop_socket fuel : forall conn key i o content,
  OS.holds o key content ->
  length conn < fuel ->
  exists o',
    save_loop fuel (fun n c => read_n_till_close c n) conn key i o = Some (o', [])
    /\ OS.holds o' key (content ++ conn)
    /\ OS.extends o o'.
Proof.
  induction fuel as [|fuel IH]; intros conn key i o content Hh Hlen; [lia|].
  cbn [save_loop]. rewrite read_n_till_close_spec.
  destruct conn as [|b conn].
  - exists o. cbn. rewrite app_nil_r. split; [reflexivity|].
    split; [exact Hh | apply extends_refl].
  - cbn [take_N drop_N]. rewrite chunk_size_pos.
    destruct (write_holds o key content (b :: take_N (N.pred chunk_size) conn) Hh)
      as [Hh' Hcwd].
    destruct (IH (drop_N (N.pred chunk_size) conn) key (S i) _ _ Hh') as (o' & Hl & Hf & Hc).
    { pose proof (drop_N_length conn (N.pred chunk_size)). cbn in Hlen. lia. }
    exists o'. split; [exact Hl|]. split; [|now apply (extends_trans _ _ _ Hcwd)].
    rewrite <- app_assoc in Hf. cbn [app] in Hf. now rewrite take_drop_N in Hf.
Qed.

(** [save_file_socket_total]: as the server calls it, [save_file] returns
    (or raises) within the rounds it is given. *)
Lemma save_file_socket_total f conn self :
  save_file_fuel (S (length conn)) f (fun n c => read_n_till_close c n) conn self
  = Some (save_file f (fun n c => read_n_till_close c n) conn self).
Proof.
  unfold save_file.
  destruct (save_file_fuel (S (length conn)) f (fun n c => read_n_till_close c n)
              conn self) as [r|] eqn:Hs; [reflexivity|].
  exfalso. unfold save_file_fuel in Hs.
  destruct (normalize_path self f) as [path|]; [|discriminate Hs].
  destruct (OS.open_wb (os self) path) as [[key o]|] eqn:Ho; [|discriminate Hs].
  apply open_wb_holds in Ho as (_ & _ & Hh & _).
  destruct (save_loop_socket (S (length conn)) conn key 0 o [] Hh) as (o' & Hl & _);
    [lia|].
  cbv beta iota in Hs.
  match type of Hs with
  | match ?x with Some _ => _ | None => _ end = _ =>
      replace x with (Some (o', @nil byte)) in Hs by (symmetry; exact Hl)
  end.
  discriminate Hs.
Qed.

(** A file stored from a data connection and fetched again is what the
    peer sent, whatever its length. *)
Lemma stor_then_retr_roundtrip self f path payload :
  normalize_path self (Some f) = Ok path ->
  is_ok (OS.open_wb (os self) path) = true ->
  exists self',
    save_file (Some f) (fun n c => read_n_till_close c n) payload self = (self', [], Ok tt)
    /\ snd (get_file (Some f) self') = Ok payload.
Proof.
  intros Hpath Hopen.
  pose proof (save_file_socket_total (Some f) payload self) as Htot.
  unfold save_file_fuel in Htot. rewrite Hpath in Htot.
  destruct (OS.open_wb (os self) path) as [[key o]|] eqn:Ho; [|discriminate Hopen].
  apply open_wb_holds in Ho as (Hres & Hslash & Hh & Hcwd).
  destruct (save_loop_socket (S (length payload)) payload key 0 o [] Hh)
    as (o' & Hl & Hfin & Hcwd'); [lia|].
  cbv beta iota in Htot.
  match type of Htot with
  | match ?x with Some _ => _ | None => _ end = _ =>
      replace x with (Some (o', @nil byte)) in Htot by (symmetry; exact Hl)
  end.
  injection Htot as Htot. exists (set_os o' self). split; [now rewrite <- Htot|].
  unfold get_file. cbn [snd]. rewrite normalize_path_set_os, Hpath. cbn [rbind os set_os].
  apply (read_file_holds o' path key); [|exact Hfin].
  apply (resolve_no_slash (os self)); [|exact Hslash|exact Hres].
  now apply (extends_trans _ _ _ Hcwd).
Qed.

End SocketChunks.

(** ** The working directory of the file-system provider *)

Section WorkingDir.
Import FileSystemProvider Calls.
Context `{TimeLib}.

Lemma str_drop_app (a b : string) : str_drop (String.length a) (a +:+ b) = b.
Proof. induction a as [|x a IH]; [now destruct b|]. exact IH. Qed.

Lemma prefix_slashes a s :
  String.prefix "//" (String a s) = true ->
  a = "/"%char /\ exists s', s = String "/" s'.
Proof.
  cbn [String.prefix]. destruct (ascii_dec "/" a) as [<-|]; [|intros [=]].
  destruct s as [|b s]; [intros [=]|]. cbn [String.prefix].
  destruct (ascii_dec "/" b) as [<-|]; [|intros [=]]. eauto.
Qed.



Lemma same_dirs_set_os o self : same_dirs (set_os o self) self.
Proof. split; reflexivity. Qed.

Lemma same_dirs_refl self : same_dirs self self.
Proof. split; reflexivity. Qed.

Lemma save_file_fuel_dirs {Src} fuel f (g : chunk_fn Src) conn self r :
  save_file_fuel fuel f g conn self = Some r -> same_dirs (fst (fst r)) self.
Proof.
  unfold save_file_fuel.
  destruct (normalize_path self f) as [path|]; [|intros [= <-]; apply same_dirs_refl].
  destruct (OS.open_wb (os self) path) as [[key o]|];
    [|intros [= <-]; apply same_dirs_refl].
  destruct (save_loop fuel g conn key 0 o) as [[o' c]|]; [|intros [=]].
  intros [= <-]. apply same_dirs_set_os.
Qed.

Lemma change_work_dir_cases a self :
  (exists new_dir,
      normalize_path self a = Ok new_dir
      /\ OS.isdir (os self) new_dir = true
      /\ change_work_dir a self
         = (set_working_dir ("/" +:+ str_drop (String.length (root_dir self)) new_dir) self,
            Ok true))
  \/ (fst (change_work_dir a self) = self
      /\ snd (change_work_dir a self) <> Ok true).
Proof.
  unfold change_work_dir.
  destruct (normalize_path self a) as [new_dir|e]; [|right; split; [reflexivity|discriminate]].
  destruct (OS.isdir (os self) new_dir) eqn:Hd.
  - left. exists new_dir. auto.
  - right. split; [reflexivity|discriminate].
Qed.

(** A call that is not a successful [change_work_dir] leaves both
    attributes as they are. *)
Lemma perform_same_dirs c conn self :
  cwd_succeeds c self = false -> same_dirs (perform c conn self) self.
Proof.
  destruct c as [|a| |a|a|a|a b|a|a|a]; cbn [perform cwd_succeeds]; intros Hc;
    try apply same_dirs_refl.
  - destruct (change_work_dir_cases a self) as [(nd & _ & _ & Heq)|[-> _]];
      [|apply same_dirs_refl].
    rewrite Heq in Hc. discriminate Hc.
  - unfold save_file.
    destruct (save_file_fuel (S (length conn)) a (fun n c => read_n_till_close c n)
                conn self) as [r|] eqn:Hs; [|apply same_dirs_refl].
    now apply save_file_fuel_dirs in Hs.
  - unfold rename_file. destruct (rbind _ _); [apply same_dirs_set_os|apply same_dirs_refl].
  - unfold del_file. destruct (rbind _ _); [apply same_dirs_set_os|apply same_dirs_refl].
  - unfold mkdir. destruct (rbind _ _); [apply same_dirs_set_os|apply same_dirs_refl].
  - unfold rmdir. destruct (rbind _ _); [apply same_dirs_set_os|apply same_dirs_refl].
Qed.

Lemma perform_cwd_rooted c conn self :
  cwd_succeeds c self = true -> rooted (perform c conn self).
Proof.
  destruct c as [|a| |a|a|a|a b|a|a|a]; cbn [perform cwd_succeeds]; try discriminate.
  destruct (change_work_dir_cases a self) as [(nd & _ & _ & Heq)|[_ Hne]].
  - rewrite Heq. intros _. eexists. reflexivity.
  - destruct (snd (change_work_dir a self)) as [[]|]; [now contradiction Hne| |];
      discriminate.
Qed.

Lemma perform_rooted c conn self : rooted self -> rooted (perform c conn self).
Proof.
  intros Hr. destruct (cwd_succeeds c self) eqn:Hc.
  - now apply perform_cwd_rooted.
  - destruct (perform_same_dirs c conn self Hc) as [_ Hwd].
    destruct Hr as [rel Hrel]. exists rel. now rewrite Hwd.
Qed.

Lemma perform_all_rooted l : forall self, rooted self -> rooted (perform_all l self).
Proof.
  induction l as [|[c conn] l IH]; intros self Hr; [exact Hr|].
  cbn [perform_all]. apply IH. now apply perform_rooted.
Qed.

Lemma perform_root_dir c conn self : root_dir (perform c conn self) = root_dir self.
Proof.
  destruct (cwd_succeeds c self) eqn:Hc.
  - destruct c as [|a| |a|a|a|a b|a|a|a]; cbn [cwd_succeeds] in Hc; try discriminate.
    cbn [perform].
    destruct (change_work_dir_cases a self) as [(nd & _ & _ & ->)|[-> _]]; reflexivity.
  - apply perform_same_dirs. exact Hc.
Qed.


Lemma perform_all_root_dir l : forall self,
  root_dir (perform_all l self) = root_dir self.
Proof.
  induction l as [|[c conn] l IH]; intros self; [reflexivity|].
  cbn [perform_all]. now rewrite IH, perform_root_dir.
Qed.





End WorkingDir.



(* ===================================================================== *)
(** * Further properties of the code *)
(* ===================================================================== *)

(** ** Lines cut short, and chunks from a segmented connection *)

Lemma read_loop_truncated content : forall buf prv,
  has_crlf content = false ->
  (prv = true -> hd_error content <> Some LF) ->
  length buf + length content <= S max_buf_len ->
  buf ++ content <> [] ->
  read_loop content buf prv = (Raise termination_error, []).
Proof.
  induction content as [|c t IH]; intros buf prv Hfree Hprv Hlen Hne.
  - cbn [read_loop]. rewrite app_nil_r in Hne.
    destruct buf; [now contradiction Hne | reflexivity].
  - apply has_crlf_cons_false in Hfree as [Hfree Hnext].
    cbn [read_loop].
    assert ((max_buf_len <? length buf) = false) as ->.
    { apply Nat.ltb_ge. cbn in Hlen. lia. }
    assert (forall p, (p = true -> hd_error t <> Some LF) ->
              read_loop t (buf ++ [c]) p = (Raise termination_error, [])) as Hrec.
    { intros p Hp. apply IH; [exact Hfree | exact Hp | |].
      - rewrite length_app. cbn in *. lia.
      - rewrite <- app_assoc. cbn. now destruct buf. }
    destruct (Byte.eqb c CR) eqn:Hc.
    + apply byte_eqb_eq in Hc. apply Hrec. intros _. now apply Hnext.
    + assert (prv && Byte.eqb c LF = false) as ->.
      { destruct prv; [|reflexivity]. cbn. destruct (Byte.eqb c LF) eqn:Hl; [|reflexivity].
        apply byte_eqb_eq in Hl. subst c. exfalso. now apply Hprv. }
      apply Hrec. intros [=].
Qed.

(** X1: when the peer closes the control connection in the middle of a
    line -- some bytes were received, at most 1001, and no CRLF -- the
    reader raises [Unexpected socket termination]; at the top of the loop
    this ends [command_loop] without any reply. *)
Theorem line_cut_short_ends_session {P : Type} `{ProviderBase P}
    (content : bytes) (fuel : nat) (s : Server.session P) :
  content <> [] ->
  has_crlf content = false ->
  length content <= S max_buf_len ->
  Server.client s = content ->
  read_till_crlf content = (Raise termination_error, [])
  /\ Server.loop (S fuel) s
     = Some (Server.set_client [] s, Server.Escaped termination_error).
Proof.
  intros Hne Hfree Hlen Hc.
  assert (read_till_crlf content = (Raise termination_error, [])) as Hread.
  { unfold read_till_crlf.
    rewrite read_loop_truncated; [reflexivity | exact Hfree | intros [=] | cbn; lia | exact Hne]. }
  split; [exact Hread|].
  cbn [Server.loop]. unfold Server.read_line. now rewrite Hc, Hread.
Qed.

Lemma line_cut_short_witness :
  read_till_crlf (String.list_byte_of_string "NOO") = (Raise termination_error, [])
  /\ Server.loop 1 (Server.new_session (String.list_byte_of_string "NOO") Examples.srv [])
     = Some (Server.set_client []
               (Server.new_session (String.list_byte_of_string "NOO") Examples.srv []),
             Server.Escaped termination_error).
Proof.
  apply (line_cut_short_ends_session (String.list_byte_of_string "NOO") 0
           (Server.new_session (String.list_byte_of_string "NOO") Examples.srv []));
    [discriminate | reflexivity | vm_compute; lia | reflexivity].
Defined.

Section SegmentFacts.

Lemma take_N_length_le s : forall k, (N.of_nat (length (take_N k s)) <= k)%N.
Proof.
  induction s as [|b s IH]; intros k; [cbn; lia|].
  cbn [take_N]. destruct (k =? 0)%N eqn:Hk; [cbn; lia|].
  apply N.eqb_neq in Hk. specialize (IH (N.pred k)). cbn [length]. lia.
Qed.

Lemma drop_N_zero s : drop_N 0 s = s.
Proof. now destruct s. Qed.

Lemma take_N_zero s : take_N 0 s = [].
Proof. now destruct s. Qed.

(** Taking from two pieces: what is taken of the first, then the
    remainder of the count from what is left. *)
Lemma take_N_app a : forall k b,
  take_N k (a ++ b)
  = take_N k a ++ take_N (k - N.of_nat (length (take_N k a))) (drop_N k a ++ b).
Proof.
  induction a as [|x a IH]; intros k b.
  - cbn [app take_N drop_N length N.of_nat]. now rewrite N.sub_0_r.
  - cbn [app take_N drop_N]. destruct (k =? 0)%N eqn:Hk.
    + apply N.eqb_eq in Hk as ->. cbn [app length N.of_nat N.sub].
      now rewrite take_N_zero.
    + apply N.eqb_neq in Hk. cbn [app length].
      replace (k - N.of_nat (S (length (take_N (N.pred k) a))))%N
        with (N.pred k - N.of_nat (length (take_N (N.pred k) a)))%N by lia.
      now rewrite IH.
Qed.

Lemma drop_N_app a : forall k b,
  drop_N k (a ++ b)
  = drop_N (k - N.of_nat (length (take_N k a))) (drop_N k a ++ b).
Proof.
  induction a as [|x a IH]; intros k b.
  - cbn [app take_N drop_N length N.of_nat]. now rewrite N.sub_0_r.
  - cbn [app take_N drop_N]. destruct (k =? 0)%N eqn:Hk.
    + apply N.eqb_eq in Hk as ->. cbn [app length N.of_nat N.sub].
      now rewrite drop_N_zero.
    + apply N.eqb_neq in Hk. cbn [length].
      replace (k - N.of_nat (S (length (take_N (N.pred k) a))))%N
        with (N.pred k - N.of_nat (length (take_N (N.pred k) a)))%N by lia.
      now rewrite IH.
Qed.

Lemma segments_recv k seg segs :
  Forall (fun seg => seg <> []) segs ->
  exists client',
    Segments.recv k (seg :: segs) = (take_N k seg, client')
    /\ concat client' = drop_N k seg ++ concat segs
    /\ Forall (fun seg => seg <> []) client'.
Proof.
  intros Hne. unfold Segments.recv. destruct (drop_N k seg) as [|d ds] eqn:Hd.
  - exists segs. auto.
  - exists ((d :: ds) :: segs). repeat split; auto.
Qed.

Lemma segments_loop fuel : forall segs n buf,
  Forall (fun seg => seg <> []) segs ->
  length (concat segs) < fuel ->
  (N.of_nat (length buf) <= n)%N ->
  exists rest,
    Segments.read_n_loop fuel segs n buf
    = Some (buf ++ take_N (n - N.of_nat (length buf)) (concat segs), rest)
    /\ concat rest = drop_N (n - N.of_nat (length buf)) (concat segs)
    /\ Forall (fun seg => seg <> []) rest.
Proof.
  induction fuel as [|fuel IH]; intros segs n buf Hne Hfuel Hbuf; [lia|].
  cbn [Segments.read_n_loop]. destruct segs as [|seg segs].
  - exists []. cbn. rewrite app_nil_r. auto.
  - apply Forall_cons in Hne as [Hseg Hne]. cbn [concat] in Hfuel |- *.
    destruct (segments_recv (n - N.of_nat (length buf)) seg segs Hne)
      as (client' & Hrecv & Hcat & Hne').
    set (k := (n - N.of_nat (length buf))%N) in *.
    destruct (take_N k seg) as [|c cs] eqn:Ht.
    + assert (k = 0%N) as Hk.
      { destruct seg as [|b seg]; [now contradiction Hseg|].
        cbn [take_N] in Ht. destruct (k =? 0)%N eqn:Hk; [|discriminate Ht].
        now apply N.eqb_eq in Hk. }
      exists client'. rewrite Hrecv. split; [|split; [|exact Hne']].
      * now rewrite Hk, take_N_zero, app_nil_r.
      * rewrite Hcat, Hk. now rewrite !drop_N_zero.
    + pose proof (take_N_length_le seg k) as Hle.
      assert (length (take_N k seg) + length (drop_N k seg) = length seg) as Hsplit.
      { rewrite <- length_app. now rewrite take_drop_N. }
      rewrite Ht in Hle, Hsplit.
      destruct (IH client' n (buf ++ c :: cs) Hne') as (rest & Hl & Hr & Hf).
      { rewrite Hcat, length_app. rewrite length_app in Hfuel.
        cbn [length] in Hsplit. lia. }
      { rewrite length_app. unfold k in Hle. lia. }
      replace (n - N.of_nat (length (buf ++ c :: cs)))%N
        with (k - N.of_nat (length (c :: cs)))%N in *
        by (rewrite length_app; unfold k; lia).
      exists rest. rewrite Hrecv, Hl.
      split; [|split; [|exact Hf]].
      * f_equal. f_equal. rewrite <- app_assoc. f_equal.
        rewrite Hcat, (take_N_app seg k (concat segs)), Ht. reflexivity.
      * rewrite Hr, Hcat, (drop_N_app seg k (concat segs)), Ht. reflexivity.
Qed.

(** X2: however the peer's bytes are cut into segments, and so whatever
    each [recv] returns, [read_n_till_close(client, n)] returns the first
    [n] bytes the peer sends -- all of them when the peer closes before --
    and leaves the rest unread. *)
Theorem read_n_till_close_any_segmentation (segs : list bytes) (n : N) (fuel : nat) :
  Forall (fun seg => seg <> []) segs ->
  length (concat segs) < fuel ->
  exists rest,
    Segments.read_n_till_close fuel segs n = Some (take_N n (concat segs), rest)
    /\ concat rest = drop_N n (concat segs)
    /\ N.of_nat (length (take_N n (concat segs)))
       = N.min n (N.of_nat (length (concat segs))).
Proof.
  intros Hne Hfuel. unfold Segments.read_n_till_close.
  destruct (segments_loop fuel segs n [] Hne Hfuel) as (rest & Hl & Hr & _);
    [cbn; lia|].
  cbn [length N.of_nat app] in Hl, Hr. rewrite N.sub_0_r in Hl, Hr.
  exists rest. split; [exact Hl | split; [exact Hr|]].
  clear. generalize (concat segs). intros s. revert n.
  induction s as [|b s IH]; intros n; [cbn; lia|].
  cbn [take_N]. destruct (n =? 0)%N eqn:Hn.
  - apply N.eqb_eq in Hn as ->. cbn. lia.
  - apply N.eqb_neq in Hn. cbn [length]. specialize (IH (N.pred n)). lia.
Qed.

End SegmentFacts.

Lemma read_n_till_close_witness :
  exists rest,
    Segments.read_n_till_close 4
      [String.list_byte_of_string "ab"; String.list_byte_of_string "c"] 2
    = Some (take_N 2 (concat [String.list_byte_of_string "ab";
                               String.list_byte_of_string "c"]), rest)
    /\ concat rest
       = drop_N 2 (concat [String.list_byte_of_string "ab";
                            String.list_byte_of_string "c"])
    /\ N.of_nat (length (take_N 2 (concat [String.list_byte_of_string "ab";
                                            String.list_byte_of_string "c"])))
       = N.min 2 (N.of_nat (length (concat [String.list_byte_of_string "ab";
                                             String.list_byte_of_string "c"]))).
Proof.
  apply (read_n_till_close_any_segmentation
           [String.list_byte_of_string "ab"; String.list_byte_of_string "c"] 2 4).
  - repeat constructor; discriminate.
  - vm_compute. lia.
Defined.

(** ** Lines and commands *)

Section LineFacts.
Import Provider Server.
Context {P : Type} `{ProviderBase P}.

Lemma replies_app (l1 l2 : list event) : replies (l1 ++ l2) = replies l1 ++ replies l2.
Proof. unfold replies. apply omap_app. Qed.

(** X3: a line that is empty -- a bare CRLF sent by a client that is
    still connected -- is taken for the peer's disconnect: the loop is left
    at once, no reply is sent, and the lines that follow stay unread. *)
Theorem blank_line_ends_session fuel (s : Server.session P) rest :
  client s = crlf ++ rest ->
  loop (S fuel) s = Some (clean_up EmptyString (set_client rest s), Returned)
  /\ replies (log (clean_up EmptyString (set_client rest s))) = replies (log s)
  /\ client (clean_up EmptyString (set_client rest s)) = rest.
Proof.
  intros Hc.
  assert (read_till_crlf (client s) = (Ok EmptyString, rest)) as Hread.
  { rewrite Hc. change (crlf ++ rest) with ([] ++ crlf ++ rest).
    rewrite read_till_crlf_fits;
      [reflexivity | reflexivity | unfold max_buf_len; cbn [length]; lia]. }
  split; [cbn [loop]; unfold read_line; now rewrite Hread|].
  unfold clean_up. cbn [str_truthy passive_client set_client].
  destruct (passive_client s) as [h|]; [|split; reflexivity].
  unfold sock_close. cbn [sockets set_client].
  destruct (sockets s !! h); cbn; [|split; reflexivity].
  rewrite replies_app. cbn. now rewrite app_nil_r.
Qed.

Lemma parse_command_line cmd args :
  str_contains_char " " cmd = false ->
  parse (command_line cmd args) = Ok (cmd, args).
Proof.
  intros Hcmd. unfold parse. destruct args as [a|]; cbn [command_line].
  - assert (str_contains_char " " (cmd +:+ " " +:+ a) = true
            /\ str_split1 " " (cmd +:+ " " +:+ a) = [cmd; a]) as [-> ->];
      [|reflexivity].
    induction cmd as [|c cmd IH]; [split; reflexivity|].
    cbn [str_contains_char] in Hcmd. rewrite str_app_cons.
    cbn [str_contains_char str_split1].
    destruct (Ascii.eqb c " "); [discriminate Hcmd|].
    destruct (IH Hcmd) as [-> ->]. split; reflexivity.
  - now rewrite Hcmd.
Qed.

Lemma command_line_truthy cmd args :
  cmd <> EmptyString -> str_truthy (command_line cmd args) = true.
Proof.
  intros Hne. destruct cmd as [|c cmd]; [now contradiction Hne|].
  now destruct args.
Qed.

End LineFacts.

Lemma blank_line_witness :
  Server.loop 1 (Server.new_session (crlf ++ Examples.line "NOOP") Examples.srv [])
  = Some (Server.clean_up EmptyString
            (Server.set_client (Examples.line "NOOP")
               (Server.new_session (crlf ++ Examples.line "NOOP") Examples.srv [])),
          Server.Returned)
  /\ Server.replies
       (Server.log
          (Server.clean_up EmptyString
             (Server.set_client (Examples.line "NOOP")
                (Server.new_session (crlf ++ Examples.line "NOOP") Examples.srv []))))
     = Server.replies
         (Server.log (Server.new_session (crlf ++ Examples.line "NOOP") Examples.srv []))
  /\ Server.client
       (Server.clean_up EmptyString
          (Server.set_client (Examples.line "NOOP")
             (Server.new_session (crlf ++ Examples.line "NOOP") Examples.srv [])))
     = Examples.line "NOOP".
Proof.
  apply (blank_line_ends_session 0
           (Server.new_session (crlf ++ Examples.line "NOOP") Examples.srv [])
           (Examples.line "NOOP")).
  reflexivity.
Defined.

(** ** Replies *)

Section Answers.
Import Provider Server.
Context {P : Type} `{ProviderBase P}.

#[local] Abbreviation session := (Server.session P).
#[local] Abbreviation M := (@Server.M P).

Lemma log_extends_refl (s : session) : log_extends s s.
Proof. exists []. now rewrite app_nil_r. Qed.

Lemma log_extends_trans (s1 s2 s3 : session) :
  log_extends s1 s2 -> log_extends s2 s3 -> log_extends s1 s3.
Proof. intros [e1 H1] [e2 H2]. exists (e1 ++ e2). now rewrite H2, H1, app_assoc. Qed.

Lemma log_extends_emit e (s : session) : log_extends s (emit e s).
Proof. now exists [e]. Qed.

Lemma log_extends_same (s s' : session) : log s' = log s -> log_extends s s'.
Proof. intros Hl. exists []. now rewrite app_nil_r. Qed.

Ltac log_frame :=
  first
    [ exact log_extends_refl | exact log_extends_trans
    | intros; apply log_extends_emit
    | intros; apply log_extends_same; reflexivity ].

Lemma grows_bind {A B} (m : M A) (k : A -> M B) :
  respects log_extends m -> (forall a, respects log_extends (k a)) ->
  respects log_extends (bind m k).
Proof. apply respects_bind. log_frame. Qed.

Lemma grows_reply st data : respects (P := P) log_extends (reply st data).
Proof.
  intros s. unfold reply. destruct (encode_ascii _); cbn [fst];
    [apply log_extends_emit | apply log_extends_refl].
Qed.

Lemma grows_invoke {A} c (m : P -> P * result A) : respects log_extends (invoke c m).
Proof. apply respects_invoke; log_frame. Qed.

Lemma grows_sock_send h d : respects (P := P) log_extends (sock_send h d).
Proof. apply respects_sock_send; log_frame. Qed.

Lemma grows_sock_close h : respects (P := P) log_extends (sock_close h).
Proof. apply respects_sock_close; log_frame. Qed.

Lemma grows_invoke_save_file f g h : respects log_extends (invoke_save_file f g h).
Proof. apply respects_invoke_save_file; log_frame. Qed.

Lemma grows_read_line : respects (P := P) log_extends read_line.
Proof. apply respects_read_line. log_frame. Qed.

Lemma grows_pure {A} (r : result A) (f : session -> session) :
  (forall s, log (f s) = log s) -> respects log_extends (fun s => (f s, r)).
Proof. intros Hf s. apply log_extends_same, Hf. Qed.

Ltac grows :=
  repeat first
    [ apply grows_bind; [|intros ?]
    | apply grows_reply | apply grows_invoke | apply grows_sock_send
    | apply grows_sock_close | apply grows_invoke_save_file | apply grows_read_line
    | apply (grows_pure _ (fun s => s)); reflexivity
    | apply grows_pure; reflexivity
    | match goal with
      | |- respects _ (if ?b then _ else _) => destruct b
      | |- respects _ (match ?x with _ => _ end) => destruct x
      end ].

Lemma has_reply_app l1 l2 : has_reply (l1 ++ l2) = has_reply l1 || has_reply l2.
Proof. apply existsb_app. Qed.

Lemma answers_reply st data : answers (P := P) (reply st data).
Proof.
  intros s. unfold reply. destruct (encode_ascii _); cbn [fst snd].
  - now exists [EvReply st data].
  - exists []. split; [now rewrite app_nil_r | discriminate].
Qed.

Lemma answers_raise {A} e : answers (@raise P A e).
Proof. intros s. exists []. split; [cbn; now rewrite app_nil_r | discriminate]. Qed.

Lemma answers_bind_l {A B} (m : M A) (k : A -> M B) :
  answers m -> (forall a, respects log_extends (k a)) -> answers (bind m k).
Proof.
  intros Hm Hk s. unfold bind. destruct (Hm s) as (e1 & H1 & Hr).
  destruct (m s) as [s1 [a|e]]; cbn [fst snd] in *.
  - destruct (Hk a s1) as [e2 H2]. exists (e1 ++ e2).
    split; [now rewrite H2, H1, app_assoc|].
    intros _. rewrite has_reply_app, Hr; reflexivity.
  - exists e1. split; [exact H1 | discriminate].
Qed.

Lemma answers_bind_r {A B} (m : M A) (k : A -> M B) :
  respects log_extends m -> (forall a, answers (k a)) -> answers (bind m k).
Proof.
  intros Hm Hk s. unfold bind. destruct (Hm s) as [e1 H1].
  destruct (m s) as [s1 [a|e]]; cbn [fst snd] in *.
  - destruct (Hk a s1) as (e2 & H2 & Hr). exists (e1 ++ e2).
    split; [now rewrite H2, H1, app_assoc|].
    intros Hok. rewrite has_reply_app, (Hr Hok). apply orb_true_r.
  - exists e1. split; [exact H1 | discriminate].
Qed.

Lemma answers_passive_reply b (data : M payload) a :
  respects log_extends data -> answers (passive_reply b data a).
Proof.
  intros Hd s. unfold passive_reply.
  destruct (passive_client s) as [h|]; [|apply answers_reply].
  revert s. apply answers_bind_l; [apply answers_reply|].
  intros _. grows. exact Hd.
Qed.

Lemma answers_passive_read b (handle : chunk_fn bytes -> nat -> M unit) a :
  (forall g h, respects log_extends (handle g h)) -> answers (passive_read b handle a).
Proof.
  intros Hd s. unfold passive_read.
  destruct (passive_client s) as [h|]; [|apply answers_reply].
  revert s. apply answers_bind_l; [apply answers_reply|].
  intros _. cbn zeta. grows. apply Hd.
Qed.

Lemma answers_enter_passive : answers (P := P) enter_passive.
Proof.
  intros s. unfold enter_passive.
  destruct (network s) as [|[|ip port|ip port d] net]; cbn [fst snd tail];
    try (exists []; split; [cbn; now rewrite app_nil_r | discriminate]).
  - refine (answers_bind_l _ _ _ _ (set_network net s));
      [apply answers_reply | intros _; grows].
  - refine (answers_bind_l _ _ _ _ (set_network net s));
      [apply answers_reply | intros _].
    intros s'. cbn [fst]. now exists [EvAccept (length (sockets s'))].
Qed.

Lemma answers_dispatch cmd args : answers (dispatch cmd args).
Proof.
  unfold dispatch. cbn zeta.
  repeat match goal with
  | |- answers (if ?b then _ else _) => destruct b
  | |- answers (match ?x with _ => _ end) => destruct x
  | |- answers (reply _ _) => apply answers_reply
  | |- answers (raise _) => apply answers_raise
  | |- answers enter_passive => apply answers_enter_passive
  | |- answers (passive_reply _ _ _) => apply answers_passive_reply; grows
  | |- answers (passive_read _ _ _) => apply answers_passive_read; intros; grows
  | |- answers (bind (reply _ _) _) =>
      apply answers_bind_l; [apply answers_reply | intros ?; grows]
  | |- answers (bind _ _) => apply answers_bind_r; [grows | intros ?]
  end.
Qed.

(** X5: whatever the verb and the argument, the [try] statement sends at
    least one reply on the control connection and lets no exception of
    the handler out: a handler that completes has replied, and one that
    fails is answered by the 500 reply. *)
Theorem every_command_is_answered cmd args (s : session) :
  snd (try_dispatch cmd args s) = Ok tt
  /\ exists evs, log (fst (try_dispatch cmd args s)) = log s ++ evs
                 /\ has_reply evs = true.
Proof.
  rewrite try_dispatch_eq. destruct (answers_dispatch cmd args s) as (evs & Hlog & Hr).
  destruct (dispatch cmd args s) as [s' [[]|e]]; cbn [fst snd] in *.
  - split; [reflexivity|]. exists evs. auto.
  - split; [reflexivity|]. exists (evs ++ [EvReply 500 "Error executing cmd"]).
    split; [cbn [log emit]; now rewrite Hlog, app_assoc|].
    rewrite has_reply_app. apply orb_true_r.
Qed.

End Answers.

Section CommandLines.
Import Provider Server.
Context {P : Type} `{ProviderBase P}.

(** X4: a command line of 7-bit characters, shorter than 1000 bytes and
    without a CRLF inside, is split at its first space: the verb is what
    stands before it and the argument everything after it, further spaces
    included (no argument when there is no space).  Given fuel for the
    unread input, the loop runs the handler of that verb with that
    argument inside the [try] statement, which sends at least one reply,
    and goes on to its end with the bytes that follow the line: the log
    of the whole run begins with what the command logged. *)
Theorem command_line_is_dispatched fuel (s : Server.session P) cmd args rest :
  cmd <> EmptyString ->
  str_contains_char " " cmd = false ->
  has_crlf (String.list_byte_of_string (command_line cmd args)) = false ->
  forallb byte_is_ascii (String.list_byte_of_string (command_line cmd args)) = true ->
  length (String.list_byte_of_string (command_line cmd args)) < max_buf_len ->
  client s = String.list_byte_of_string (command_line cmd args) ++ crlf ++ rest ->
  length (client s) <= fuel ->
  parse (command_line cmd args) = Ok (cmd, args)
  /\ exists s' ending evs later,
       loop (S fuel) s = Some (s', ending)
       /\ loop fuel (fst (try_dispatch cmd args (set_client rest s))) = Some (s', ending)
       /\ log (fst (try_dispatch cmd args (set_client rest s))) = log s ++ evs
       /\ has_reply evs = true
       /\ log s' = log s ++ evs ++ later.
Proof.
  intros Hne Hcmd Hfree Hascii Hlen Hc Hfuel.
  pose proof (parse_command_line cmd args Hcmd) as Hparse.
  split; [exact Hparse|].
  assert (read_till_crlf (client s) = (Ok (command_line cmd args), rest)) as Hread.
  { rewrite Hc, read_till_crlf_fits by assumption.
    unfold decode_ascii. rewrite Hascii.
    now rewrite String.string_of_list_byte_of_string. }
  destruct (loop_runs_command fuel s _ rest cmd args Hread
              (command_line_truthy cmd args Hne) Hparse Hfuel)
    as (s' & ending & later & Hrun & Hnext & Hlog).
  assert (exists evs,
             log (fst (try_dispatch cmd args (set_client rest s))) = log s ++ evs
             /\ has_reply evs = true) as (evs & Hevs & Hreply).
  { rewrite try_dispatch_eq.
    destruct (answers_dispatch cmd args (set_client rest s)) as (evs & Hl & Hr).
    destruct (dispatch cmd args (set_client rest s)) as [s1 [[]|e]]; cbn [fst snd] in *.
    - exists evs. auto.
    - exists (evs ++ [EvReply 500 "Error executing cmd"]).
      split; [cbn [log emit]; now rewrite Hl, app_assoc|].
      rewrite has_reply_app. apply orb_true_r. }
  exists s', ending, evs, later. repeat split; try assumption.
  now rewrite Hlog, Hevs, app_assoc.
Qed.

End CommandLines.

Lemma command_line_witness :
  Server.parse (command_line "STOR" (Some "my file.txt")) = Ok ("STOR", Some "my file.txt")
  /\ exists s' ending evs later,
       Server.loop 19
         (Server.new_session (Examples.line "STOR my file.txt") Examples.srv [])
       = Some (s', ending)
       /\ Server.loop 18
            (fst (Server.try_dispatch "STOR" (Some "my file.txt")
                    (Server.set_client []
                       (Server.new_session (Examples.line "STOR my file.txt")
                          Examples.srv []))))
          = Some (s', ending)
       /\ Server.log
            (fst (Server.try_dispatch "STOR" (Some "my file.txt")
                    (Server.set_client []
                       (Server.new_session (Examples.line "STOR my file.txt")
                          Examples.srv []))))
          = Server.log (Server.new_session (Examples.line "STOR my file.txt")
                          Examples.srv []) ++ evs
       /\ has_reply evs = true
       /\ Server.log s'
          = Server.log (Server.new_session (Examples.line "STOR my file.txt")
                          Examples.srv []) ++ evs ++ later.
Proof.
  apply (command_line_is_dispatched 18
           (Server.new_session (Examples.line "STOR my file.txt") Examples.srv [])
           "STOR" (Some "my file.txt") []);
    [discriminate | reflexivity | reflexivity | reflexivity | vm_compute; lia
    | reflexivity | vm_compute; lia].
Defined.

(** ** The data connection at the end of a session and after a failure *)

Section SessionEnd.
Import Provider Server.
Context {P : Type} `{ProviderBase P}.

#[local] Abbreviation session := (Server.session P).





Lemma bind_ok {A B} (m : Server.M A) (k : A -> Server.M B) (s s1 : session) a :
  m s = (s1, Ok a) -> bind m k s = k a s1.
Proof. intros Hm. unfold bind. now rewrite Hm. Qed.

Lemma bind_raise {A B} (m : Server.M A) (k : A -> Server.M B) (s s1 : session) e :
  m s = (s1, Raise e) -> bind m k s = (s1, Raise e).
Proof. intros Hm. unfold bind. now rewrite Hm. Qed.

Lemma invoke_eq {A} c (m : P -> P * result A) (s : session) :
  invoke c m s
  = (set_provider (fst (m (provider s))) (emit (EvCall c) s), snd (m (provider s))).
Proof. unfold invoke. cbn [provider emit]. now destruct (m (provider s)). Qed.

Lemma list_fails args (s : session) h e :
  passive_client s = Some h ->
  snd (listdir (provider s)) = Raise e
  \/ (exists t, snd (listdir (provider s)) = Ok t /\ encode_ascii t = Raise e) ->
  dispatch "LIST" args s
  = (set_provider (fst (listdir (provider s)))
       (emit (EvCall CallListdir)
          (emit (EvReply 150 "Sending current directory listing") s)),
     Raise e).
Proof.
  intros Hpc Hfail. rewrite dispatch_LIST. unfold passive_reply. rewrite Hpc.
  rewrite (bind_ok _ _ s (emit (EvReply 150 "Sending current directory listing") s) tt)
    by reflexivity.
  destruct Hfail as [Hr | (t & Hr & Henc)].
  - apply bind_raise, bind_raise. rewrite invoke_eq. cbn [provider emit].
    now rewrite Hr.
  - erewrite bind_ok; [|erewrite bind_ok; [reflexivity|]; rewrite invoke_eq;
                         cbn [provider emit]; now rewrite Hr].
    apply bind_raise. unfold lift. now rewrite Henc.
Qed.

(** X7: when the provider's [listdir] raises, or returns a listing that
    is not 7-bit text, a [LIST] issued in passive mode is answered 150 and
    then 500, and the handler is left before the data connection is used:
    nothing is sent on it, it stays open, and the session goes on
    referring to it. *)
Theorem failed_listing_keeps_channel args (s : session) h e :
  passive_client s = Some h ->
  snd (listdir (provider s)) = Raise e
  \/ (exists t, snd (listdir (provider s)) = Ok t /\ encode_ascii t = Raise e) ->
  replies (log (fst (try_dispatch "LIST" args s))) = replies (log s) ++ [150; 500]%Z
  /\ passive_client (fst (try_dispatch "LIST" args s)) = Some h
  /\ sockets (fst (try_dispatch "LIST" args s)) = sockets s.
Proof.
  intros Hpc Hfail. rewrite try_dispatch_eq, (list_fails args s h e Hpc Hfail).
  cbn [fst log emit set_provider passive_client sockets].
  split; [|split; [exact Hpc | reflexivity]].
  rewrite !replies_app. cbn. now rewrite app_nil_r, <- app_assoc.
Qed.

(** X8: the 227 reply of [PASV] announces the listening port as two
    decimal numbers, each between 0 and 255, the first times 256 plus
    the second being the port; the address is printed with its dots
    replaced by commas. *)
Theorem pasv_reply_encodes_port args (s s' : session) ip port peer_data net :
  (0 <= port < 65536)%Z ->
  network s = Accepts ip port peer_data :: net ->
  dispatch "PASV" args s = (s', Ok tt) ->
  exists hi lo,
    (0 <= hi < 256)%Z /\ (0 <= lo < 256)%Z /\ (port = 256 * hi + lo)%Z
    /\ log s'
       = log s ++ [EvReply 227 ("Entering passive mode (" +:+ replace ip "." "," +:+ ","
                                   +:+ (str_of_Z hi +:+ "," +:+ str_of_Z lo) +:+ ")");
                   EvAccept (length (sockets s))].
Proof.
  intros Hport Hnet. rewrite dispatch_PASV. unfold enter_passive. rewrite Hnet.
  exists (Z.shiftr port 8), (Z.land port 255).
  assert (Z.shiftr port 8 = port / 256 /\ Z.land port 255 = port mod 256)%Z as [Hhi Hlo].
  { split; [now rewrite Z.shiftr_div_pow2 by lia|].
    change 255%Z with (Z.ones 8). now rewrite Z.land_ones by lia. }
  split; [rewrite Hhi; split; [apply Z.div_pos; lia | apply Z.div_lt_upper_bound; lia]|].
  split; [rewrite Hlo; apply Z.mod_pos_bound; lia|].
  split; [rewrite Hhi, Hlo; apply Z.div_mod; lia|].
  revert H0. unfold bind, reply.
  destruct (encode_ascii _); [|discriminate].
  intros [= <-]. cbn [log emit set_passive_client set_sockets set_network sockets].
  now rewrite <- app_assoc.
Qed.

End SessionEnd.

Lemma failed_listing_witness :
  Server.replies
    (Server.log
       (fst (Server.try_dispatch "LIST" None
               (Server.set_passive_client (Some 0)
                  (Server.set_sockets
                     [{| Server.incoming := []; Server.sent := []; Server.closed := false |}]
                     (Server.new_session [] Examples.srv []))))))
  = [150; 500]%Z
  /\ Server.passive_client
       (fst (Server.try_dispatch "LIST" None
               (Server.set_passive_client (Some 0)
                  (Server.set_sockets
                     [{| Server.incoming := []; Server.sent := []; Server.closed := false |}]
                     (Server.new_session [] Examples.srv [])))))
     = Some 0
  /\ Server.sockets
       (fst (Server.try_dispatch "LIST" None
               (Server.set_passive_client (Some 0)
                  (Server.set_sockets
                     [{| Server.incoming := []; Server.sent := []; Server.closed := false |}]
                     (Server.new_session [] Examples.srv [])))))
     = [{| Server.incoming := []; Server.sent := []; Server.closed := false |}].
Proof.
  apply (failed_listing_keeps_channel None
           (Server.set_passive_client (Some 0)
              (Server.set_sockets
                 [{| Server.incoming := []; Server.sent := []; Server.closed := false |}]
                 (Server.new_session [] Examples.srv [])))
           0 (OSError "No such file or directory"));
    [reflexivity | left; reflexivity].
Defined.

Lemma pasv_reply_witness :
  exists hi lo,
    (0 <= hi < 256)%Z /\ (0 <= lo < 256)%Z /\ (50000 = 256 * hi + lo)%Z
    /\ Server.log
         (fst (Server.dispatch "PASV" None
                 (Server.new_session [] Examples.srv
                    [Server.Accepts "127.0.0.1" 50000 []])))
       = [] ++ [Server.EvReply 227
                  ("Entering passive mode (" +:+ replace "127.0.0.1" "." "," +:+ ","
                     +:+ (str_of_Z hi +:+ "," +:+ str_of_Z lo) +:+ ")");
                Server.EvAccept 0].
Proof.
  apply (pasv_reply_encodes_port None
           (Server.new_session [] Examples.srv [Server.Accepts "127.0.0.1" 50000 []])
           _ "127.0.0.1" 50000%Z [] []);
    [lia | reflexivity | reflexivity].
Defined.

(** ** The command line of the program *)

Section ArgsFacts.
Import Args.

Lemma startswith_app p r : startswith (p +:+ r) p = true.
Proof.
  unfold startswith. induction p as [|a p IH]; [now destruct r|].
  rewrite str_app_cons. cbn [String.prefix].
  destruct (ascii_dec a a) as [_|Hne]; [exact IH | now contradiction Hne].
Qed.

Lemma str_split1_app c p v :
  str_contains_char c p = false -> str_split1 c (p +:+ String c v) = [p; v].
Proof.
  induction p as [|a p IH]; intros Hp.
  - change (EmptyString +:+ String c v) with (String c v).
    cbn [str_split1]. now rewrite Ascii.eqb_refl.
  - cbn [str_contains_char] in Hp. rewrite str_app_cons. cbn [str_split1].
    destruct (Ascii.eqb a c); [discriminate Hp|]. now rewrite (IH Hp).
Qed.

Lemma str_contains_char_app c p v : str_contains_char c (p +:+ String c v) = true.
Proof.
  induction p as [|a p IH].
  - change (EmptyString +:+ String c v) with (String c v).
    cbn [str_contains_char]. now rewrite Ascii.eqb_refl.
  - rewrite str_app_cons. cbn [str_contains_char]. now destruct (Ascii.eqb a c).
Qed.

Lemma parse_arg_port st arg st' :
  parse_arg st arg = Ok st' ->
  (0 <= snd (bind_addr st) < 65535)%Z -> (0 <= snd (bind_addr st') < 65535)%Z.
Proof.
  unfold parse_arg.
  destruct (startswith arg "-address=").
  { destruct (after_equals arg) as [addr|]; [|discriminate]. cbn [rbind].
    destruct (negb (str_contains_char ":" addr)); [discriminate|].
    destruct (unpack2 (str_split1 ":" addr)) as [[ip port]|]; [|discriminate].
    cbn [rbind fst snd].
    destruct (isnumeric port); cbn [rbind]; [|discriminate].
    destruct (int port) as [n|]; cbn [rbind]; [|discriminate].
    destruct (0 <=? n)%Z eqn:Hlo; [|discriminate].
    destruct (n <? 2 ^ 16 - 1)%Z eqn:Hhi; [|discriminate].
    cbn. intros [= <-] _. cbn. lia. }
  destruct (startswith arg "-provider=").
  { destruct (after_equals arg) as [pv|]; [|discriminate]. cbn [rbind].
    destruct (String.eqb pv "fs"); [now intros [= <-]|].
    destruct (String.eqb pv "dropbox"); [now intros [= <-]|discriminate]. }
  destruct (startswith arg "-args="); [|discriminate].
  destruct (after_equals arg) as [v|]; [|discriminate]. now intros [= <-].
Qed.

Lemma parse_loop_port args : forall st st',
  parse_loop st args = Ok st' ->
  (0 <= snd (bind_addr st) < 65535)%Z -> (0 <= snd (bind_addr st') < 65535)%Z.
Proof.
  induction args as [|arg args IH]; intros st st'; cbn [parse_loop].
  - now intros [= <-].
  - destruct (parse_arg st arg) as [st1|] eqn:Harg; [|discriminate]. cbn [rbind].
    intros Hloop Hst. apply (IH _ _ Hloop). now apply (parse_arg_port st arg).
Qed.

(** X9: whenever [parse_args] returns, a provider was chosen, the
    provider argument is not empty, the argument list was not empty, and
    the port of the address lies between 0 and 65534: the test
    [int(port) < 2**16-1] leaves out port 65535. *)
Theorem parse_args_result args ip port cls a :
  parse_args args = Ok ((ip, port), cls, a) ->
  (0 <= port < 65535)%Z /\ a <> EmptyString /\ args <> [].
Proof.
  unfold parse_args. destruct args as [|arg args]; [discriminate|].
  cbn [length Nat.eqb].
  destruct (parse_loop initial (arg :: args)) as [st|] eqn:Hloop; [|discriminate].
  cbn [rbind]. apply parse_loop_port in Hloop; [|cbn; lia].
  destruct (provider st); [|discriminate].
  destruct (provider_args st) as [[|c v]|]; [discriminate| |discriminate].
  intros [= Haddr <- <-]. rewrite Haddr in Hloop. cbn in Hloop.
  split; [exact Hloop|]. split; discriminate.
Qed.

Lemma after_equals_address v : after_equals ("-address=" +:+ v) = Ok v.
Proof.
  unfold after_equals.
  change ("-address=" +:+ v) with ("-address" +:+ String "=" v).
  now rewrite str_split1_app.
Qed.

Lemma parse_arg_address st ip ps n :
  str_contains_char ":" ip = false ->
  isnumeric ps = true -> int ps = Ok n -> (0 <= n < 65535)%Z ->
  parse_arg st ("-address=" +:+ ip +:+ ":" +:+ ps)
  = Ok {| bind_addr := (ip, n); provider := provider st;
          provider_args := provider_args st |}.
Proof.
  intros Hip Hnum Hint Hn. unfold parse_arg.
  rewrite startswith_app, after_equals_address. cbn [rbind].
  change (ip +:+ ":" +:+ ps) with (ip +:+ String ":" ps).
  rewrite str_contains_char_app, (str_split1_app _ _ _ Hip).
  cbn [negb unpack2 rbind fst snd]. rewrite Hnum, Hint. cbn [rbind].
  replace ((0 <=? n)%Z && (n <? 2 ^ 16 - 1)%Z) with true; [reflexivity|].
  symmetry. apply andb_true_intro. split; [apply Z.leb_le | apply Z.ltb_lt]; lia.
Qed.

Lemma parse_arg_args st a :
  parse_arg st ("-args=" +:+ a)
  = Ok {| bind_addr := bind_addr st; provider := provider st; provider_args := Some a |}.
Proof.
  unfold parse_arg.
  assert (startswith ("-args=" +:+ a) "-address=" = false) as ->
    by (unfold startswith; now destruct a).
  assert (startswith ("-args=" +:+ a) "-provider=" = false) as ->
    by (unfold startswith; now destruct a).
  rewrite startswith_app.
  assert (after_equals ("-args=" +:+ a) = Ok a) as ->; [|reflexivity].
  unfold after_equals. change ("-args=" +:+ a) with ("-args" +:+ String "=" a).
  now rewrite str_split1_app.
Qed.

(** X10: the documented usage is accepted.  With an address whose host
    part holds no colon and whose port is a decimal number below 65535,
    the provider [fs] or [dropbox] and a non-empty provider argument
    (which may itself hold [=] signs), [parse_args] returns that address,
    the class of that provider and that argument; without an [-address]
    argument the address is 0.0.0.0:8080. *)
Theorem parse_args_usage ip ps n a :
  str_contains_char ":" ip = false ->
  isnumeric ps = true -> int ps = Ok n -> (0 <= n < 65535)%Z ->
  a <> EmptyString ->
  parse_args ["-address=" +:+ ip +:+ ":" +:+ ps; "-provider=fs"; "-args=" +:+ a]
  = Ok ((ip, n), FileSystemProviderClass, a)
  /\ parse_args ["-address=" +:+ ip +:+ ":" +:+ ps; "-provider=dropbox"; "-args=" +:+ a]
     = Ok ((ip, n), DropboxProviderClass, a)
  /\ parse_args ["-provider=fs"; "-args=" +:+ a]
     = Ok (("0.0.0.0", 8080%Z), FileSystemProviderClass, a).
Proof.
  intros Hip Hnum Hint Hn Ha. unfold parse_args. cbn [length Nat.eqb parse_loop].
  rewrite (parse_arg_address _ ip ps n Hip Hnum Hint Hn). cbn [rbind].
  change (parse_arg _ "-provider=fs")
    with (Ok {| bind_addr := (ip, n); provider := Some FileSystemProviderClass;
                provider_args := None |}) at 1.
  change (parse_arg _ "-provider=dropbox")
    with (Ok {| bind_addr := (ip, n); provider := Some DropboxProviderClass;
                provider_args := None |}).
  change (parse_arg initial "-provider=fs")
    with (Ok {| bind_addr := ("0.0.0.0", 8080%Z); provider := Some FileSystemProviderClass;
                provider_args := None |}).
  cbn [rbind]. rewrite !parse_arg_args. cbn [rbind provider provider_args bind_addr].
  destruct a as [|c a]; [now contradiction Ha|]. repeat split.
Qed.

End ArgsFacts.

Lemma parse_args_result_witness :
  (0 <= 2121 < 65535)%Z /\ "/srv" <> EmptyString
  /\ ["-args=/srv"; "-provider=fs"; "-address=127.0.0.1:2121"] <> [].
Proof.
  apply (parse_args_result ["-args=/srv"; "-provider=fs"; "-address=127.0.0.1:2121"]
           "127.0.0.1" 2121%Z Args.FileSystemProviderClass "/srv").
  reflexivity.
Defined.

Lemma parse_args_usage_witness :
  Args.parse_args ["-address=" +:+ "localhost" +:+ ":" +:+ "65534"; "-provider=fs";
                   "-args=" +:+ "a=b"]
  = Ok (("localhost", 65534%Z), Args.FileSystemProviderClass, "a=b")
  /\ Args.parse_args ["-address=" +:+ "localhost" +:+ ":" +:+ "65534"; "-provider=dropbox";
                      "-args=" +:+ "a=b"]
     = Ok (("localhost", 65534%Z), Args.DropboxProviderClass, "a=b")
  /\ Args.parse_args ["-provider=fs"; "-args=" +:+ "a=b"]
     = Ok (("0.0.0.0", 8080%Z), Args.FileSystemProviderClass, "a=b").
Proof.
  apply (parse_args_usage "localhost" "65534" 65534%Z "a=b");
    [reflexivity | reflexivity | reflexivity | lia | discriminate].
Defined.

(** ** The file-system provider: files and directories *)

Section FileFacts.
Import FileSystemProvider.

(** X11: [get_size] and [get_file] agree.  When [get_size] reports a
    file, [get_file] on the same name returns its content and the
    reported size is the decimal length of that content; when it reports
    no file (with the empty size text), [get_file] raises; and
    [get_size] raises only when the name cannot be normalized, in which
    case [get_file] raises the same exception. *)
Theorem size_agrees_with_file f self :
  match snd (get_size f self) with
  | Ok (true, sz) =>
      exists content,
        snd (get_file f self) = Ok content
        /\ sz = str_of_Z (Z.of_nat (length content))
  | Ok (false, sz) => sz = EmptyString /\ is_ok (snd (get_file f self)) = false
  | Raise e => snd (get_file f self) = Raise e
  end.
Proof.
  unfold get_size, get_file. cbn [snd].
  destruct (normalize_path self f) as [path|e]; cbn [rbind]; [|reflexivity].
  unfold OS.isfile, OS.stat, OS.read_file, OS.node_at.
  destruct (OS.find (os self) path) as [[c m|sz m]|]; cbn [rbind].
  - exists c. split; reflexivity.
  - split; reflexivity.
  - split; reflexivity.
Qed.

(** X12: after a successful [del_file] the name denotes nothing:
    [get_size] reports no file, [get_file] and a second [del_file] raise
    the no-such-file error, and the object's two directories are as
    before. *)
Theorem deleted_file_is_gone f self self' :
  del_file f self = (self', Ok tt) ->
  snd (get_size f self') = Ok (false, EmptyString)
  /\ snd (get_file f self') = Raise OS.no_such_file
  /\ snd (del_file f self') = Raise OS.no_such_file
  /\ same_dirs self' self.
Proof.
  unfold del_file.
  destruct (normalize_path self f) as [path|e] eqn:Hpath; cbn [rbind]; [|intros [=]].
  unfold OS.unlink.
  destruct (OS.resolve (os self) path) as [key|] eqn:Hres; [|intros [=]].
  destruct (OS.files (os self) !! key) as [[c m|sz m]|] eqn:Hfile; intros [= <-].
  set (o' := OS.set_files (delete key (OS.files (os self))) (os self)).
  assert (OS.files o' !! key = None) as Hgone by apply lookup_delete_eq.
  assert (OS.resolve o' path = Ok key) as Hres'.
  { apply (resolve_stable (os self)); [|intros _ c' m'; now rewrite Hgone|exact Hres].
    split; [reflexivity|]. intros k Hk. unfold OS.dir_at in *. cbn.
    destruct (decide (key = k)) as [<-|Hne]; [now rewrite Hfile in Hk|].
    now rewrite lookup_delete_ne. }
  unfold get_size, get_file. cbn [snd]. rewrite !normalize_path_set_os, Hpath.
  cbn [rbind os set_os]. fold o'.
  unfold OS.isfile, OS.read_file, OS.unlink, OS.node_at, OS.find.
  rewrite Hres'. cbn [rbind]. rewrite Hgone. repeat split.
Qed.

(** X13: after a successful [mkdir] the name denotes a directory:
    [change_work_dir] to it succeeds, [get_size] reports no file, and a
    second [mkdir] raises the file-exists error. *)
Theorem made_directory_exists f self self' :
  mkdir f self = (self', Ok tt) ->
  snd (change_work_dir f self') = Ok true
  /\ snd (get_size f self') = Ok (false, EmptyString)
  /\ snd (mkdir f self') = Raise (OSError "File exists").
Proof.
  unfold mkdir at 1.
  destruct (normalize_path self f) as [path|e] eqn:Hpath; cbn [rbind]; [|intros [=]].
  unfold OS.mkdir.
  destruct (OS.resolve (os self) path) as [key|] eqn:Hres; [|intros [=]].
  destruct (OS.files (os self) !! key) eqn:Hnew; [intros [=]|].
  destruct (OS.parent_is_dir (os self) key); intros [= <-].
  set (d := OS.Directory (OS.dir_size (os self)) (OS.clock (os self))).
  set (o' := OS.set_files (<[key := d]> (OS.files (os self))) (os self)).
  assert (OS.files o' !! key = Some d) as Hnode by apply lookup_insert_eq.
  assert (OS.resolve o' path = Ok key) as Hres'.
  { apply (resolve_stable (os self)); [|intros _ c' m'; now rewrite Hnode|exact Hres].
    split; [reflexivity|]. intros k Hk. unfold OS.dir_at in *. cbn.
    destruct (decide (key = k)) as [<-|Hne]; [now rewrite Hnew in Hk|].
    now rewrite lookup_insert_ne. }
  unfold change_work_dir, get_size, mkdir. rewrite !normalize_path_set_os, Hpath.
  cbn [rbind snd os set_os]. fold o'.
  unfold OS.isdir, OS.isfile, OS.mkdir, OS.node_at, OS.find.
  rewrite Hres'. cbn [rbind]. rewrite Hnode. repeat split.
Qed.

End FileFacts.

Lemma deleted_file_witness :
  snd (FileSystemProvider.get_size (Some "a.txt")
         (fst (FileSystemProvider.del_file (Some "a.txt") Examples.srv_at_root)))
  = Ok (false, EmptyString)
  /\ snd (FileSystemProvider.get_file (Some "a.txt")
            (fst (FileSystemProvider.del_file (Some "a.txt") Examples.srv_at_root)))
     = Raise OS.no_such_file
  /\ snd (FileSystemProvider.del_file (Some "a.txt")
            (fst (FileSystemProvider.del_file (Some "a.txt") Examples.srv_at_root)))
     = Raise OS.no_such_file
  /\ FileSystemProvider.same_dirs
       (fst (FileSystemProvider.del_file (Some "a.txt") Examples.srv_at_root))
       Examples.srv_at_root.
Proof.
  apply (deleted_file_is_gone (Some "a.txt") Examples.srv_at_root).
  vm_compute. reflexivity.
Defined.

Lemma made_directory_witness :
  snd (FileSystemProvider.change_work_dir (Some "new")
         (fst (FileSystemProvider.mkdir (Some "new") Examples.srv_at_root)))
  = Ok true
  /\ snd (FileSystemProvider.get_size (Some "new")
            (fst (FileSystemProvider.mkdir (Some "new") Examples.srv_at_root)))
     = Ok (false, EmptyString)
  /\ snd (FileSystemProvider.mkdir (Some "new")
            (fst (FileSystemProvider.mkdir (Some "new") Examples.srv_at_root)))
     = Raise (OSError "File exists").
Proof.
  apply (made_directory_exists (Some "new") Examples.srv_at_root).
  vm_compute. reflexivity.
Defined.

(** ** The file-system provider: paths *)

Section PathFacts.
Import FileSystemProvider.
Context `{TimeLib}.

Lemma prefix_two_slashes s : String.prefix "//" (String "/" (String "/" s)) = true.
Proof. now destruct s. Qed.

Lemma str_app_nil_l (b : string) : EmptyString +:+ b = b.
Proof. reflexivity. Qed.

(** A match of the doubled slash cannot begin inside [a] when [a]
    followed by one slash holds no doubled slash. *)
Lemma no_match_inside c a r :
  str_contains "//" (String c a +:+ "/") = false ->
  String.prefix "//" (String c (a +:+ r)) = false.
Proof.
  intros Hfree. rewrite str_app_cons in Hfree. cbn [str_contains] in Hfree.
  apply orb_false_iff in Hfree as [Hhead _].
  destruct (String.prefix "//" (String c (a +:+ r))) eqn:Hp; [|reflexivity].
  apply prefix_slashes in Hp as [-> [s' Hs']].
  destruct a as [|d a].
  - rewrite str_app_nil_l, prefix_two_slashes in Hhead. discriminate Hhead.
  - rewrite str_app_cons in Hs'. injection Hs' as -> _.
    rewrite str_app_cons, prefix_two_slashes in Hhead. discriminate Hhead.
Qed.

Lemma clean_tail c a :
  str_contains "//" (String c a) = false -> str_contains "//" a = false.
Proof. cbn [str_contains]. intros Hc. now apply orb_false_iff in Hc as [_ Hc]. Qed.

Lemma clean_suffix a : forall b,
  str_contains "//" (a +:+ b) = false -> str_contains "//" b = false.
Proof.
  induction a as [|c a IH]; intros b Hc; [exact Hc|].
  rewrite str_app_cons in Hc. apply IH. now apply clean_tail in Hc.
Qed.

(** What is clean up to a slash is clean when it ends with that slash. *)
Lemma clean_upto_slash a : forall p,
  str_contains "//" (a +:+ String "/" p) = false ->
  str_contains "//" (a +:+ "/") = false.
Proof.
  induction a as [|c a IH]; intros p Hc; [reflexivity|].
  rewrite str_app_cons in Hc |- *. cbn [str_contains] in Hc |- *.
  apply orb_false_iff in Hc as [Hhead Htail].
  apply orb_false_iff. split; [|now apply (IH p)].
  destruct (String.prefix "//" (String c (a +:+ "/"))) eqn:Hp; [|reflexivity].
  apply prefix_slashes in Hp as [-> [s' Hs']].
  destruct a as [|d a].
  - rewrite str_app_nil_l, prefix_two_slashes in Hhead. discriminate Hhead.
  - rewrite str_app_cons in Hs'. injection Hs' as -> _.
    rewrite str_app_cons, prefix_two_slashes in Hhead. discriminate Hhead.
Qed.

Lemma clean_prefix a : forall b,
  str_contains "//" (a +:+ b) = false -> str_contains "//" a = false.
Proof.
  induction a as [|c a IH]; intros b Hc; [reflexivity|].
  rewrite str_app_cons in Hc. cbn [str_contains] in Hc |- *.
  apply orb_false_iff in Hc as [Hhead Htail].
  apply orb_false_iff. split; [|now apply (IH b)].
  destruct (String.prefix "//" (String c a)) eqn:Hp; [|reflexivity].
  apply prefix_slashes in Hp as [-> [s' ->]].
  rewrite str_app_cons, prefix_two_slashes in Hhead. discriminate Hhead.
Qed.

(** Text without a doubled slash is left as it is. *)
Lemma replace_clean s : str_contains "//" s = false -> replace s "//" "/" = s.
Proof.
  unfold replace. induction s as [|c s IH]; intros Hc; [reflexivity|].
  cbn [str_contains] in Hc. apply orb_false_iff in Hc as [Hhead Htail].
  cbn [replace_go]. rewrite Hhead. now rewrite (IH Htail).
Qed.

(** The search passes over a clean part that does not end with a slash. *)
Lemma replace_after a : forall r,
  str_contains "//" (a +:+ "/") = false ->
  replace (a +:+ r) "//" "/" = a +:+ replace r "//" "/".
Proof.
  unfold replace. induction a as [|c a IH]; intros r Hc; [reflexivity|].
  rewrite (str_app_cons c a r). cbn [replace_go].
  rewrite (no_match_inside c a r Hc). rewrite str_app_cons. f_equal.
  apply IH. rewrite str_app_cons in Hc. now apply clean_tail in Hc.
Qed.

Lemma replace_two_slashes b :
  replace (String "/" (String "/" b)) "//" "/" = String "/" (replace b "//" "/").
Proof.
  unfold replace. cbn [replace_go]. rewrite prefix_two_slashes. reflexivity.
Qed.

(** Two, three or four slashes after a clean part that does not end with
    a slash come out of the two replacements as one slash. *)
Lemma collapse1 a q :
  str_contains "//" (a +:+ String "/" q) = false ->
  replace (a +:+ String "/" (String "/" q)) "//" "/" = a +:+ String "/" q.
Proof.
  intros Hc.
  rewrite (replace_after _ _ (clean_upto_slash _ _ Hc)), replace_two_slashes.
  now rewrite (replace_clean q) by (apply clean_tail with (c := "/"%char);
                                    now apply clean_suffix in Hc).
Qed.

Lemma collapse2 a q :
  str_contains "//" (a +:+ String "/" q) = false ->
  replace (replace (a +:+ String "/" (String "/" q)) "//" "/") "//" "/"
  = a +:+ String "/" q.
Proof. intros Hc. now rewrite (collapse1 _ _ Hc), (replace_clean _ Hc). Qed.

Lemma collapse3 a q :
  str_contains "//" (a +:+ String "/" q) = false ->
  replace (replace (a +:+ String "/" (String "/" (String "/" q))) "//" "/") "//" "/"
  = a +:+ String "/" q.
Proof.
  intros Hc.
  rewrite (replace_after _ _ (clean_upto_slash _ _ Hc)), replace_two_slashes.
  rewrite (replace_clean (String "/" q)) by now apply clean_suffix in Hc.
  now apply collapse1.
Qed.

Lemma collapse4 a q :
  str_contains "//" (a +:+ String "/" q) = false ->
  replace (replace (a +:+ String "/" (String "/" (String "/" (String "/" q))))
             "//" "/") "//" "/"
  = a +:+ String "/" q.
Proof.
  intros Hc.
  rewrite (replace_after _ _ (clean_upto_slash _ _ Hc)), !replace_two_slashes.
  rewrite (replace_clean q) by (apply clean_tail with (c := "/"%char);
                                now apply clean_suffix in Hc).
  now apply collapse1.
Qed.

Lemma normalize_absolute self p :
  str_contains "//" (root_dir self +:+ String "/" p) = false ->
  normalize_path self (Some (String "/" p)) = Ok (root_dir self +:+ String "/" p).
Proof.
  intros Hc. unfold normalize_path. cbn [Ascii.eqb Bool.eqb negb].
  change (root_dir self +:+ "/" +:+ String "/" p)
    with (root_dir self +:+ String "/" (String "/" p)).
  now rewrite collapse2.
Qed.

Lemma normalize_relative self c n :
  c <> "/"%char ->
  normalize_path self (Some (String c n))
  = Ok (replace (replace (root_dir self +:+ "/" +:+ working_dir self +:+ "/"
                            +:+ String c n) "//" "/") "//" "/").
Proof.
  intros Hc. unfold normalize_path.
  destruct (Ascii.eqb c "/") eqn:E; [|reflexivity].
  apply Ascii.eqb_eq in E. now contradiction Hc.
Qed.

(** X14: an absolute path is resolved below the root directory: when the
    root directory followed by the path holds no doubled slash (so the
    root does not end with a slash), [normalize_path] returns the root
    directory followed by the path, whatever the working directory. *)
Theorem normalize_path_absolute self p :
  str_contains "//" (root_dir self +:+ String "/" p) = false ->
  normalize_path self (Some (String "/" p)) = Ok (root_dir self +:+ String "/" p).
Proof.
  intros Hc. unfold normalize_path. cbn [Ascii.eqb Bool.eqb negb].
  change (root_dir self +:+ "/" +:+ String "/" p)
    with (root_dir self +:+ String "/" (String "/" p)).
  f_equal.
  rewrite (replace_after _ _ (clean_upto_slash _ _ Hc)), replace_two_slashes.
  rewrite (replace_clean p) by (apply clean_tail with (c := "/"%char);
                                now apply clean_suffix in Hc).
  now apply replace_clean.
Qed.

(** X15: a new object works below the root directory repeated.  Its
    working directory is the root directory itself, an absolute path, so
    with a root [/r] free of doubled slashes [listdir] lists the directory
    [/r/r] and raises when that is no directory, and a relative name [n]
    is resolved to [/r/r/n]. *)
Theorem new_object_works_below_root_twice root o self r :
  init root o = Ok self ->
  root_dir self = String "/" r ->
  str_contains "//" (root_dir self +:+ root_dir self) = false ->
  normalize_path self (Some (working_dir self)) = Ok (root_dir self +:+ root_dir self)
  /\ (OS.isdir o (root_dir self +:+ root_dir self) = false ->
      is_ok (snd (listdir self)) = false)
  /\ (forall c n,
        c <> "/"%char ->
        str_contains "//" (root_dir self +:+ root_dir self +:+ "/" +:+ String c n) = false ->
        normalize_path self (Some (String c n))
        = Ok (root_dir self +:+ root_dir self +:+ "/" +:+ String c n)).
Proof.
  unfold init. destruct (negb (OS.isdir o _)); intros [= <-]. cbn [root_dir working_dir os].
  set (rt := replace root backslash "/"). intros Hrt Hc.
  assert (normalize_path {| root_dir := rt; working_dir := rt; os := o |} (Some rt)
          = Ok (rt +:+ rt)) as Hwd.
  { assert (str_contains "//" (rt +:+ String "/" r) = false) as Hc'
      by (rewrite <- Hrt; exact Hc).
    replace (Some rt) with (Some (String "/" r)) by now rewrite Hrt.
    rewrite normalize_absolute by exact Hc'. cbn [root_dir]. now rewrite <- Hrt. }
  split; [exact Hwd|]. split.
  - intros Hd. unfold listdir. cbn [snd working_dir os]. rewrite Hwd. cbn [rbind].
    unfold OS.isdir, OS.node_at, OS.find in Hd. unfold OS.listdir.
    destruct (OS.resolve o (rt +:+ rt)) as [key|]; [|reflexivity].
    cbn [rbind] in Hd.
    destruct (OS.files o !! key) as [[? ?|? ?]|]; [reflexivity|discriminate Hd|reflexivity].
  - intros c n Hne Hcn. rewrite (normalize_relative _ c n Hne). cbn [root_dir working_dir].
    f_equal.
    assert ("/" +:+ rt +:+ "/" +:+ String c n
            = String "/" (String "/" (r +:+ "/" +:+ String c n))) as ->
      by (rewrite Hrt; reflexivity).
    assert (rt +:+ "/" +:+ String c n = String "/" (r +:+ "/" +:+ String c n)) as E
      by (rewrite Hrt; reflexivity).
    rewrite E in Hcn |- *. now apply collapse2.
Qed.

(** X16: a successful [change_work_dir] to an absolute path [d], the root
    directory followed by [d] holding no doubled slash, stores a slash
    followed by [d] -- the text [get_work_dir] returns from then on begins
    with two slashes -- and [listdir] then lists the root directory
    followed by [d]. *)
Theorem work_dir_after_change self self' d :
  change_work_dir (Some (String "/" d)) self = (self', Ok true) ->
  str_contains "//" (root_dir self +:+ String "/" d) = false ->
  snd (get_work_dir self') = Ok (String "/" (String "/" d))
  /\ root_dir self' = root_dir self
  /\ normalize_path self' (Some (working_dir self'))
     = Ok (root_dir self +:+ String "/" d)
  /\ snd (listdir self')
     = (file_list <~ OS.listdir (os self) (root_dir self +:+ String "/" d) ;;
        listdir_loop self' (tm_year (gmtime (OS.clock (os self)))) file_list EmptyString).
Proof.
  intros Hch Hc. unfold change_work_dir in Hch.
  rewrite (normalize_absolute self d Hc) in Hch.
  destruct (OS.isdir (os self) _); [|discriminate Hch].
  injection Hch as <-. rewrite str_drop_app.
  assert (normalize_path
            (set_working_dir ("/" +:+ String "/" d) self)
            (Some (working_dir (set_working_dir ("/" +:+ String "/" d) self)))
          = Ok (root_dir self +:+ String "/" d)) as Hwd.
  { unfold normalize_path. cbn [working_dir set_working_dir root_dir].
    change ("/" +:+ String "/" d) with (String "/" (String "/" d)).
    cbn [Ascii.eqb Bool.eqb negb].
    change (root_dir self +:+ "/" +:+ String "/" (String "/" d))
      with (root_dir self +:+ String "/" (String "/" (String "/" d))).
    now rewrite collapse3. }
  split; [reflexivity|]. split; [reflexivity|]. split; [exact Hwd|].
  unfold listdir. cbn [snd]. rewrite Hwd. reflexivity.
Qed.

(** X17: after a successful [change_work_dir] to an absolute path [d], a
    relative name [n] is resolved below that directory, to the root
    directory followed by [d], a slash and [n], provided that text holds
    no doubled slash. *)
Theorem relative_name_after_change self self' d c n :
  change_work_dir (Some (String "/" d)) self = (self', Ok true) ->
  c <> "/"%char ->
  str_contains "//" (root_dir self +:+ String "/" d +:+ "/" +:+ String c n) = false ->
  normalize_path self' (Some (String c n))
  = Ok (root_dir self +:+ String "/" d +:+ "/" +:+ String c n).
Proof.
  intros Hch Hne Hcn.
  change (root_dir self +:+ String "/" d +:+ "/" +:+ String c n)
    with (root_dir self +:+ String "/" (d +:+ "/" +:+ String c n)) in Hcn |- *.
  assert (str_contains "//" (root_dir self +:+ String "/" d) = false) as Hc.
  { apply clean_prefix with (b := "/" +:+ String c n).
    rewrite str_app_assoc. exact Hcn. }
  unfold change_work_dir in Hch. rewrite (normalize_absolute self d Hc) in Hch.
  destruct (OS.isdir (os self) _); [|discriminate Hch].
  injection Hch as <-. rewrite str_drop_app.
  rewrite (normalize_relative _ c n Hne). cbn [root_dir working_dir set_working_dir].
  f_equal.
  change (root_dir self +:+ "/" +:+ ("/" +:+ String "/" d) +:+ "/" +:+ String c n)
    with (root_dir self
            +:+ String "/" (String "/" (String "/" (d +:+ "/" +:+ String c n)))).
  now apply collapse3.
Qed.

(** X18: after a successful [change_work_dir] to the slash alone, a
    relative name [n] is resolved to the root directory followed by one
    slash and [n], provided that text holds no doubled slash. *)
Theorem relative_name_at_root self self' c n :
  change_work_dir (Some "/") self = (self', Ok true) ->
  c <> "/"%char ->
  str_contains "//" (root_dir self +:+ "/" +:+ String c n) = false ->
  normalize_path self' (Some (String c n))
  = Ok (root_dir self +:+ "/" +:+ String c n).
Proof.
  intros Hch Hne Hcn.
  change (root_dir self +:+ "/" +:+ String c n)
    with (root_dir self +:+ String "/" (String c n)) in Hcn |- *.
  pose proof (clean_upto_slash _ _ Hcn) as Hc.
  unfold change_work_dir in Hch.
  change (Some "/") with (Some (String "/" EmptyString)) in Hch.
  rewrite (normalize_absolute self EmptyString Hc) in Hch.
  destruct (OS.isdir (os self) _); [|discriminate Hch].
  injection Hch as <-. rewrite str_drop_app.
  rewrite (normalize_relative _ c n Hne). cbn [root_dir working_dir set_working_dir].
  f_equal.
  change (root_dir self +:+ "/" +:+ ("/" +:+ "/") +:+ "/" +:+ String c n)
    with (root_dir self
            +:+ String "/" (String "/" (String "/" (String "/" (String c n))))).
  now apply collapse4.
Qed.

End PathFacts.

Lemma normalize_path_absolute_witness :
  FileSystemProvider.normalize_path Examples.srv (Some (String "/" "pub/x.txt"))
  = Ok (FileSystemProvider.root_dir Examples.srv +:+ String "/" "pub/x.txt").
Proof.
  apply (normalize_path_absolute Examples.srv "pub/x.txt"). reflexivity.
Defined.

Lemma new_object_witness :
  FileSystemProvider.normalize_path Examples.srv
    (Some (FileSystemProvider.working_dir Examples.srv))
  = Ok (FileSystemProvider.root_dir Examples.srv
          +:+ FileSystemProvider.root_dir Examples.srv)
  /\ (OS.isdir Examples.disk
        (FileSystemProvider.root_dir Examples.srv
           +:+ FileSystemProvider.root_dir Examples.srv) = false ->
      is_ok (snd (FileSystemProvider.listdir Examples.srv)) = false)
  /\ (forall c n,
        c <> "/"%char ->
        str_contains "//"
          (FileSystemProvider.root_dir Examples.srv
             +:+ FileSystemProvider.root_dir Examples.srv +:+ "/" +:+ String c n) = false ->
        FileSystemProvider.normalize_path Examples.srv (Some (String c n))
        = Ok (FileSystemProvider.root_dir Examples.srv
                +:+ FileSystemProvider.root_dir Examples.srv +:+ "/" +:+ String c n)).
Proof.
  apply (new_object_works_below_root_twice "/srv" Examples.disk Examples.srv "srv");
    [vm_compute; reflexivity | reflexivity | reflexivity].
Defined.

Lemma work_dir_after_change_witness :
  snd (FileSystemProvider.get_work_dir
         (fst (FileSystemProvider.change_work_dir (Some (String "/" "pub")) Examples.srv)))
  = Ok (String "/" (String "/" "pub"))
  /\ FileSystemProvider.root_dir
       (fst (FileSystemProvider.change_work_dir (Some (String "/" "pub")) Examples.srv))
     = FileSystemProvider.root_dir Examples.srv
  /\ FileSystemProvider.normalize_path
       (fst (FileSystemProvider.change_work_dir (Some (String "/" "pub")) Examples.srv))
       (Some (FileSystemProvider.working_dir
                (fst (FileSystemProvider.change_work_dir (Some (String "/" "pub"))
                        Examples.srv))))
     = Ok (FileSystemProvider.root_dir Examples.srv +:+ String "/" "pub")
  /\ snd (FileSystemProvider.listdir
            (fst (FileSystemProvider.change_work_dir (Some (String "/" "pub"))
                    Examples.srv)))
     = (file_list <~ OS.listdir (FileSystemProvider.os Examples.srv)
                       (FileSystemProvider.root_dir Examples.srv +:+ String "/" "pub") ;;
        FileSystemProvider.listdir_loop
          (fst (FileSystemProvider.change_work_dir (Some (String "/" "pub")) Examples.srv))
          (tm_year (gmtime (OS.clock (FileSystemProvider.os Examples.srv))))
          file_list EmptyString).
Proof.
  apply (work_dir_after_change Examples.srv
           (fst (FileSystemProvider.change_work_dir (Some (String "/" "pub")) Examples.srv))
           "pub");
    [vm_compute; reflexivity | reflexivity].
Defined.

Lemma relative_name_witness :
  FileSystemProvider.normalize_path
    (fst (FileSystemProvider.change_work_dir (Some (String "/" "pub")) Examples.srv))
    (Some (String "x" ".txt"))
  = Ok (FileSystemProvider.root_dir Examples.srv +:+ String "/" "pub" +:+ "/"
          +:+ String "x" ".txt").
Proof.
  apply (relative_name_after_change Examples.srv
           (fst (FileSystemProvider.change_work_dir (Some (String "/" "pub")) Examples.srv))
           "pub" "x"%char ".txt");
    [vm_compute; reflexivity | discriminate | reflexivity].
Defined.

Lemma relative_name_at_root_witness :
  FileSystemProvider.normalize_path Examples.srv_at_root (Some (String "a" ".txt"))
  = Ok (FileSystemProvider.root_dir Examples.srv +:+ "/" +:+ String "a" ".txt").
Proof.
  apply (relative_name_at_root Examples.srv Examples.srv_at_root "a"%char ".txt");
    [vm_compute; reflexivity | discriminate | reflexivity].
Defined.

(** ** The Dropbox provider *)

Section DropboxFacts.
Import Dropbox.

Lemma change_work_dir_keeps_away api a self :
  working_dir self <> "/" -> working_dir (fst (change_work_dir api a self)) <> "/".
Proof.
  intros Hwd. unfold change_work_dir.
  destruct (normalize_path self a) as [new_dir|e]; [|exact Hwd].
  destruct (String.eqb new_dir "/") eqn:Hroot; [exact Hwd|].
  destruct (api new_dir) as [code [tag|e]]; destruct (negb (code =? 200)%Z);
    try exact Hwd.
  destruct (String.eqb tag "folder"); [|exact Hwd].
  cbn. now apply String.eqb_neq in Hroot.
Qed.

(** X19: the Dropbox provider cannot go back to the top.  Once the
    working directory is not the slash alone, no sequence of
    [change_work_dir] calls, whatever the service answers, makes it the
    slash again; and [change_work_dir('/')] still returns [True] then,
    leaving the working directory as it is. *)
Theorem dropbox_cannot_return_to_root l : forall self,
  working_dir self <> "/" ->
  working_dir (change_all l self) <> "/"
  /\ (forall api,
        change_work_dir api (Some "/") (change_all l self)
        = (change_all l self, Ok true)).
Proof.
  induction l as [|[api a] l IH]; intros self Hwd.
  - split; [exact Hwd | reflexivity].
  - cbn [change_all]. apply IH. now apply change_work_dir_keeps_away.
Qed.

Lemma take_N_full_or_end s : forall k,
  N.of_nat (length (take_N k s)) = k \/ drop_N k s = [].
Proof.
  induction s as [|b s IH]; intros k; [now right|].
  cbn [take_N drop_N]. destruct (k =? 0)%N eqn:Hk.
  - left. now apply N.eqb_eq in Hk as ->.
  - apply N.eqb_neq in Hk. destruct (IH (N.pred k)) as [Hfull|Hend]; [left|now right].
    cbn [length]. lia.
Qed.

Lemma offsets_agree_app l1 : forall before l2,
  offsets_agree before l1 ->
  offsets_agree (before + Z.of_nat (length (uploaded l1))) l2 ->
  offsets_agree before (l1 ++ l2).
Proof.
  induction l1 as [|[|sid off d|sid off pth] l1 IH]; intros before l2 H1 H2;
    cbn [app offsets_agree uploaded] in *.
  - now rewrite Z.add_0_r in H2.
  - now apply IH.
  - destruct H1 as [-> H1]. split; [reflexivity|]. apply IH; [exact H1|].
    rewrite length_app, Nat2Z.inj_add, Z.add_assoc in H2. exact H2.
  - destruct H1 as [-> H1]. split; [reflexivity|]. now apply IH.
Qed.

Lemma uploaded_app l1 l2 : uploaded (l1 ++ l2) = uploaded l1 ++ uploaded l2.
Proof.
  induction l1 as [|[|sid off d|sid off pth] l1 IH]; cbn [app uploaded];
    [reflexivity | exact IH | now rewrite IH, app_assoc | exact IH].
Qed.

(** The upload loop fed from a connection: the appended requests carry
    the right offsets and, when the loop completes, the whole input. *)
Lemma upload_loop_socket api sid fuel : forall conn i f_len sent,
  length conn < fuel ->
  f_len = (i * Z.of_N upload_chunk_size)%Z \/ conn = [] ->
  exists r rest more,
    upload_loop api fuel (fun n c => read_n_till_close c n) conn sid i f_len sent
    = Some (r, rest, sent ++ more)
    /\ offsets_agree f_len more
    /\ (forall n, r = Ok n ->
          rest = [] /\ n = (f_len + Z.of_nat (length conn))%Z /\ uploaded more = conn).
Proof.
  induction fuel as [|fuel IH]; intros conn i f_len sent Hlen Hinv; [lia|].
  cbn [upload_loop]. rewrite read_n_till_close_spec.
  destruct conn as [|b conn].
  - exists (Ok (f_len + Z.of_nat (length (take_N upload_chunk_size [])))%Z), [], [].
    cbn. rewrite app_nil_r. split; [reflexivity|]. split; [exact I|].
    intros n [= <-]. auto.
  - destruct Hinv as [Hinv|Hinv]; [|discriminate Hinv].
    change (take_N upload_chunk_size (b :: conn))
      with (b :: take_N (N.pred upload_chunk_size) conn).
    change (drop_N upload_chunk_size (b :: conn))
      with (drop_N (N.pred upload_chunk_size) conn).
    set (chunk := b :: take_N (N.pred upload_chunk_size) conn).
    set (rest := drop_N (N.pred upload_chunk_size) conn).
    set (req := UploadAppend sid (i * Z.of_N upload_chunk_size) chunk).
    cbv beta iota.
    destruct (negb (fst (api sent req) =? 200)%Z).
    + exists (Raise (Exception "save_file append error")), rest, [req].
      split; [reflexivity|]. split; [|intros n [=]].
      cbn [offsets_agree req]. split; [now symmetry | exact I].
    + destruct (IH rest (i + 1)%Z (f_len + Z.of_nat (length chunk))%Z (sent ++ [req]))
        as (r & rest' & more & Hloop & Hoff & Hok).
      { pose proof (drop_N_length conn (N.pred upload_chunk_size)).
        cbn [length] in Hlen. unfold rest. lia. }
      { destruct (take_N_full_or_end conn (N.pred upload_chunk_size)) as [Hfull|Hend];
          [left | now right].
        unfold chunk. cbn [length]. rewrite Hinv.
        assert (Z.of_nat (S (length (take_N (N.pred upload_chunk_size) conn)))
                = Z.of_N upload_chunk_size) as ->; [|lia].
        assert (upload_chunk_size <> 0)%N by discriminate. lia. }
      exists r, rest', (req :: more). split; [|split].
      * rewrite Hloop. now rewrite <- app_assoc.
      * cbn [offsets_agree req]. split; [now symmetry | exact Hoff].
      * intros n Hn. destruct (Hok n Hn) as (-> & -> & Hup).
        split; [reflexivity|]. split.
        -- unfold chunk, rest. cbn [length].
           pose proof (take_drop_N conn (N.pred upload_chunk_size)) as Htd.
           apply (f_equal (@length byte)) in Htd. rewrite length_app in Htd. lia.
        -- cbn [uploaded req]. rewrite Hup. unfold chunk, rest. cbn [app].
           now rewrite take_drop_N.
Qed.

(** X20: an upload fed from a data connection keeps the offsets right.
    As the server calls it, [save_file] reads chunks with
    [read_n_till_close], so every chunk but the last is full, and the
    offset [i*upload_chunk_size] of every append request, like the offset
    of the finish request, is the number of bytes appended before it.
    When [save_file] completes, the connection has been read to its end,
    the appended bytes are what the peer sent, and the last request
    commits their number under the normalized path. *)
Theorem dropbox_upload_offsets api f conn self fuel :
  length conn < fuel ->
  exists r rest sent,
    save_file api fuel f (fun n c => read_n_till_close c n) conn self = Some (r, rest, sent)
    /\ offsets_agree 0 sent
    /\ (r = Ok tt ->
        rest = [] /\ uploaded sent = conn
        /\ exists sid path before,
             normalize_path self f = Ok path
             /\ sent = UploadStart :: before
                         ++ [UploadFinish sid (Z.of_nat (length conn)) path]).
Proof.
  intros Hlen. unfold save_file.
  destruct (normalize_path self f) as [path|e].
  2:{ eexists _, _, _. split; [reflexivity|]. split; [exact I | intros [=]]. }
  destruct (api [] UploadStart) as [code [sid|e]]; destruct (negb (code =? 200)%Z);
    try (eexists _, _, _; split; [reflexivity|]; split; [exact I | intros [=]]).
  destruct (upload_loop_socket api sid fuel conn 0%Z 0%Z [UploadStart] Hlen)
    as (r & rest & more & Hloop & Hoff & Hok); [now left|].
  rewrite Hloop. destruct r as [n|e].
  - destruct (Hok n eq_refl) as (-> & -> & Hup). cbv beta iota. rewrite !Z.add_0_l.
    destruct (negb (fst (api ([UploadStart] ++ more)
                           (UploadFinish sid (Z.of_nat (length conn)) path)) =? 200)%Z).
    + eexists _, _, _. split; [reflexivity|]. split; [|intros [=]].
      cbn [app offsets_agree]. apply offsets_agree_app; [exact Hoff|].
      cbn [offsets_agree]. split; [now rewrite Hup | exact I].
    + eexists _, _, _. split; [reflexivity|]. split; [|intros _].
      * cbn [app offsets_agree]. apply offsets_agree_app; [exact Hoff|].
        cbn [offsets_agree]. split; [now rewrite Hup | exact I].
      * split; [reflexivity|]. split.
        -- cbn [app uploaded]. rewrite uploaded_app. cbn. now rewrite app_nil_r.
        -- exists sid, path, more. split; reflexivity.
  - eexists _, _, _. split; [reflexivity|]. split; [|intros [=]].
    cbn [app offsets_agree]. exact Hoff.
Qed.

End DropboxFacts.

Lemma dropbox_root_witness :
  Dropbox.working_dir
    (Dropbox.change_all
       [(fun _ => (200%Z, Ok "folder"), Some "b"); (fun _ => (200%Z, Ok "folder"), Some "/")]
       {| Dropbox.working_dir := "/a" |}) <> "/"
  /\ (forall api,
        Dropbox.change_work_dir api (Some "/")
          (Dropbox.change_all
             [(fun _ => (200%Z, Ok "folder"), Some "b");
              (fun _ => (200%Z, Ok "folder"), Some "/")]
             {| Dropbox.working_dir := "/a" |})
        = (Dropbox.change_all
             [(fun _ => (200%Z, Ok "folder"), Some "b");
              (fun _ => (200%Z, Ok "folder"), Some "/")]
             {| Dropbox.working_dir := "/a" |}, Ok true)).
Proof.
  apply (dropbox_cannot_return_to_root
           [(fun _ => (200%Z, Ok "folder"), Some "b");
            (fun _ => (200%Z, Ok "folder"), Some "/")]
           {| Dropbox.working_dir := "/a" |}).
  discriminate.
Defined.

Lemma dropbox_upload_witness :
  exists r rest sent,
    Dropbox.save_file (fun _ _ => (200%Z, Ok "sid")) 6 (Some "/up.bin")
      (fun n c => read_n_till_close c n) (String.list_byte_of_string "hello")
      Dropbox.init
    = Some (r, rest, sent)
    /\ Dropbox.offsets_agree 0 sent
    /\ (r = Ok tt ->
        rest = [] /\ Dropbox.uploaded sent = String.list_byte_of_string "hello"
        /\ exists sid path before,
             Dropbox.normalize_path Dropbox.init (Some "/up.bin") = Ok path
             /\ sent = Dropbox.UploadStart :: before
                         ++ [Dropbox.UploadFinish sid
                               (Z.of_nat (length (String.list_byte_of_string "hello")))
                               path]).
Proof.
  apply (dropbox_upload_offsets (fun _ _ => (200%Z, Ok "sid")) (Some "/up.bin")
           (String.list_byte_of_string "hello") Dropbox.init 6).
  vm_compute. lia.
Defined.

(** ** Transfers over the data connection *)

Section Transfers.
Import Provider Server.
Context {P : Type} `{ProviderBase P}.

#[local] Abbreviation session := (Server.session P).

Lemma reply_sent st data (s : session) :
  is_ok (encode_ascii (reply_line st data)) = true ->
  reply st data s = (emit (EvReply st data) s, Ok tt).
Proof. unfold reply. now destruct (encode_ascii _). Qed.

(** The tail of [passive_reply]: the data is sent, the connection closed
    and forgotten, and the closing reply sent. *)
Lemma send_close_clear h d k st data (s : session) :
  sockets s !! h = Some k -> closed k = false ->
  is_ok (encode_ascii (reply_line st data)) = true ->
  bind (sock_send h d) (fun _ =>
    bind (sock_close h) (fun _ =>
      bind (fun s => (set_passive_client None s, Ok tt)) (fun _ => reply st data))) s
  = (emit (EvReply st data)
       (set_passive_client None
          (emit (EvDataClose h)
             (set_sockets
                (<[h := {| incoming := incoming k; sent := sent k ++ d; closed := true |}]>
                   (sockets s))
                (emit (EvDataSend h d) s)))), Ok tt).
Proof.
  intros Hk Hopen Hst.
  assert (h < length (sockets s)) as Hh by now apply lookup_lt_Some in Hk.
  unfold bind, sock_send, sock_close. rewrite Hk, Hopen.
  cbn [sockets emit set_sockets]. rewrite list_lookup_insert_eq by exact Hh.
  cbn [incoming sent]. rewrite (reply_sent _ _ _ Hst).
  rewrite list_insert_insert_eq. reflexivity.
Qed.

(** X21: [RETR] in passive mode sends the file as the provider returns
    it.  When [get_size] reports a file, [get_file] returns its content,
    the data connection is open and the 150 line is 7-bit text, the
    content is sent unchanged on the data connection, which is then
    closed and forgotten; the replies are 150 and 226, and [get_size] and
    [get_file] are the only calls made on the provider. *)
Theorem retr_sends_file args (s : session) h k sz content :
  passive_client s = Some h ->
  sockets s !! h = Some k -> closed k = false ->
  snd (get_size args (provider s)) = Ok (true, sz) ->
  snd (get_file args (fst (get_size args (provider s)))) = Ok content ->
  is_ok (encode_ascii (reply_line 150 ("Sending binary file " +:+ fmt_opt args))) = true ->
  exists s',
    dispatch "RETR" args s = (s', Ok tt)
    /\ sockets s'
       = <[h := {| incoming := incoming k; sent := sent k ++ content; closed := true |}]>
           (sockets s)
    /\ passive_client s' = None
    /\ provider s' = fst (get_file args (fst (get_size args (provider s))))
    /\ log s' = log s ++ [EvCall (CallGetSize args);
                          EvReply 150 ("Sending binary file " +:+ fmt_opt args);
                          EvCall (CallGetFile args);
                          EvDataSend h content;
                          EvDataClose h;
                          EvReply 226 "File transfer complete"].
Proof.
  intros Hpc Hk Hopen Hsize Hfile Hst. eexists. split.
  - rewrite dispatch_RETR.
    erewrite bind_ok; [|rewrite invoke_eq, Hsize; reflexivity].
    cbn [fst negb]. unfold passive_reply.
    cbn [passive_client set_provider emit]. rewrite Hpc.
    erewrite bind_ok; [|apply (reply_sent _ _ _ Hst)].
    erewrite bind_ok;
      [|erewrite bind_ok; [reflexivity|]; rewrite invoke_eq;
        cbn [provider set_provider emit]; rewrite Hfile; reflexivity].
    erewrite bind_ok; [|reflexivity].
    apply (send_close_clear h content k); [exact Hk | exact Hopen | reflexivity].
  - cbn [sockets passive_client provider log emit set_passive_client set_sockets
           set_provider].
    repeat split. now rewrite <- !app_assoc.
Qed.

End Transfers.

Section StoreOverChannel.
Import Provider Server.
Context `{TimeLib}.

(** X22: [STOR] in passive mode on the file-system provider stores what
    the peer sends.  When the data connection is open and the file can be
    opened for writing, everything the peer sends on the data connection
    before closing it is read, [get_file] on the same name then returns
    exactly those bytes, the data connection is closed and forgotten, and
    the replies are 150 and 226. *)
Theorem stor_stores_connection (s : Server.session FileSystemProvider.t) f path h k :
  passive_client s = Some h ->
  sockets s !! h = Some k -> closed k = false ->
  FileSystemProvider.normalize_path (provider s) (Some f) = Ok path ->
  is_ok (OS.open_wb (FileSystemProvider.os (provider s)) path) = true ->
  exists s',
    dispatch "STOR" (Some f) s = (s', Ok tt)
    /\ snd (FileSystemProvider.get_file (Some f) (provider s')) = Ok (incoming k)
    /\ sockets s' = <[h := {| incoming := []; sent := sent k; closed := true |}]> (sockets s)
    /\ passive_client s' = None
    /\ replies (log s') = replies (log s) ++ [150; 226]%Z.
Proof.
  intros Hpc Hk Hopen Hpath Hwb.
  destruct (stor_then_retr_roundtrip (provider s) f path (incoming k) Hpath Hwb)
    as (self' & Hsave & Hget).
  assert (h < length (sockets s)) as Hh by now apply lookup_lt_Some in Hk.
  eexists. split.
  - rewrite dispatch_STOR. unfold passive_read. rewrite Hpc.
    erewrite bind_ok; [|reflexivity]. cbn zeta.
    erewrite bind_ok.
    2:{ unfold invoke_save_file. cbn [sockets emit provider]. rewrite Hk, Hopen.
        change (Provider.save_file (Some f) (fun n c => read_n_till_close c n)
                  (incoming k) (provider s))
          with (FileSystemProvider.save_file (Some f) (fun n c => read_n_till_close c n)
                  (incoming k) (provider s)).
        rewrite Hsave. reflexivity. }
    unfold bind, sock_close. cbn [sockets set_provider set_sockets emit].
    rewrite list_lookup_insert_eq by exact Hh. cbn [incoming sent].
    rewrite list_insert_insert_eq. reflexivity.
  - cbn [sockets passive_client provider log emit set_passive_client set_sockets
           set_provider].
    split; [exact Hget|]. split; [reflexivity|]. split; [reflexivity|].
    rewrite !replies_app. cbn. now rewrite !app_nil_r, <- app_assoc.
Qed.

End StoreOverChannel.

Lemma retr_sends_file_witness :
  exists s',
    Server.dispatch "RETR" (Some "a.txt")
      (Server.set_passive_client (Some 0)
         (Server.set_sockets
            [{| Server.incoming := []; Server.sent := []; Server.closed := false |}]
            (Server.new_session [] Examples.srv_at_root [])))
    = (s', Ok tt)
    /\ Server.sockets s'
       = <[0 := {| Server.incoming := [];
                   Server.sent := [] ++ String.list_byte_of_string "hello";
                   Server.closed := true |}]>
           [{| Server.incoming := []; Server.sent := []; Server.closed := false |}]
    /\ Server.passive_client s' = None
    /\ Server.provider s'
       = fst (FileSystemProvider.get_file (Some "a.txt")
                (fst (FileSystemProvider.get_size (Some "a.txt") Examples.srv_at_root)))
    /\ Server.log s'
       = [] ++ [Server.EvCall (Server.CallGetSize (Some "a.txt"));
                Server.EvReply 150 ("Sending binary file " +:+ fmt_opt (Some "a.txt"));
                Server.EvCall (Server.CallGetFile (Some "a.txt"));
                Server.EvDataSend 0 (String.list_byte_of_string "hello");
                Server.EvDataClose 0;
                Server.EvReply 226 "File transfer complete"].
Proof.
  exact (retr_sends_file (Some "a.txt")
           (Server.set_passive_client (Some 0)
              (Server.set_sockets
                 [{| Server.incoming := []; Server.sent := []; Server.closed := false |}]
                 (Server.new_session [] Examples.srv_at_root [])))
           0 {| Server.incoming := []; Server.sent := []; Server.closed := false |}
           "5" (String.list_byte_of_string "hello")
           eq_refl eq_refl eq_refl eq_refl eq_refl eq_refl).
Defined.

Lemma stor_stores_witness :
  exists s',
    Server.dispatch "STOR" (Some "up.bin")
      (Server.set_passive_client (Some 0)
         (Server.set_sockets
            [{| Server.incoming := String.list_byte_of_string "data";
                Server.sent := []; Server.closed := false |}]
            (Server.new_session [] Examples.srv_at_root [])))
    = (s', Ok tt)
    /\ snd (FileSystemProvider.get_file (Some "up.bin") (Server.provider s'))
       = Ok (String.list_byte_of_string "data")
    /\ Server.sockets s'
       = <[0 := {| Server.incoming := []; Server.sent := []; Server.closed := true |}]>
           [{| Server.incoming := String.list_byte_of_string "data";
               Server.sent := []; Server.closed := false |}]
    /\ Server.passive_client s' = None
    /\ Server.replies (Server.log s') = [] ++ [150; 226]%Z.
Proof.
  exact (stor_stores_connection
           (Server.set_passive_client (Some 0)
              (Server.set_sockets
                 [{| Server.incoming := String.list_byte_of_string "data";
                     Server.sent := []; Server.closed := false |}]
                 (Server.new_session [] Examples.srv_at_root [])))
           "up.bin" "/srv/up.bin" 0
           {| Server.incoming := String.list_byte_of_string "data";
              Server.sent := []; Server.closed := false |}
           eq_refl eq_refl eq_refl eq_refl eq_refl).
Defined.

Section ListOverChannel.
Import Provider Server.
Context {P : Type} `{ProviderBase P}.

(** X23: [LIST] in passive mode sends the provider's listing.  When
    [listdir] returns a text of 7-bit characters and the data connection
    is open, the bytes of that text are sent on the data connection, which
    is then closed and forgotten; the replies are 150 and 226 and
    [listdir] is the only call made on the provider. *)
Theorem list_sends_listing args (s : Server.session P) h k t data :
  passive_client s = Some h ->
  sockets s !! h = Some k -> closed k = false ->
  snd (listdir (provider s)) = Ok t ->
  encode_ascii t = Ok data ->
  exists s',
    dispatch "LIST" args s = (s', Ok tt)
    /\ data = String.list_byte_of_string t
    /\ sockets s'
       = <[h := {| incoming := incoming k; sent := sent k ++ data; closed := true |}]>
           (sockets s)
    /\ passive_client s' = None
    /\ provider s' = fst (listdir (provider s))
    /\ log s' = log s ++ [EvReply 150 "Sending current directory listing";
                          EvCall CallListdir;
                          EvDataSend h data;
                          EvDataClose h;
                          EvReply 226 "Sent directory listing"].
Proof.
  intros Hpc Hk Hopen Hlist Henc. eexists. split.
  - rewrite dispatch_LIST. unfold passive_reply. rewrite Hpc.
    erewrite bind_ok; [|reflexivity].
    erewrite bind_ok;
      [|erewrite bind_ok; [reflexivity|]; rewrite invoke_eq;
        cbn [provider emit]; rewrite Hlist; reflexivity].
    erewrite bind_ok; [|unfold lift; rewrite Henc; reflexivity].
    apply (send_close_clear h data k); [exact Hk | exact Hopen | reflexivity].
  - cbn [sockets passive_client provider log emit set_passive_client set_sockets
           set_provider].
    split; [|repeat split; now rewrite <- !app_assoc].
    unfold encode_ascii in Henc. destruct (forallb _ _); [|discriminate Henc].
    now injection Henc as <-.
Qed.

End ListOverChannel.

Section MissingArgument.
Import Provider Server.
Context `{TimeLib}.

(** X24: on the file-system provider a command that needs a path and
    comes without one, or with an empty one, is answered by the 500
    reply alone: the provider, the data connections and the reference to
    one stay as they are. *)
Theorem missing_path_is_answered_500 cmd args (s : Server.session FileSystemProvider.t) :
  In cmd ["CWD"; "DELE"; "MKD"; "XMKD"; "RMD"; "XRMD"; "SIZE"; "RETR"] ->
  args = None \/ args = Some EmptyString ->
  replies (log (fst (try_dispatch cmd args s))) = replies (log s) ++ [500%Z]
  /\ provider (fst (try_dispatch cmd args s)) = provider s
  /\ same_channels s (fst (try_dispatch cmd args s)).
Proof.
  intros Hcmd Hargs.
  assert (exists c,
             try_dispatch cmd args s
             = (emit (EvReply 500 "Error executing cmd")
                  (set_provider (provider s) (emit (EvCall c) s)), Ok tt)) as (c & ->).
  { cbn [In] in Hcmd.
    destruct Hargs as [-> | ->];
      repeat (destruct Hcmd as [<- | Hcmd]; [eexists; reflexivity|]);
      contradiction Hcmd. }
  cbn [fst log emit set_provider provider]. split; [|split; [reflexivity|]].
  - rewrite !replies_app. cbn. now rewrite app_nil_r.
  - split; reflexivity.
Qed.

End MissingArgument.

Lemma list_sends_listing_witness :
  exists s',
    Server.dispatch "LIST" None
      (Server.set_passive_client (Some 0)
         (Server.set_sockets
            [{| Server.incoming := []; Server.sent := []; Server.closed := false |}]
            (Server.new_session [] Examples.srv_at_root [])))
    = (s', Ok tt)
    /\ String.list_byte_of_string
         ("-rw-r--r-- 1 0 0 5 %b %e %H:%M@100 a.txt" +:+ Server.crlf_str
            +:+ "drwxr-xr-x 2 0 0 4096 %b %e %H:%M@200 pub" +:+ Server.crlf_str)
       = String.list_byte_of_string
           ("-rw-r--r-- 1 0 0 5 %b %e %H:%M@100 a.txt" +:+ Server.crlf_str
              +:+ "drwxr-xr-x 2 0 0 4096 %b %e %H:%M@200 pub" +:+ Server.crlf_str)
    /\ Server.sockets s'
       = <[0 := {| Server.incoming := [];
                   Server.sent :=
                     [] ++ String.list_byte_of_string
                             ("-rw-r--r-- 1 0 0 5 %b %e %H:%M@100 a.txt" +:+ Server.crlf_str
                                +:+ "drwxr-xr-x 2 0 0 4096 %b %e %H:%M@200 pub"
                                +:+ Server.crlf_str);
                   Server.closed := true |}]>
           [{| Server.incoming := []; Server.sent := []; Server.closed := false |}]
    /\ Server.passive_client s' = None
    /\ Server.provider s' = fst (FileSystemProvider.listdir Examples.srv_at_root)
    /\ Server.log s'
       = [] ++ [Server.EvReply 150 "Sending current directory listing";
                Server.EvCall Server.CallListdir;
                Server.EvDataSend 0
                  (String.list_byte_of_string
                     ("-rw-r--r-- 1 0 0 5 %b %e %H:%M@100 a.txt" +:+ Server.crlf_str
                        +:+ "drwxr-xr-x 2 0 0 4096 %b %e %H:%M@200 pub"
                        +:+ Server.crlf_str));
                Server.EvDataClose 0;
                Server.EvReply 226 "Sent directory listing"].
Proof.
  exact (list_sends_listing None
           (Server.set_passive_client (Some 0)
              (Server.set_sockets
                 [{| Server.incoming := []; Server.sent := []; Server.closed := false |}]
                 (Server.new_session [] Examples.srv_at_root [])))
           0 {| Server.incoming := []; Server.sent := []; Server.closed := false |}
           ("-rw-r--r-- 1 0 0 5 %b %e %H:%M@100 a.txt" +:+ Server.crlf_str
              +:+ "drwxr-xr-x 2 0 0 4096 %b %e %H:%M@200 pub" +:+ Server.crlf_str)
           (String.list_byte_of_string
              ("-rw-r--r-- 1 0 0 5 %b %e %H:%M@100 a.txt" +:+ Server.crlf_str
                 +:+ "drwxr-xr-x 2 0 0 4096 %b %e %H:%M@200 pub" +:+ Server.crlf_str))
           eq_refl eq_refl eq_refl eq_refl eq_refl).
Defined.

Lemma missing_path_witness :
  Server.replies
    (Server.log (fst (Server.try_dispatch "CWD" None
                        (Server.new_session [] Examples.srv []))))
  = Server.replies (Server.log (Server.new_session [] Examples.srv [])) ++ [500%Z]
  /\ Server.provider (fst (Server.try_dispatch "CWD" None
                             (Server.new_session [] Examples.srv [])))
     = Server.provider (Server.new_session [] Examples.srv [])
  /\ Server.same_channels (Server.new_session [] Examples.srv [])
       (fst (Server.try_dispatch "CWD" None (Server.new_session [] Examples.srv []))).
Proof.
  apply (missing_path_is_answered_500 "CWD" None (Server.new_session [] Examples.srv []));
    [left; reflexivity | left; reflexivity].
Defined.
